(** * Task model of the to-do list: entity, collection manager, and their
    checked properties.

    The development embeds the two classes of the task model module
    ([Task] and [TaskManager]), and the two methods of the storage
    manager that they call, as functions over explicit state and proves
    the properties the specification states about them. *)

From Stdlib Require Import ZArith NArith Ascii String List Bool Lia Sorted DecimalString.
From stdpp Require Import base decidable option list.

Open Scope Z_scope.
Open Scope list_scope.

(** ** JavaScript strings

    A string is its sequence of UTF-16 code units. *)

Definition jsstring := list N.

Definition js (s : string) : jsstring :=
  List.map N_of_ascii (list_ascii_of_string s).

Fixpoint str_eqb (a b : jsstring) : bool :=
  match a, b with
  | [], [] => true
  | x :: a', y :: b' => N.eqb x y && str_eqb a' b'
  | _, _ => false
  end.

(** The code units [String.prototype.trim] strips: WhiteSpace and
    LineTerminator of ECMAScript. *)
Definition isWhiteSpace (c : N) : bool :=
  existsb (N.eqb c)
    [9; 10; 11; 12; 13; 32; 160; 5760;
     8192; 8193; 8194; 8195; 8196; 8197; 8198; 8199; 8200; 8201; 8202;
     8232; 8233; 8239; 8287; 12288; 65279]%N.

Fixpoint trimStart (s : jsstring) : jsstring :=
  match s with
  | c :: s' => if isWhiteSpace c then trimStart s' else s
  | [] => []
  end.

Definition trimEnd (s : jsstring) : jsstring := rev (trimStart (rev s)).

Definition trim (s : jsstring) : jsstring := trimEnd (trimStart s).

(** [s.startsWith(p)] and [s.includes(p)] on code units. *)
Fixpoint startsWith (p s : jsstring) : bool :=
  match p, s with
  | [], _ => true
  | x :: p', y :: s' => N.eqb x y && startsWith p' s'
  | _ :: _, [] => false
  end.

Fixpoint str_includes (s p : jsstring) : bool :=
  startsWith p s ||
  match s with
  | [] => false
  | _ :: s' => str_includes s' p
  end.

(** ** JavaScript values

    The values that reach the task model: the primitives, [Date] objects
    (a valid one is given by its ISO text, an invalid one by [None]) and
    arrays.  Numbers are the integral ones. *)

#[warnings="-register-all"]
Inductive JsVal : Type :=
| JUndefined
| JNull
| JBool (b : bool)
| JNum (n : Z)
| JStr (s : jsstring)
| JDate (iso : option jsstring)
| JArr (elems : list JsVal).

(** ToBoolean. *)
Definition truthy (v : JsVal) : bool :=
  match v with
  | JUndefined | JNull => false
  | JBool b => b
  | JNum n => negb (n =? 0)
  | JStr s => match s with [] => false | _ => true end
  | JDate _ | JArr _ => true
  end.

(** [a || b], with [b] already evaluated (used where [b] is a literal). *)
Definition js_or (a b : JsVal) : JsVal := if truthy a then a else b.

(** [!a] *)
Definition js_not (a : JsVal) : JsVal := JBool (negb (truthy a)).

(** [typeof v === 'string'] *)
Definition is_string (v : JsVal) : bool :=
  match v with JStr _ => true | _ => false end.

(** [a === b].  Primitives compare by value.  Objects (dates, arrays)
    compare by identity; the embedding carries values, not identities, and
    treats every object value as a distinct object. *)
Definition strict_eq (a b : JsVal) : bool :=
  match a, b with
  | JUndefined, JUndefined => true
  | JNull, JNull => true
  | JBool x, JBool y => Bool.eqb x y
  | JNum x, JNum y => x =? y
  | JStr x, JStr y => str_eqb x y
  | _, _ => false
  end.

(** [arr.includes(v)] and [arr.indexOf(v)] on an array's elements. *)
Definition arr_includes (l : list JsVal) (v : JsVal) : bool :=
  existsb (fun x => strict_eq x v) l.

Fixpoint arr_indexOf (l : list JsVal) (v : JsVal) : option nat :=
  match l with
  | [] => None
  | x :: l' => if strict_eq x v then Some 0%nat
               else option_map S (arr_indexOf l' v)
  end.

(** ** Exceptions and the monad of the embedding *)

Inductive message : Type :=
| TaskTextEmpty        (* '任务内容不能为空' *)
| TaskNotFound         (* '任务不存在' *)
| ImportFormatInvalid. (* '导入数据格式错误' *)

Inductive Exn : Type :=
| Error (msg : message)   (* throw new Error(msg) *)
| TypeError               (* raised by the runtime *)
| RangeError.

(** The specification's names for the two error kinds. *)
Definition ValidationError : Exn := Error TaskTextEmpty.
Definition NotFoundError : Exn := Error TaskNotFound.

Inductive Outcome (A : Type) : Type :=
| Ret (a : A)
| Throw (e : Exn).
Arguments Ret {A} a.
Arguments Throw {A} e.

(** ** The task entity's properties

    One record serves the three shapes the source passes around: a [Task]
    instance, the plain object [toJSON] builds, and the [options] object of
    the constructor (whose [text] slot the constructor does not read).  An
    absent property reads [JUndefined]. *)

Module Task.
Record t : Type := mk {
  id : JsVal;
  text : JsVal;
  completed : JsVal;
  createdAt : JsVal;
  completedAt : JsVal;
  updatedAt : JsVal;
  priority : JsVal;
  category : JsVal;
  tags : JsVal;
  dueDate : JsVal;
  description : JsVal
}.

(** The object literal [{}]. *)
Definition empty : t :=
  mk JUndefined JUndefined JUndefined JUndefined JUndefined JUndefined
     JUndefined JUndefined JUndefined JUndefined JUndefined.

Definition set_id v o := mk v (text o) (completed o) (createdAt o) (completedAt o) (updatedAt o) (priority o) (category o) (tags o) (dueDate o) (description o).
Definition set_text v o := mk (id o) v (completed o) (createdAt o) (completedAt o) (updatedAt o) (priority o) (category o) (tags o) (dueDate o) (description o).
Definition set_completed v o := mk (id o) (text o) v (createdAt o) (completedAt o) (updatedAt o) (priority o) (category o) (tags o) (dueDate o) (description o).
Definition set_createdAt v o := mk (id o) (text o) (completed o) v (completedAt o) (updatedAt o) (priority o) (category o) (tags o) (dueDate o) (description o).
Definition set_completedAt v o := mk (id o) (text o) (completed o) (createdAt o) v (updatedAt o) (priority o) (category o) (tags o) (dueDate o) (description o).
Definition set_updatedAt v o := mk (id o) (text o) (completed o) (createdAt o) (completedAt o) v (priority o) (category o) (tags o) (dueDate o) (description o).
Definition set_priority v o := mk (id o) (text o) (completed o) (createdAt o) (completedAt o) (updatedAt o) v (category o) (tags o) (dueDate o) (description o).
Definition set_category v o := mk (id o) (text o) (completed o) (createdAt o) (completedAt o) (updatedAt o) (priority o) v (tags o) (dueDate o) (description o).
Definition set_tags v o := mk (id o) (text o) (completed o) (createdAt o) (completedAt o) (updatedAt o) (priority o) (category o) v (dueDate o) (description o).
Definition set_dueDate v o := mk (id o) (text o) (completed o) (createdAt o) (completedAt o) (updatedAt o) (priority o) (category o) (tags o) v (description o).
Definition set_description v o := mk (id o) (text o) (completed o) (createdAt o) (completedAt o) (updatedAt o) (priority o) (category o) (tags o) (dueDate o) v.
End Task.

(** ** JSON

    [JSON.parse(JSON.stringify(v))] on these values: a [Date] is written
    as its ISO text (an invalid one as [null]), an [undefined] element of
    an array as [null], and an [undefined] property is left out, so that
    reading it gives [undefined] again. *)

Fixpoint jsonValue (v : JsVal) : JsVal :=
  match v with
  | JDate (Some iso) => JStr iso
  | JDate None => JNull
  | JArr elems =>
      JArr (List.map (fun x => match x with
                               | JUndefined => JNull
                               | _ => jsonValue x
                               end) elems)
  | _ => v
  end.

Definition jsonTask (data : Task.t) : Task.t :=
  Task.mk (jsonValue (Task.id data)) (jsonValue (Task.text data))
          (jsonValue (Task.completed data)) (jsonValue (Task.createdAt data))
          (jsonValue (Task.completedAt data)) (jsonValue (Task.updatedAt data))
          (jsonValue (Task.priority data)) (jsonValue (Task.category data))
          (jsonValue (Task.tags data)) (jsonValue (Task.dueDate data))
          (jsonValue (Task.description data)).

(** ** The host environment

    Built-ins that the source calls and that live in the JavaScript
    runtime: locale-aware string functions, date parsing, the texts of
    numbers and dates, the wall clock, the random source and the
    browser's [localStorage].  The clock and the random source are read
    in sequence; the n-th read of the environment yields [isoNow n] for
    [new Date().toISOString()] and [entropy n] for the text
    [Date.now() + '-' + Math.random().toString(36).substr(2, 9)].
    [localStorage] is [None] when the storage manager found it
    unavailable; otherwise it tells whether [setItem], called after [n]
    reads of the environment with the JSON text of the given task data,
    succeeds (it throws when the quota is exceeded). *)

Class Host : Type := {
  toLowerCase : jsstring -> jsstring;
  localeCompare : jsstring -> jsstring -> Z;
  getTime : JsVal -> option Z;  (* new Date(v).getTime(), None for NaN *)
  numberToString : Z -> jsstring;             (* String(n) *)
  dateToString : option jsstring -> jsstring; (* String(date), in local time *)
  isoNow : nat -> jsstring;
  entropy : nat -> jsstring;
  localStorage : option (nat -> list Task.t -> bool);
  isoNow_nonempty : forall n, isoNow n <> []
}.

(** ** Collection manager state, events, and the world *)

Module TaskManager.
Record t : Type := mk {
  tasks : list Task.t;
  nextId : Z;
  filter : jsstring;
  searchQuery : jsstring;
  sortBy : jsstring;
  sortOrder : jsstring
}.

Definition set_tasks v m := mk v (nextId m) (filter m) (searchQuery m) (sortBy m) (sortOrder m).
Definition set_filter v m := mk (tasks m) (nextId m) v (searchQuery m) (sortBy m) (sortOrder m).
Definition set_searchQuery v m := mk (tasks m) (nextId m) (filter m) v (sortBy m) (sortOrder m).
Definition set_sortBy v m := mk (tasks m) (nextId m) (filter m) (searchQuery m) v (sortOrder m).
Definition set_sortOrder v m := mk (tasks m) (nextId m) (filter m) (searchQuery m) (sortBy m) v.
End TaskManager.

(** [CustomEvent]s, by name, with the [detail] each carries. *)
Inductive Event : Type :=
| taskAdded (task : Task.t)
| taskRemoved (task : Task.t)
| taskUpdated (task oldTask : Task.t)
| tasksChanged
| filterChanged (filter : jsstring)
| searchChanged (query : jsstring)
| sortingChanged (sortBy sortOrder : jsstring)
| completedCleared (count : nat)
| tasksReset
| tasksImported (count : nat) (merge : bool) (total : nat)
| tasksLoaded (count : nat).

Record World : Type := mkWorld {
  manager : TaskManager.t;
  stored : list Task.t;     (* the task list the storage manager holds *)
  dispatched : list Event;  (* events dispatched so far, oldest first *)
  reads : nat               (* reads of the environment so far *)
}.

Definition M (A : Type) : Type := World -> Outcome A * World.

#[global] Instance M_ret : MRet M := fun A a w => (Ret a, w).

#[global] Instance M_bind : MBind M := fun A B k m w =>
  match m w with
  | (Ret a, w') => k a w'
  | (Throw e, w') => (Throw e, w')
  end.

Definition throw {A} (e : Exn) : M A := fun w => (Throw e, w).

(** [try { m } catch (error) { h error }] *)
Definition try_catch {A} (m : M A) (h : Exn -> M A) : M A := fun w =>
  match m w with
  | (Throw e, w') => h e w'
  | r => r
  end.

Definition lift {A} (o : Outcome A) : M A := fun w => (o, w).

Definition this_manager : M TaskManager.t := fun w => (Ret (manager w), w).

Definition modify_manager (f : TaskManager.t -> TaskManager.t) : M unit :=
  fun w => (Ret tt, mkWorld (f (manager w)) (stored w) (dispatched w) (reads w)).

Definition this_tasks : M (list Task.t) :=
  m ← this_manager; mret (TaskManager.tasks m).

Definition set_this_tasks (l : list Task.t) : M unit :=
  modify_manager (TaskManager.set_tasks l).

(** [this.dispatchEvent(new CustomEvent(...))].  The listeners belong to
    the presentation layer; the world records the event. *)
Definition dispatchEvent (e : Event) : M unit :=
  fun w => (Ret tt, mkWorld (manager w) (stored w) (dispatched w ++ [e]) (reads w)).

Definition tick (w : World) : World :=
  mkWorld (manager w) (stored w) (dispatched w) (S (reads w)).

(** [for (x of l) body(x)], stopping at the first exception. *)
Fixpoint forEach {A} (body : A -> M unit) (l : list A) : M unit :=
  match l with
  | [] => mret tt
  | x :: l' => body x;; forEach body l'
  end.

(** [l.map(f)] for an [f] that may throw. *)
Fixpoint mapM {A B} (f : A -> M B) (l : list A) : M (list B) :=
  match l with
  | [] => mret []
  | x :: l' => y ← f x; ys ← mapM f l'; mret (y :: ys)
  end.

Section TaskEntity.
Context {host : Host}.

(** [new Date().toISOString()] *)
Definition now : M JsVal := fun w => (Ret (JStr (isoNow (reads w))), tick w).

(** [generateId()] *)
Definition generateId : M JsVal :=
  fun w => (Ret (JStr (js "task-" ++ entropy (reads w))), tick w).

(** [a || m], where [m] is evaluated only when [a] is falsy. *)
Definition or_else (a : JsVal) (m : M JsVal) : M JsVal :=
  if truthy a then mret a else m.

(** [v.trim()]; a value without a [trim] method raises [TypeError]. *)
Definition call_trim (v : JsVal) : M jsstring :=
  match v with
  | JStr s => mret (trim s)
  | _ => throw TypeError
  end.

(** [new Task(text, options)] *)
Definition new_Task (text : JsVal) (options : Task.t) : M Task.t :=
  id ← or_else (Task.id options) generateId;
  text' ← call_trim text;
  let completed := js_or (Task.completed options) (JBool false) in
  createdAt ← or_else (Task.createdAt options) now;
  let completedAt := js_or (Task.completedAt options) JNull in
  updatedAt ← or_else (Task.updatedAt options) now;
  let priority := js_or (Task.priority options) (JStr (js "normal")) in
  let category := js_or (Task.category options) (JStr (js "default")) in
  let tags := js_or (Task.tags options) (JArr []) in
  let dueDate := js_or (Task.dueDate options) JNull in
  let description := js_or (Task.description options) (JStr []) in
  mret (Task.mk id (JStr text') completed createdAt completedAt updatedAt
                priority category tags dueDate description).

(** [toggle()].  The methods of the entity mutate [this]; here they take
    the task and return it updated, with the method's result. *)
Definition toggle (this : Task.t) : M Task.t :=
  let this := Task.set_completed (js_not (Task.completed this)) this in
  completedAt ← (if truthy (Task.completed this) then now else mret JNull);
  let this := Task.set_completedAt completedAt this in
  updatedAt ← now;
  mret (Task.set_updatedAt updatedAt this).

(** [updateText(newText)] *)
Definition updateText (newText : JsVal) (this : Task.t) : M (Task.t * bool) :=
  match newText with
  | JStr s =>
      if truthy (JStr (trim s)) then
        let this := Task.set_text (JStr (trim s)) this in
        updatedAt ← now;
        mret (Task.set_updatedAt updatedAt this, true)
      else mret (this, false)
  | _ => mret (this, false)
  end.

(** [setPriority(priority)] *)
Definition setPriority (priority : JsVal) (this : Task.t) : M (Task.t * bool) :=
  let validPriorities := [JStr (js "low"); JStr (js "normal"); JStr (js "high")] in
  if arr_includes validPriorities priority then
    let this := Task.set_priority priority this in
    updatedAt ← now;
    mret (Task.set_updatedAt updatedAt this, true)
  else mret (this, false).

(** [setDueDate(date)] *)
Definition setDueDate (date : JsVal) (this : Task.t) : M (Task.t * bool) :=
  match date with
  | JDate (Some iso) =>
      let this := Task.set_dueDate (JStr iso) this in
      updatedAt ← now;
      mret (Task.set_updatedAt updatedAt this, true)
  | JDate None => throw RangeError   (* toISOString of an invalid Date *)
  | JStr (_ :: _) =>
      let this := Task.set_dueDate date this in
      updatedAt ← now;
      mret (Task.set_updatedAt updatedAt this, true)
  | JNull =>
      let this := Task.set_dueDate JNull this in
      updatedAt ← now;
      mret (Task.set_updatedAt updatedAt this, true)
  | _ => mret (this, false)
  end.

(** [tag.trim().toLowerCase()] *)
Definition normalizeTag (tag : JsVal) : M jsstring :=
  s ← call_trim tag; mret (toLowerCase s).

(** [addTag(tag)].  [this.tags] is an array in every task the manager
    builds from array data; a string in its place answers [includes] too
    but has no [push]. *)
Definition addTag (tag : JsVal) (this : Task.t) : M (Task.t * bool) :=
  tagStr ← normalizeTag tag;
  if negb (truthy (JStr tagStr)) then mret (this, false) else
  match Task.tags this with
  | JArr l =>
      if arr_includes l (JStr tagStr) then mret (this, false) else
      let this := Task.set_tags (JArr (l ++ [JStr tagStr])) this in
      updatedAt ← now;
      mret (Task.set_updatedAt updatedAt this, true)
  | JStr s =>
      if str_includes s tagStr then mret (this, false) else throw TypeError
  | _ => throw TypeError
  end.

(** [removeTag(tag)] *)
Definition removeTag (tag : JsVal) (this : Task.t) : M (Task.t * bool) :=
  tagStr ← normalizeTag tag;
  match Task.tags this with
  | JArr l =>
      match arr_indexOf l (JStr tagStr) with
      | Some index =>
          let this := Task.set_tags (JArr (delete index l)) this in
          updatedAt ← now;
          mret (Task.set_updatedAt updatedAt this, true)
      | None => mret (this, false)
      end
  | JStr s =>
      if str_includes s tagStr then throw TypeError else mret (this, false)
  | _ => throw TypeError
  end.

End TaskEntity.

(** ** Serialization *)

(** ** The storage manager

    [saveTasks] wraps the list in an object stamped with
    [new Date().toISOString()] and [Date.now()], two reads of the clock,
    and keeps it: as JSON text in [localStorage] when that is available,
    else as the object itself.  [loadTasks] hands back the list of what
    is kept, parsed from the text in the first case.  Both catch their
    own failures; [saveTasks] reports [false] when [setItem] threw. *)

Section Storage.
Context {host : Host}.

Definition storage_saveTasks (tasks : list Task.t) : M bool := fun w =>
  let w := tick (tick w) in
  match localStorage with
  | Some setItem =>
      if setItem (reads w) tasks
      then (Ret true,
            mkWorld (manager w) (List.map jsonTask tasks) (dispatched w) (reads w))
      else (Ret false, w)
  | None => (Ret true, mkWorld (manager w) tasks (dispatched w) (reads w))
  end.

Definition storage_loadTasks : M (list Task.t) := fun w => (Ret (stored w), w).

End Storage.

#[global] Instance Outcome_ret : MRet Outcome := fun A a => Ret a.

#[global] Instance Outcome_bind : MBind Outcome := fun A B k o =>
  match o with
  | Ret a => k a
  | Throw e => Throw e
  end.

Definition isHighSurrogate (c : N) : bool := (55296 <=? c)%N && (c <=? 56319)%N.
Definition isLowSurrogate (c : N) : bool := (56320 <=? c)%N && (c <=? 57343)%N.

(** The strings a string yields when iterated: one per code point. *)
Fixpoint codePoints (s : jsstring) : list jsstring :=
  match s with
  | [] => []
  | c :: s' =>
      match s' with
      | d :: s'' =>
          if isHighSurrogate c && isLowSurrogate d
          then [c; d] :: codePoints s''
          else [c] :: codePoints s'
      | [] => [[c]]
      end
  end.

(** [[...v]] *)
Definition spread (v : JsVal) : Outcome JsVal :=
  match v with
  | JArr l => Ret (JArr l)
  | JStr s => Ret (JArr (List.map JStr (codePoints s)))
  | _ => Throw TypeError
  end.

(** [toJSON()] *)
Definition toJSON (this : Task.t) : Outcome Task.t :=
  tags ← spread (Task.tags this);
  mret (Task.mk (Task.id this) (Task.text this) (Task.completed this)
                (Task.createdAt this) (Task.completedAt this)
                (Task.updatedAt this) (Task.priority this)
                (Task.category this) tags (Task.dueDate this)
                (Task.description this)).

Section Manager.
Context {host : Host}.

(** [Task.fromJSON(data)] *)
Definition fromJSON (data : Task.t) : M Task.t :=
  new_Task (Task.text data)
    (Task.mk (Task.id data) JUndefined (Task.completed data)
             (Task.createdAt data) (Task.completedAt data)
             (Task.updatedAt data) (Task.priority data)
             (Task.category data) (Task.tags data) (Task.dueDate data)
             (Task.description data)).

(** ** The collection manager *)

Fixpoint findIndex {A} (p : A -> bool) (l : list A) : option nat :=
  match l with
  | [] => None
  | x :: l' => if p x then Some 0%nat else option_map S (findIndex p l')
  end.

Definition has_id (taskId : JsVal) (task : Task.t) : bool :=
  strict_eq (Task.id task) taskId.

(** [saveTasks()] *)
Definition saveTasks : M unit :=
  tasks ← this_tasks;
  taskData ← mapM (fun task => lift (toJSON task)) tasks;
  storage_saveTasks taskData;;
  mret tt.

(** [addTask(text, options)] *)
Definition addTask (text : JsVal) (options : Task.t) : M Task.t :=
  let empty_after_trim :=
    match text with JStr s => negb (truthy (JStr (trim s))) | _ => true end in
  if negb (truthy text) || negb (is_string text) || empty_after_trim
  then throw (Error TaskTextEmpty)
  else
    task ← new_Task text options;
    tasks ← this_tasks;
    set_this_tasks (task :: tasks);;
    saveTasks;;
    dispatchEvent (taskAdded task);;
    dispatchEvent tasksChanged;;
    mret task.

(** [removeTask(taskId)] *)
Definition removeTask (taskId : JsVal) : M Task.t :=
  tasks ← this_tasks;
  match findIndex (has_id taskId) tasks with
  | None => throw (Error TaskNotFound)
  | Some index =>
      match tasks !! index with
      | None => throw TypeError  (* not reached: the index is one of the array *)
      | Some task =>
          set_this_tasks (delete index tasks);;
          saveTasks;;
          dispatchEvent (taskRemoved task);;
          dispatchEvent tasksChanged;;
          mret task
      end
  end.

(** The task object an operation works on stays at its index in
    [this.tasks] while the operation mutates it; the index comes from
    [findIndex], so the lookup finds a task. *)
Definition task_at (index : nat) : M Task.t :=
  tasks ← this_tasks;
  match tasks !! index with
  | Some task => mret task
  | None => throw TypeError
  end.

Definition mutate_at {R} (index : nat) (method : Task.t -> M (Task.t * R)) : M R :=
  task ← task_at index;
  r ← method task;
  tasks ← this_tasks;
  set_this_tasks (<[index := r.1]> tasks);;
  mret r.2.

(** [task[key] = value] when [task.hasOwnProperty(key)] *)
Definition assign (key : jsstring) (value : JsVal) (task : Task.t) : option Task.t :=
  if str_eqb key (js "id") then Some (Task.set_id value task)
  else if str_eqb key (js "text") then Some (Task.set_text value task)
  else if str_eqb key (js "completed") then Some (Task.set_completed value task)
  else if str_eqb key (js "createdAt") then Some (Task.set_createdAt value task)
  else if str_eqb key (js "completedAt") then Some (Task.set_completedAt value task)
  else if str_eqb key (js "updatedAt") then Some (Task.set_updatedAt value task)
  else if str_eqb key (js "priority") then Some (Task.set_priority value task)
  else if str_eqb key (js "category") then Some (Task.set_category value task)
  else if str_eqb key (js "tags") then Some (Task.set_tags value task)
  else if str_eqb key (js "dueDate") then Some (Task.set_dueDate value task)
  else if str_eqb key (js "description") then Some (Task.set_description value task)
  else None.

(** The body of the [forEach] over [Object.keys(updates)]. *)
Definition applyUpdate (index : nat) (entry : jsstring * JsVal) : M unit :=
  let '(key, value) := entry in
  if str_eqb key (js "text") && truthy value then
    mutate_at index (updateText value);; mret tt
  else if str_eqb key (js "priority") then
    mutate_at index (setPriority value);; mret tt
  else if str_eqb key (js "dueDate") then
    mutate_at index (setDueDate value);; mret tt
  else if str_eqb key (js "completed") then
    task ← task_at index;
    if negb (strict_eq value (Task.completed task))
    then mutate_at index (fun t => t' ← toggle t; mret (t', tt))
    else mret tt
  else
    task ← task_at index;
    match assign key value task with
    | Some task' =>
        mutate_at index (fun _ =>
          updatedAt ← now; mret (Task.set_updatedAt updatedAt task', tt))
    | None => mret tt
    end.

(** [updateTask(taskId, updates)]; [updates] is the object's entries in
    the order of [Object.keys]. *)
Definition updateTask (taskId : JsVal) (updates : list (jsstring * JsVal)) : M Task.t :=
  tasks ← this_tasks;
  match findIndex (has_id taskId) tasks with
  | None => throw (Error TaskNotFound)
  | Some index =>
      oldTask ← task_at index;
      forEach (applyUpdate index) updates;;
      saveTasks;;
      task ← task_at index;
      dispatchEvent (taskUpdated task oldTask);;
      dispatchEvent tasksChanged;;
      mret task
  end.

(** [getTask(taskId)] *)
Definition getTask (taskId : JsVal) : M Task.t :=
  tasks ← this_tasks;
  match List.find (has_id taskId) tasks with
  | Some task => mret task
  | None => throw (Error TaskNotFound)
  end.

(** [toggleTask(taskId)] *)
Definition toggleTask (taskId : JsVal) : M Task.t :=
  task ← getTask taskId;
  updateTask taskId [(js "completed", js_not (Task.completed task))].

(** [getAllTasks()] *)
Definition getAllTasks : M (list Task.t) := this_tasks.

(** *** The derived view *)

(** The [switch (this.filter)] of [getFilteredTasks]. *)
Definition statusFilter (filter : jsstring) (l : list Task.t) : list Task.t :=
  if str_eqb filter (js "active") then
    List.filter (fun task => negb (truthy (Task.completed task))) l
  else if str_eqb filter (js "completed") then
    List.filter (fun task => truthy (Task.completed task)) l
  else l.

(** [l.filter(p)] and [l.some(p)] for a callback that may throw. *)
Fixpoint filterO {A} (p : A -> Outcome bool) (l : list A) : Outcome (list A) :=
  match l with
  | [] => Ret []
  | x :: l' =>
      b ← p x; rest ← filterO p l'; mret (if b : bool then x :: rest else rest)
  end.

Fixpoint someO {A} (p : A -> Outcome bool) (l : list A) : Outcome bool :=
  match l with
  | [] => Ret false
  | x :: l' => b ← p x; if b : bool then Ret true else someO p l'
  end.

(** [v.toLowerCase().includes(query)] *)
Definition lower_includes (v : JsVal) (query : jsstring) : Outcome bool :=
  match v with
  | JStr s => Ret (str_includes (toLowerCase s) query)
  | _ => Throw TypeError
  end.

(** [tag.includes(query)] *)
Definition tag_includes (query : jsstring) (tag : JsVal) : Outcome bool :=
  match tag with
  | JStr s => Ret (str_includes s query)
  | JArr l => Ret (arr_includes l (JStr query))
  | _ => Throw TypeError
  end.

(** The callback of the search filter. *)
Definition matchesQuery (query : jsstring) (task : Task.t) : Outcome bool :=
  inText ← lower_includes (Task.text task) query;
  if inText : bool then Ret true else
  inDescription ← lower_includes (Task.description task) query;
  if inDescription : bool then Ret true else
  match Task.tags task with
  | JArr l => someO (tag_includes query) l
  | _ => Throw TypeError
  end.

Definition searchFilter (searchQuery : jsstring) (l : list Task.t) : Outcome (list Task.t) :=
  if truthy (JStr searchQuery)
  then filterO (matchesQuery (toLowerCase searchQuery)) l
  else Ret l.

(** The values the comparator computes for a task: a number, NaN, or a
    string. *)
Inductive SortKey : Type :=
| KNum (z : Z)
| KNaN
| KStr (s : jsstring).

(** [String(v)]; an array joins the texts of its elements with commas,
    [null] and [undefined] elements giving the empty text. *)
Fixpoint joinWith (separator : jsstring) (l : list jsstring) : jsstring :=
  match l with
  | [] => []
  | [s] => s
  | s :: l' => s ++ separator ++ joinWith separator l'
  end.

Fixpoint toString (v : JsVal) : jsstring :=
  match v with
  | JUndefined => js "undefined"
  | JNull => js "null"
  | JBool b => if b then js "true" else js "false"
  | JNum n => numberToString n
  | JStr s => s
  | JDate d => dateToString d
  | JArr elems =>
      joinWith (js ",")
        (List.map (fun x => match x with
                            | JUndefined | JNull => []
                            | _ => toString x
                            end) elems)
  end.

(** The names an object literal inherits from [Object.prototype]; each
    holds a function or an object. *)
Definition inheritedNames : list jsstring :=
  [js "constructor"; js "hasOwnProperty"; js "isPrototypeOf";
   js "propertyIsEnumerable"; js "toLocaleString"; js "toString"; js "valueOf";
   js "__proto__"; js "__defineGetter__"; js "__defineSetter__";
   js "__lookupGetter__"; js "__lookupSetter__"].

(** [priorityOrder[p] || 2], as the subtraction of the comparator reads
    it: the number of an own property of the literal, NaN for an
    inherited member, and 2 when the literal has no property under the
    key. *)
Definition priorityRank (p : JsVal) : SortKey :=
  let key := toString p in
  if str_eqb key (js "high") then KNum 3
  else if str_eqb key (js "normal") then KNum 2
  else if str_eqb key (js "low") then KNum 1
  else if existsb (str_eqb key) inheritedNames then KNaN
  else KNum 2.

Definition dateKey (v : JsVal) : SortKey :=
  match getTime v with
  | Some ms => KNum ms
  | None => KNaN
  end.

(** The [switch (this.sortBy)] of the comparator. *)
Definition sortKey (sortBy : jsstring) (task : Task.t) : Outcome SortKey :=
  if str_eqb sortBy (js "priority") then Ret (priorityRank (Task.priority task))
  else if str_eqb sortBy (js "text") then
    match Task.text task with
    | JStr s => Ret (KStr (toLowerCase s))
    | _ => Throw TypeError
    end
  else if str_eqb sortBy (js "updatedAt") then Ret (dateKey (Task.updatedAt task))
  else Ret (dateKey (Task.createdAt task)).

(** The comparator's result on two computed values; a NaN result orders
    the pair as equal. *)
Definition compareKeys (sortOrder : jsstring) (aVal bVal : SortKey) : Z :=
  let asc := str_eqb sortOrder (js "asc") in
  match aVal, bVal with
  | KStr a, KStr b => if asc then localeCompare a b else localeCompare b a
  | KNum a, KNum b => if asc then a - b else b - a
  | _, _ => 0
  end.

(** [Array.prototype.sort] is stable; insertion from the right keeps the
    earlier of two elements that compare equal in front. *)
Fixpoint insertBy {A} (cmp : A -> A -> Z) (x : A) (l : list A) : list A :=
  match l with
  | [] => [x]
  | y :: l' => if cmp x y <=? 0 then x :: l else y :: insertBy cmp x l'
  end.

Definition stableSort {A} (cmp : A -> A -> Z) (l : list A) : list A :=
  foldr (insertBy cmp) [] l.

Fixpoint mapO {A B} (f : A -> Outcome B) (l : list A) : Outcome (list B) :=
  match l with
  | [] => Ret []
  | x :: l' => y ← f x; ys ← mapO f l'; mret (y :: ys)
  end.

(** [filtered.sort(comparator)].  With fewer than two elements the
    comparator is not called; otherwise it sees every element, and the
    call throws if the comparator throws on one. *)
Definition sortTasks (sortBy sortOrder : jsstring) (l : list Task.t) : Outcome (list Task.t) :=
  match l with
  | [] | [_] => Ret l
  | _ =>
      keyed ← mapO (fun task => k ← sortKey sortBy task; mret (k, task)) l;
      mret (List.map snd
              (stableSort (fun a b => compareKeys sortOrder (fst a) (fst b)) keyed))
  end.

(** [getFilteredTasks()] *)
Definition getFilteredTasks : M (list Task.t) :=
  m ← this_manager;
  let filtered := statusFilter (TaskManager.filter m) (TaskManager.tasks m) in
  filtered ← lift (searchFilter (TaskManager.searchQuery m) filtered);
  lift (sortTasks (TaskManager.sortBy m) (TaskManager.sortOrder m) filtered).

(** [setFilter(filter)] *)
Definition setFilter (filter : JsVal) : M bool :=
  let validFilters := [JStr (js "all"); JStr (js "active"); JStr (js "completed")] in
  match filter with
  | JStr f =>
      if arr_includes validFilters filter then
        modify_manager (TaskManager.set_filter f);;
        dispatchEvent (filterChanged f);;
        mret true
      else mret false
  | _ => mret false
  end.

(** [setSearchQuery(query)] *)
Definition setSearchQuery (query : JsVal) : M unit :=
  q ← call_trim query;
  modify_manager (TaskManager.set_searchQuery q);;
  dispatchEvent (searchChanged q).

(** [setSorting(sortBy, sortOrder = 'desc')]; an omitted second argument
    is [JUndefined]. *)
Definition setSorting (sortBy sortOrder : JsVal) : M unit :=
  let sortOrder := match sortOrder with JUndefined => JStr (js "desc") | v => v end in
  let validSortBy :=
    [JStr (js "createdAt"); JStr (js "updatedAt"); JStr (js "priority"); JStr (js "text")] in
  let validSortOrder := [JStr (js "asc"); JStr (js "desc")] in
  match sortBy with
  | JStr by_ =>
      if arr_includes validSortBy sortBy
      then modify_manager (TaskManager.set_sortBy by_) else mret tt
  | _ => mret tt
  end;;
  match sortOrder with
  | JStr order =>
      if arr_includes validSortOrder sortOrder
      then modify_manager (TaskManager.set_sortOrder order) else mret tt
  | _ => mret tt
  end;;
  m ← this_manager;
  dispatchEvent (sortingChanged (TaskManager.sortBy m) (TaskManager.sortOrder m)).

(** *** Bulk operations *)

(** [bulkComplete(taskIds)]; the pushed [task] is the object
    [toggleTask] has just mutated. *)
Fixpoint bulkComplete (taskIds : list JsVal) : M (list Task.t) :=
  match taskIds with
  | [] => mret []
  | taskId :: rest =>
      pushed ← try_catch
        (task ← getTask taskId;
         if negb (truthy (Task.completed task))
         then task' ← toggleTask taskId; mret [task']
         else mret [])
        (fun _ => mret []);
      others ← bulkComplete rest;
      mret (pushed ++ others)
  end.

(** [bulkDelete(taskIds)] *)
Fixpoint bulkDelete (taskIds : list JsVal) : M (list Task.t) :=
  match taskIds with
  | [] => mret []
  | taskId :: rest =>
      pushed ← try_catch
        (task ← removeTask taskId; mret [task])
        (fun _ => mret []);
      others ← bulkDelete rest;
      mret (pushed ++ others)
  end.

(** [clearCompleted()] *)
Definition clearCompleted : M (list Task.t) :=
  tasks ← this_tasks;
  let completedTasks := List.filter (fun task => truthy (Task.completed task)) tasks in
  set_this_tasks (List.filter (fun task => negb (truthy (Task.completed task))) tasks);;
  saveTasks;;
  dispatchEvent (completedCleared (length completedTasks));;
  dispatchEvent tasksChanged;;
  mret completedTasks.

(** [reset()] *)
Definition reset : M unit :=
  m ← this_manager;
  modify_manager (fun _ =>
    TaskManager.mk [] (TaskManager.nextId m) (js "all") [] (js "createdAt") (js "desc"));;
  saveTasks;;
  dispatchEvent tasksReset;;
  dispatchEvent tasksChanged.

(** The argument of [importTasks]: an array of plain objects, or anything
    else. *)
Inductive ImportData : Type :=
| NotArray
| ArrayOf (elems : list Task.t).

(** [importTasks(tasksData, merge = false)]; its [catch] logs and
    rethrows. *)
Definition importTasks (tasksData : ImportData) (merge : bool) : M bool :=
  match tasksData with
  | NotArray => throw (Error ImportFormatInvalid)
  | ArrayOf elems =>
      importedTasks ← mapM fromJSON elems;
      tasks ← this_tasks;
      (if merge then
         let existing := fun t => existsb (has_id (Task.id t)) tasks in
         let newTasks := List.filter (fun t => negb (existing t)) importedTasks in
         set_this_tasks (tasks ++ newTasks)
       else set_this_tasks importedTasks);;
      saveTasks;;
      tasks' ← this_tasks;
      dispatchEvent (tasksImported (length importedTasks) merge (length tasks'));;
      dispatchEvent tasksChanged;;
      mret true
  end.

(** [loadTasks()] *)
Definition loadTasks : M unit :=
  try_catch
    (taskData ← storage_loadTasks;
     tasks ← mapM fromJSON taskData;
     set_this_tasks tasks;;
     dispatchEvent (tasksLoaded (length tasks));;
     dispatchEvent tasksChanged)
    (fun _ => set_this_tasks []).

(** [new TaskManager()], over the given contents of the storage. *)
Definition new_TaskManager (storage : list Task.t) : World :=
  let this := TaskManager.mk [] 1 (js "all") [] (js "createdAt") (js "desc") in
  snd (loadTasks (mkWorld this storage [] 0)).

End Manager.

(** ** Vocabulary of the properties *)

(** Values [[...v]] accepts; [toJSON] returns for a task whose [tags] is
    one of them, and [saveTasks] returns for a collection of such tasks. *)
Definition iterable (v : JsVal) : bool :=
  match v with
  | JArr _ | JStr _ => true
  | _ => false
  end.

Definition storable (l : list Task.t) : bool :=
  forallb (fun task => iterable (Task.tags task)) l.

(** What the storage manager holds after [saveTasks(taskData)] whose
    [setItem] came after [n] reads of the environment, when it held
    [held] before: the data as JSON gives it back, the data itself when
    kept in memory, or [held] when [setItem] threw. *)
Definition persisted {host : Host} (n : nat) (taskData held : list Task.t) : list Task.t :=
  match localStorage with
  | Some setItem => if setItem n taskData then List.map jsonTask taskData else held
  | None => taskData
  end.

(** Whether the storage manager keeps the data of a [saveTasks] whose
    [setItem] comes after [n] reads of the environment. *)
Definition storage_keeps {host : Host} (n : nat) (taskData : list Task.t) : bool :=
  match localStorage with
  | Some setItem => setItem n taskData
  | None => true
  end.

(** A value that JSON gives back as it is: not a [Date], and an array
    only of such values other than [undefined]. *)
Fixpoint json_exact (v : JsVal) : bool :=
  match v with
  | JDate _ => false
  | JArr elems =>
      forallb (fun x => match x with
                        | JUndefined => false
                        | _ => json_exact x
                        end) elems
  | _ => true
  end.

Definition json_exact_task (task : Task.t) : bool :=
  json_exact (Task.id task) && json_exact (Task.text task) &&
  json_exact (Task.completed task) && json_exact (Task.createdAt task) &&
  json_exact (Task.completedAt task) && json_exact (Task.updatedAt task) &&
  json_exact (Task.priority task) && json_exact (Task.category task) &&
  json_exact (Task.tags task) && json_exact (Task.dueDate task) &&
  json_exact (Task.description task).

(** The four fields of the manager that shape the derived view. *)
Definition viewSettings (w : World) : jsstring * jsstring * jsstring * jsstring :=
  let m := manager w in
  (TaskManager.filter m, TaskManager.searchQuery m,
   TaskManager.sortBy m, TaskManager.sortOrder m).

Definition collection (w : World) : list Task.t := TaskManager.tasks (manager w).

(** [completedAt] is non-null exactly when [completed] is [true]. *)
Definition completion_consistent (task : Task.t) : Prop :=
  Task.completedAt task <> JNull <-> Task.completed task = JBool true.

(** [text] is a non-empty string. *)
Definition has_text (task : Task.t) : bool :=
  match Task.text task with
  | JStr (_ :: _) => true
  | _ => false
  end.

(** The shape of a task that [fromJSON] rebuilds field for field from its
    [toJSON]: every property that the constructor defaults with [||] is
    truthy or already equal to the default, [text] is a trimmed string and
    [tags] an array. *)
Definition truthy_or (default v : JsVal) : Prop :=
  truthy v = true \/ v = default.

Definition survives_roundtrip (task : Task.t) : Prop :=
  truthy (Task.id task) = true /\
  (exists s, Task.text task = JStr s /\ trim s = s) /\
  truthy_or (JBool false) (Task.completed task) /\
  truthy (Task.createdAt task) = true /\
  truthy_or JNull (Task.completedAt task) /\
  truthy (Task.updatedAt task) = true /\
  truthy (Task.priority task) = true /\
  truthy (Task.category task) = true /\
  (exists l, Task.tags task = JArr l) /\
  truthy_or JNull (Task.dueDate task) /\
  truthy_or (JStr []) (Task.description task).

(** [filter]/[sortBy]/[sortOrder] arguments that the setters accept. *)
Definition validFilter (v : JsVal) : bool :=
  arr_includes [JStr (js "all"); JStr (js "active"); JStr (js "completed")] v.

Definition validSortBy (v : JsVal) : bool :=
  arr_includes
    [JStr (js "createdAt"); JStr (js "updatedAt"); JStr (js "priority"); JStr (js "text")] v.

Definition validSortOrder (v : JsVal) : bool :=
  arr_includes [JStr (js "asc"); JStr (js "desc")] v.

(** The string a valid argument stores, the old value otherwise. *)
Definition accepted (valid : JsVal -> bool) (v : JsVal) (old : jsstring) : jsstring :=
  match v with
  | JStr s => if valid v then s else old
  | _ => old
  end.

(** ** A concrete host, for running the model on examples

    ASCII lower-casing, comparison by code units, no date parsing,
    numbers in decimal, a clock that shows the number of the read in its
    milliseconds, and a [localStorage] that accepts every write. *)

Definition asciiLower (c : N) : N :=
  if ((65 <=? c) && (c <=? 90))%N then (c + 32)%N else c.

Fixpoint compareUnits (a b : jsstring) : Z :=
  match a, b with
  | [], [] => 0
  | [], _ :: _ => -1
  | _ :: _, [] => 1
  | x :: a', y :: b' =>
      match (x ?= y)%N with
      | Lt => -1
      | Gt => 1
      | Eq => compareUnits a' b'
      end
  end.

Definition digit (n : nat) : N := (48 + N.of_nat (n mod 10))%N.

Definition sampleClock (n : nat) : jsstring :=
  js "2024-05-01T10:00:00." ++ [digit (n / 100); digit (n / 10); digit n] ++ js "Z".

Definition sampleHost : Host.
Proof.
  refine {| toLowerCase := List.map asciiLower;
            localeCompare := compareUnits;
            getTime := fun _ => None;
            numberToString := fun n => js (NilZero.string_of_int (Z.to_int n));
            dateToString := fun d => default (js "Invalid Date") d;
            isoNow := sampleClock;
            entropy := fun n => js "1714557600000-k3x9q2m1" ++ [digit n];
            localStorage := Some (fun _ _ => true) |}.
  intros n. discriminate.
Defined.


(** A manager just constructed over an empty storage. *)
Definition freshWorld : World := new_TaskManager (host := sampleHost) [].

(** The worlds of the examples: one task added; a task added with the
    [completed] override; the first world after its task's category was
    cleared through [updateTask]. *)
Definition milkWorld : World :=
  snd (addTask (host := sampleHost) (JStr (js " Buy milk ")) Task.empty freshWorld).

Definition milkId : JsVal := JStr (js "task-1714557600000-k3x9q2m10").




Definition uncategorizedWorld : World :=
  snd (updateTask (host := sampleHost) milkId [(js "category", JStr [])] milkWorld).

(** The first task of a world's collection, [Task.empty] in an empty one. *)
Definition firstTask (w : World) : Task.t := List.hd Task.empty (collection w).

(** Two tasks agree on [completed] and [completedAt]. *)
Definition same_completion (a b : Task.t) : Prop :=
  Task.completed a = Task.completed b /\ Task.completedAt a = Task.completedAt b.

(** A computation leaves an observation of the world as it was, whatever
    its outcome. *)
Definition preserves {A X} (observe : World -> X) (m : M A) : Prop :=
  forall w, observe (snd (m w)) = observe w.

(** A mutator returns the task with [completed], [completedAt],
    [id] untouched, and change [text] only to a non-empty string. *)
Definition keeps_core (this this' : Task.t) : Prop :=
  same_completion this' this /\
  Task.id this' = Task.id this /\
  (has_text this = true -> has_text this' = true).

(** The [sortOrder] argument after its default ['desc'] is filled in. *)
Definition suppliedOrder (sortOrder : JsVal) : JsVal :=
  match sortOrder with
  | JUndefined => JStr (js "desc")
  | v => v
  end.

(** The tasks of [imported] that merge mode appends to [existing]. *)
Definition newcomers (existing imported : list Task.t) : list Task.t :=
  List.filter
    (fun t => negb (existsb (has_id (Task.id t)) existing)) imported.

(** A world with two tasks, the second one completed. *)
Definition twoTaskWorld : World :=
  let w := snd (addTask (host := sampleHost) (JStr (js "Call dentist"))
                  (Task.set_priority (JStr (js "high")) Task.empty) milkWorld) in
  snd (toggleTask (host := sampleHost) milkId w).

(** Import data: one element under the id of the task of [milkWorld] with
    another text, and one under a new id. *)
Definition sampleImport : list Task.t :=
  [Task.set_text (JStr (js "Buy oat milk")) (Task.set_id milkId Task.empty);
   Task.set_text (JStr (js "Water plants"))
     (Task.set_id (JStr (js "task-7")) Task.empty)].

(** ** Vocabulary of the completion invariant *)

(** [completed] and [completedAt] as the constructor takes them from
    [options] (or from the plain object handed to [fromJSON]) agree:
    after the defaults [false] and [null], [completedAt] is non-null
    exactly when [completed] is [true]. *)
Definition overrides_consistent (options : Task.t) : Prop :=
  js_or (Task.completedAt options) JNull <> JNull <->
  js_or (Task.completed options) (JBool false) = JBool true.

(** Some entry of [updates] assigns [completedAt]. *)
Definition writes_completedAt (updates : list (jsstring * JsVal)) : bool :=
  existsb (fun entry => str_eqb (fst entry) (js "completedAt")) updates.

(** Every task of the collection has [completedAt] non-null exactly when
    [completed] is [true]. *)
Definition consistent (w : World) : Prop :=
  Forall completion_consistent (collection w).

(** Run from a world whose collection is consistent, [m] leaves a
    consistent collection whether it returns or throws, and what it
    returns satisfies [Q]. *)
Definition keeps_consistent {A} (m : M A) (Q : A -> Prop) : Prop :=
  forall w, consistent w ->
    consistent (snd (m w)) /\ forall a, fst (m w) = Ret a -> Q a.

(** ** Vocabulary of the further properties *)

(** What a setter of the entity reports: on [true] the task was stamped
    with the clock's reading and the clock read once, on [false] neither
    the task nor the world changed. *)
Definition setter_result {host : Host} (this : Task.t) (w : World)
    (this' : Task.t) (ok : bool) (w' : World) : Prop :=
  if ok
  then w' = tick w /\
       Task.updatedAt this' = JStr (isoNow (reads w)) /\
       Task.id this' = Task.id this /\
       Task.createdAt this' = Task.createdAt this
  else this' = this /\ w' = w.

(** [task'] is [task] marked completed: [completed] went from falsy to
    [true], [completedAt] and [updatedAt] were stamped, and no other
    property changed. *)
Definition marked_completed (task task' : Task.t) : Prop :=
  truthy (Task.completed task) = false /\
  exists completedAt updatedAt,
    task' = Task.set_updatedAt (JStr updatedAt)
              (Task.set_completedAt (JStr completedAt)
                 (Task.set_completed (JBool true) task)).

Definition kept_or_completed (task task' : Task.t) : Prop :=
  task' = task \/ marked_completed task task'.

(** [task] is what the constructor rebuilds from the plain object [data]:
    the trimmed text, the id when [data] has a truthy one, and every
    other property defaulted with [||]. *)
Definition rebuilt_from (data task : Task.t) : Prop :=
  (exists s, Task.text data = JStr s /\ Task.text task = JStr (trim s)) /\
  truthy (Task.id task) = true /\
  (truthy (Task.id data) = true -> Task.id task = Task.id data) /\
  Task.completed task = js_or (Task.completed data) (JBool false) /\
  Task.completedAt task = js_or (Task.completedAt data) JNull /\
  Task.priority task = js_or (Task.priority data) (JStr (js "normal")) /\
  Task.category task = js_or (Task.category data) (JStr (js "default")) /\
  Task.tags task = js_or (Task.tags data) (JArr []) /\
  Task.dueDate task = js_or (Task.dueDate data) JNull /\
  Task.description task = js_or (Task.description data) (JStr []).

(** Every element has a string as its [text]. *)
Definition texts_are_strings (elems : list Task.t) : bool :=
  forallb (fun data => is_string (Task.text data)) elems.

(** An entry of [updates] that [updateTask] passes over on [task]: a
    truthy [text] that [updateText] refuses, a [priority] outside the
    three names, a [dueDate] that is neither a date, a non-empty string
    nor [null], a [completed] equal to the current one, or a key that is
    no property of a task. *)
Definition passed_over (task : Task.t) (entry : jsstring * JsVal) : bool :=
  let '(key, value) := entry in
  if str_eqb key (js "text") && truthy value then
    match value with
    | JStr s => negb (truthy (JStr (trim s)))
    | _ => true
    end
  else if str_eqb key (js "priority") then
    negb (arr_includes [JStr (js "low"); JStr (js "normal"); JStr (js "high")] value)
  else if str_eqb key (js "dueDate") then
    match value with
    | JDate _ | JNull | JStr (_ :: _) => false
    | _ => true
    end
  else if str_eqb key (js "completed") then
    strict_eq value (Task.completed task)
  else
    match assign key value task with
    | None => true
    | Some _ => false
    end.

(** ** Queries on dates and statistics

    Two more built-ins of the host: the time value of [new Date()] at
    the n-th read of the environment, and the floating-point expression
    [Math.round((completed / total) * 100)]. *)

Class HostNumbers : Type := {
  dateNow : nat -> Z;
  roundedPercent : Z -> Z -> Z
}.

(** [isOverdue()]: [new Date(this.dueDate) < new Date()] compares the two
    time values, and is false when the due date does not parse. *)
Definition isOverdue {host : Host} {numbers : HostNumbers} (this : Task.t) : M bool :=
  if negb (truthy (Task.dueDate this)) || truthy (Task.completed this)
  then mret false
  else fun w =>
    (Ret (match getTime (Task.dueDate this) with
          | Some due => due <? dateNow (reads w)
          | None => false
          end),
     tick w).

(** [l.filter(p)] for a callback that reads the environment. *)
Fixpoint filterM {A} (p : A -> M bool) (l : list A) : M (list A) :=
  match l with
  | [] => mret []
  | x :: l' =>
      b ← p x; rest ← filterM p l'; mret (if b : bool then x :: rest else rest)
  end.

Module Stats.
Record t : Type := mk {
  total : Z;
  completed : Z;
  active : Z;
  overdue : Z;
  completionRate : Z
}.
End Stats.

(** [getStats()] *)
Definition getStats {host : Host} {numbers : HostNumbers} : M Stats.t :=
  tasks ← this_tasks;
  let total := Z.of_nat (length tasks) in
  let completed :=
    Z.of_nat (length (List.filter (fun task => truthy (Task.completed task)) tasks)) in
  let active := total - completed in
  overdueTasks ← filterM isOverdue tasks;
  let overdue := Z.of_nat (length overdueTasks) in
  mret (Stats.mk total completed active overdue
          (if 0 <? total then roundedPercent completed total else 0)).

(** A clock for the examples: the n-th read is n days after the epoch of
    the example dates; percentages rounded half up on exact quotients. *)
Definition sampleNumbers : HostNumbers :=
  {| dateNow := fun n => Z.of_nat n * 86400000;
     roundedPercent := fun completed total => (200 * completed + total) / (2 * total) |}.

(** ** Reading the derived view *)

(** The order [sortOrder] asks for between the priority ranks of two
    tasks, the first one shown earlier. *)
Definition rank_of {host : Host} (task : Task.t) : Z :=
  match priorityRank (Task.priority task) with
  | KNum rank => rank
  | _ => 2
  end.

(** The comparator reads a number off the task's priority. *)
Definition ranked {host : Host} (task : Task.t) : bool :=
  match priorityRank (Task.priority task) with
  | KNum _ => true
  | _ => false
  end.

Definition rank_ordered {host : Host} (sortOrder : jsstring) (a b : Task.t) : Prop :=
  if str_eqb sortOrder (js "asc") then rank_of a <= rank_of b
  else rank_of b <= rank_of a.

(** The comparator of the sort by priority, on two tasks. *)
Definition compareRanks {host : Host} (sortOrder : jsstring) (a b : Task.t) : Z :=
  compareKeys sortOrder (KNum (rank_of a)) (KNum (rank_of b)).

(** A task that the search and the sort by text can read: [text] and
    [description] are strings and [tags] is an array of strings. *)
Definition viewable (task : Task.t) : bool :=
  is_string (Task.text task) && is_string (Task.description task) &&
  match Task.tags task with
  | JArr l => forallb is_string l
  | _ => false
  end.

Definition string_of (v : JsVal) : jsstring :=
  match v with
  | JStr s => s
  | _ => []
  end.

(** The search criterion on such a task, for a query already in lower
    case: the lower-cased text or description contains it, or one of the
    tags, as it is, contains it. *)
Definition matches {host : Host} (query : jsstring) (task : Task.t) : bool :=
  str_includes (toLowerCase (string_of (Task.text task))) query ||
  str_includes (toLowerCase (string_of (Task.description task))) query ||
  match Task.tags task with
  | JArr l => existsb (fun tag => str_includes (string_of tag) query) l
  | _ => false
  end.

Definition searched {host : Host} (searchQuery : jsstring) (l : list Task.t) : list Task.t :=
  match searchQuery with
  | [] => l
  | _ => List.filter (matches (toLowerCase searchQuery)) l
  end.

(** The notification discipline of an operation run from [before]: a
    returning run has dispatched its own event and then [tasksChanged],
    and nothing else; a throwing run has dispatched nothing. *)
Definition announces {A} (result : Outcome A * World) (before : World)
    (event : A -> World -> Event) : Prop :=
  match result with
  | (Ret a, w') => dispatched w' = dispatched before ++ [event a w'; tasksChanged]
  | (Throw _, w') => dispatched w' = dispatched before
  end.

(** The task [updateTask] snapshots as [oldTask]. *)
Definition found_task (taskId : JsVal) (w : World) : Task.t :=
  default Task.empty (List.find (has_id taskId) (collection w)).

(** A world in which [addTask] has thrown while persisting: the options
    gave a number as [tags]. *)
Definition brokenWorld : World :=
  snd (addTask (host := sampleHost) (JStr (js "Buy milk"))
         (Task.set_tags (JNum 5) Task.empty) freshWorld).

(** * Properties *)

(** * Running the monad *)

Section Run.
Context {host : Host}.

Lemma bind_run {A B} (m : M A) (k : A -> M B) w :
  (m ≫= k) w =
  match m w with
  | (Ret a, w') => k a w'
  | (Throw e, w') => (Throw e, w')
  end.
Proof. reflexivity. Qed.

Lemma ret_run {A} (a : A) (w : World) : (mret a : M A) w = (Ret a, w).
Proof. reflexivity. Qed.

Lemma throw_run {A} e (w : World) : (throw e : M A) w = (Throw e, w).
Proof. reflexivity. Qed.

Lemma lift_run {A} (o : Outcome A) (w : World) : lift o w = (o, w).
Proof. reflexivity. Qed.

Lemma this_manager_run w : this_manager w = (Ret (manager w), w).
Proof. reflexivity. Qed.

Lemma this_tasks_run w : this_tasks w = (Ret (collection w), w).
Proof. reflexivity. Qed.

Lemma getAllTasks_run w : getAllTasks w = (Ret (collection w), w).
Proof. reflexivity. Qed.

Lemma modify_manager_run f w :
  modify_manager f w =
  (Ret tt, mkWorld (f (manager w)) (stored w) (dispatched w) (reads w)).
Proof. reflexivity. Qed.

Lemma set_this_tasks_run l w :
  set_this_tasks l w =
  (Ret tt, mkWorld (TaskManager.set_tasks l (manager w)) (stored w)
                   (dispatched w) (reads w)).
Proof. reflexivity. Qed.

Lemma dispatchEvent_run e w :
  dispatchEvent e w =
  (Ret tt, mkWorld (manager w) (stored w) (dispatched w ++ [e]) (reads w)).
Proof. reflexivity. Qed.

Lemma storage_saveTasks_run d w :
  storage_saveTasks d w =
  (Ret (match localStorage with
        | Some setItem => setItem (S (S (reads w))) d
        | None => true
        end),
   mkWorld (manager w) (persisted (S (S (reads w))) d (stored w))
           (dispatched w) (S (S (reads w)))).
Proof.
  unfold storage_saveTasks, persisted. cbn [tick reads manager stored dispatched].
  destruct localStorage as [setItem|]; [|reflexivity].
  destruct (setItem _ d); reflexivity.
Qed.

Lemma now_run w : now w = (Ret (JStr (isoNow (reads w))), tick w).
Proof. reflexivity. Qed.

Lemma generateId_run w :
  generateId w = (Ret (JStr (js "task-" ++ entropy (reads w))), tick w).
Proof. reflexivity. Qed.

Lemma or_else_run a m w :
  or_else a m w = if truthy a then (Ret a, w) else m w.
Proof. unfold or_else. destruct (truthy a); reflexivity. Qed.

End Run.

Ltac run :=
  repeat (progress (rewrite ?bind_run, ?ret_run, ?throw_run, ?lift_run,
                      ?this_manager_run, ?this_tasks_run, ?modify_manager_run,
                      ?set_this_tasks_run, ?dispatchEvent_run,
                      ?storage_saveTasks_run, ?now_run, ?generateId_run,
                      ?or_else_run;
                    cbv beta iota)).

(** Projections of a world that was just built. *)
Ltac world :=
  cbn [fst snd manager stored dispatched reads tick
       TaskManager.tasks TaskManager.nextId TaskManager.filter
       TaskManager.searchQuery TaskManager.sortBy TaskManager.sortOrder
       TaskManager.set_tasks TaskManager.set_filter TaskManager.set_searchQuery
       TaskManager.set_sortBy TaskManager.set_sortOrder].

(** * Strings *)

Lemma str_eqb_eq a b : str_eqb a b = true <-> a = b.
Proof.
  revert b. induction a as [|x a IH]; intros [|y b]; simpl; try (split; congruence).
  rewrite andb_true_iff, N.eqb_eq, IH. split.
  - intros [-> ->]. reflexivity.
  - intros H. injection H as -> ->. auto.
Qed.

Lemma str_eqb_refl a : str_eqb a a = true.
Proof. apply str_eqb_eq. reflexivity. Qed.

Lemma trimStart_head s :
  match trimStart s with
  | [] => True
  | c :: _ => isWhiteSpace c = false
  end.
Proof.
  induction s as [|c s IH]; simpl; [exact I|].
  destruct (isWhiteSpace c) eqn:E; [exact IH | exact E].
Qed.

Lemma trimStart_fixed s :
  match s with [] => True | c :: _ => isWhiteSpace c = false end ->
  trimStart s = s.
Proof. destruct s as [|c s]; simpl; [reflexivity|]. intros ->. reflexivity. Qed.

Lemma trimStart_idem s : trimStart (trimStart s) = trimStart s.
Proof. apply trimStart_fixed, trimStart_head. Qed.

Lemma trimStart_suffix s : exists p, s = p ++ trimStart s.
Proof.
  induction s as [|c s [p IH]]; simpl.
  - exists []. reflexivity.
  - destruct (isWhiteSpace c).
    + exists (c :: p). simpl. f_equal. exact IH.
    + exists []. reflexivity.
Qed.

Lemma trimEnd_idem s : trimEnd (trimEnd s) = trimEnd s.
Proof. unfold trimEnd. rewrite rev_involutive, trimStart_idem. reflexivity. Qed.

(** Stripping the end of a string leaves its first code unit in place. *)
Lemma trimEnd_head c s :
  isWhiteSpace c = false -> exists s', trimEnd (c :: s) = c :: s'.
Proof.
  intros Hc. unfold trimEnd.
  destruct (trimStart_suffix (rev (c :: s))) as [p Hp].
  assert (Hrev : c :: s = rev (trimStart (rev (c :: s))) ++ rev p).
  { rewrite <- rev_app_distr, <- Hp, rev_involutive. reflexivity. }
  destruct (rev (trimStart (rev (c :: s)))) as [|d r] eqn:E.
  - exfalso.
    assert (Hnil : trimStart (rev (c :: s)) = []).
    { rewrite <- (rev_involutive (trimStart _)), E. reflexivity. }
    clear E Hrev Hp. revert Hnil. simpl.
    generalize (rev s). intros l. induction l as [|x l IH]; simpl.
    + rewrite Hc. discriminate.
    + destruct (isWhiteSpace x); [exact IH | discriminate].
  - simpl in Hrev. injection Hrev as -> _. exists r. reflexivity.
Qed.

Lemma trim_idem s : trim (trim s) = trim s.
Proof.
  unfold trim.
  assert (H : trimStart (trimEnd (trimStart s)) = trimEnd (trimStart s)).
  { pose proof (trimStart_head s) as Hh.
    destruct (trimStart s) as [|c t]; [reflexivity|].
    destruct (trimEnd_head c t Hh) as [s' ->]. simpl. rewrite Hh. reflexivity. }
  rewrite H. apply trimEnd_idem.
Qed.

Lemma trim_nil : trim [] = [].
Proof. reflexivity. Qed.

(** * Persisting the collection *)

Section Persist.
Context {host : Host}.

Lemma mapM_lift {A B} (f : A -> Outcome B) (l : list A) (w : World) :
  mapM (fun x => lift (f x)) l w = (mapO f l, w).
Proof.
  induction l as [|x l IH]; simpl; [reflexivity|].
  run. destruct (f x) as [y|e]; simpl; [|reflexivity].
  run. rewrite IH. destruct (mapO f l); reflexivity.
Qed.

Lemma saveTasks_run w :
  saveTasks w =
  match mapO toJSON (collection w) with
  | Ret taskData =>
      (Ret tt,
       mkWorld (manager w) (persisted (S (S (reads w))) taskData (stored w))
               (dispatched w) (S (S (reads w))))
  | Throw e => (Throw e, w)
  end.
Proof.
  unfold saveTasks. run. rewrite mapM_lift.
  destruct (mapO toJSON (collection w)); run; reflexivity.
Qed.

Lemma toJSON_iterable task :
  iterable (Task.tags task) = true -> exists data, toJSON task = Ret data.
Proof.
  unfold toJSON. destruct (Task.tags task); simpl; try discriminate; eauto.
Qed.

Lemma mapO_toJSON_storable l :
  storable l = true -> exists taskData, mapO toJSON l = Ret taskData.
Proof.
  induction l as [|task l IH]; simpl; [eauto|].
  rewrite andb_true_iff. intros [Ht Hl].
  destruct (toJSON_iterable task Ht) as [d ->].
  destruct (IH Hl) as [ds ->]. simpl. eauto.
Qed.

Lemma toJSON_throws task e : toJSON task = Throw e -> e = TypeError.
Proof.
  unfold toJSON, spread.
  destruct (Task.tags task); cbv [mbind Outcome_bind mret Outcome_ret]; intros H;
    first [discriminate H | injection H as <-; reflexivity].
Qed.

Lemma mapO_toJSON_throws l e : mapO toJSON l = Throw e -> e = TypeError.
Proof.
  induction l as [|task l IH]; simpl; [discriminate|].
  destruct (toJSON task) as [d|e'] eqn:Ht; simpl.
  - destruct (mapO toJSON l); simpl; [discriminate|].
    intros [= <-]. apply IH. reflexivity.
  - intros [= <-]. eapply toJSON_throws. exact Ht.
Qed.

Lemma mapO_toJSON_unstorable l :
  storable l = false -> mapO toJSON l = Throw TypeError.
Proof.
  intros Hs. destruct (mapO toJSON l) as [d|e] eqn:E.
  - exfalso. revert d E Hs. induction l as [|task l IH]; simpl; [discriminate|].
    intros d. destruct (toJSON task) as [x|] eqn:Ht; simpl; [|discriminate].
    destruct (mapO toJSON l) as [xs|]; simpl; [|discriminate].
    intros _. rewrite andb_false_iff. intros [Hbad|Hbad].
    + unfold toJSON, spread in Ht.
      destruct (Task.tags task); simpl in *; discriminate.
    + eapply IH; [reflexivity | exact Hbad].
  - rewrite (mapO_toJSON_throws _ _ E). reflexivity.
Qed.

(** The two outcomes of serializing a list. *)
Lemma mapO_toJSON_cases l :
  if storable l
  then exists taskData, mapO toJSON l = Ret taskData
  else mapO toJSON l = Throw TypeError.
Proof.
  destruct (storable l) eqn:E.
  - apply mapO_toJSON_storable. exact E.
  - apply mapO_toJSON_unstorable. exact E.
Qed.

(** [saveTasks] returns on a collection whose tasks all serialize, and
    touches the storage and the clock only. *)
Lemma saveTasks_storable w :
  storable (collection w) = true ->
  exists taskData,
    mapO toJSON (collection w) = Ret taskData /\
    saveTasks w =
      (Ret tt,
       mkWorld (manager w) (persisted (S (S (reads w))) taskData (stored w))
               (dispatched w) (S (S (reads w)))).
Proof.
  intros H. rewrite saveTasks_run.
  destruct (mapO_toJSON_storable _ H) as [d ->]. eauto.
Qed.

(** What the constructor builds from a string. *)
Lemma new_Task_run s options w :
  exists task n,
    new_Task (JStr s) options w =
      (Ret task, mkWorld (manager w) (stored w) (dispatched w) n) /\
    (reads w <= n)%nat /\
    truthy (Task.id task) = true /\
    (truthy (Task.id options) = true -> Task.id task = Task.id options) /\
    Task.text task = JStr (trim s) /\
    Task.completed task = js_or (Task.completed options) (JBool false) /\
    truthy (Task.createdAt task) = true /\
    Task.completedAt task = js_or (Task.completedAt options) JNull /\
    truthy (Task.updatedAt task) = true /\
    Task.priority task = js_or (Task.priority options) (JStr (js "normal")) /\
    Task.category task = js_or (Task.category options) (JStr (js "default")) /\
    Task.tags task = js_or (Task.tags options) (JArr []) /\
    Task.dueDate task = js_or (Task.dueDate options) JNull /\
    Task.description task = js_or (Task.description options) (JStr []).
Proof.
  assert (Hiso : forall n, truthy (JStr (isoNow n)) = true).
  { intros n. pose proof (isoNow_nonempty n). simpl. destruct (isoNow n); congruence. }
  destruct w as [m st ev n0]. unfold new_Task, call_trim. run.
  destruct (truthy (Task.id options)) eqn:Hid; run;
  destruct (truthy (Task.createdAt options)) eqn:Hc; run;
  destruct (truthy (Task.updatedAt options)) eqn:Hu; run;
  eexists _, _; (split; [unfold tick; cbn [reads manager stored dispatched]; reflexivity|]); cbn [Task.id Task.text Task.completed
    Task.createdAt Task.completedAt Task.updatedAt Task.priority Task.category
    Task.tags Task.dueDate Task.description reads tick manager stored dispatched];
  repeat split; auto; try lia; try congruence.
Qed.

End Persist.

(** * Adding and removing *)

Section AddRemove.
Context {host : Host}.

Lemma findIndex_existsb {A} (p : A -> bool) (l : list A) :
  findIndex p l = None <-> existsb p l = false.
Proof.
  induction l as [|x l IH]; simpl; [tauto|].
  destruct (p x); simpl; [split; discriminate|].
  rewrite <- IH. destruct (findIndex p l); simpl; split; congruence.
Qed.

(** C6: for an id that no task of the collection carries, [removeTask]
    throws the not-found error and leaves the world, and with it the
    collection's members and their order, exactly as it was. *)
Theorem removeTask_absent_id (w : World) (taskId : JsVal) :
  existsb (has_id taskId) (collection w) = false ->
  removeTask taskId w = (Throw NotFoundError, w) /\
  collection (snd (removeTask taskId w)) = collection w.
Proof.
  intros Habsent. apply findIndex_existsb in Habsent.
  assert (Hrun : removeTask taskId w = (Throw NotFoundError, w)).
  { unfold removeTask. run. rewrite Habsent. reflexivity. }
  rewrite Hrun. split; reflexivity.
Qed.

(** What [addTask] does with a text that is non-empty after trimming:
    the task is built and put in front, then the collection is
    serialized, and only when that succeeds is it persisted and
    announced. *)
Lemma addTask_run s options w :
  trim s <> [] ->
  exists task n,
    new_Task (JStr s) options w
      = (Ret task, mkWorld (manager w) (stored w) (dispatched w) n) /\
    addTask (JStr s) options w =
    match mapO toJSON (task :: collection w) with
    | Ret taskData =>
        (Ret task,
         mkWorld (TaskManager.set_tasks (task :: collection w) (manager w))
                 (persisted (S (S n)) taskData (stored w))
                 (dispatched w ++ [taskAdded task; tasksChanged]) (S (S n)))
    | Throw e =>
        (Throw e,
         mkWorld (TaskManager.set_tasks (task :: collection w) (manager w))
                 (stored w) (dispatched w) n)
    end.
Proof.
  intros Hs.
  assert (Hguard : negb (truthy (JStr s)) || negb (is_string (JStr s))
                   || negb (truthy (JStr (trim s))) = false).
  { destruct s as [|c s]; [elim Hs; reflexivity|].
    simpl. destruct (trim (c :: s)); [elim Hs; reflexivity | reflexivity]. }
  unfold addTask. rewrite Hguard.
  destruct (new_Task_run s options w) as (task & n & Hnew & _).
  exists task, n. split; [exact Hnew|].
  run. rewrite Hnew. run. rewrite saveTasks_run. unfold collection. world.
  destruct (mapO toJSON _); run; world; [|reflexivity].
  rewrite <- app_assoc. reflexivity.
Qed.

(** C1 (amended): [addTask] throws the validation error and changes
    nothing when [text] is not a string that is non-empty after
    trimming.  For a text that is non-empty after trimming it puts in
    front of the collection, now one longer, a task with the trimmed
    text whose [completed] is the [completed] of the options or, when
    that is falsy, [false]; the task is first in [getAllTasks()].  The
    call returns this task when the collection, the new task included,
    serializes, and throws a [TypeError] (the task staying in the
    collection) when it does not. *)
Theorem addTask_contract (w : World) (text : JsVal) (options : Task.t) :
  ((forall s, text = JStr s -> trim s = []) ->
   addTask text options w = (Throw ValidationError, w)) /\
  (forall s, text = JStr s -> trim s <> [] ->
   exists task w',
     snd (addTask text options w) = w' /\
     fst (addTask text options w)
       = (if storable (collection w') then Ret task else Throw TypeError) /\
     (iterable (js_or (Task.tags options) (JArr [])) = true ->
      storable (collection w) = true ->
      addTask text options w = (Ret task, w')) /\
     Task.text task = JStr (trim s) /\
     Task.completed task = js_or (Task.completed options) (JBool false) /\
     (truthy (Task.completed options) = false -> Task.completed task = JBool false) /\
     collection w' = task :: collection w /\
     getAllTasks w' = (Ret (task :: collection w), w') /\
     length (collection w') = S (length (collection w))).
Proof.
  split.
  - intros Hempty. unfold addTask.
    destruct text as [| |b|n|s|d|l]; try (destruct (truthy _); reflexivity).
    rewrite (Hempty s eq_refl). simpl.
    rewrite orb_true_r. reflexivity.
  - intros s -> Hs.
    destruct (addTask_run s options w Hs) as (task & n & Hnew & Hrun).
    destruct (new_Task_run s options w)
      as (task' & n' & Hnew' & _ & _ & _ & Ht & Hc & _ & _ & _ & _ & _ & Htg & _).
    rewrite Hnew in Hnew'. injection Hnew' as <- <-.
    exists task, (snd (addTask (JStr s) options w)).
    assert (Hcollection :
      collection (snd (addTask (JStr s) options w)) = task :: collection w).
    { rewrite Hrun. destruct (mapO toJSON _); reflexivity. }
    split; [reflexivity|].
    split.
    { rewrite Hcollection, Hrun.
      pose proof (mapO_toJSON_cases (task :: collection w)) as Hcases.
      destruct (storable (task :: collection w)).
      - destruct Hcases as [taskData ->]. reflexivity.
      - rewrite Hcases. reflexivity. }
    split.
    { intros Htags Hstore. rewrite Hrun.
      destruct (mapO_toJSON_storable (task :: collection w)) as [taskData ->];
        [|reflexivity].
      simpl. rewrite Htg, Htags. exact Hstore. }
    split; [exact Ht|]. split; [exact Hc|].
    split.
    { intros Hcompleted. rewrite Hc. unfold js_or. rewrite Hcompleted. reflexivity. }
    split; [exact Hcollection|].
    split; [rewrite getAllTasks_run, Hcollection; reflexivity|].
    rewrite Hcollection. reflexivity.
Qed.

End AddRemove.

Example freshWorld_value :
  freshWorld =
  mkWorld (TaskManager.mk [] 1 (js "all") [] (js "createdAt") (js "desc"))
          [] [tasksLoaded 0; tasksChanged] 0.
Proof. reflexivity. Qed.

Example milkWorld_value :
  collection milkWorld =
  [Task.mk milkId (JStr (js "Buy milk")) (JBool false)
           (JStr (sampleClock 1)) JNull (JStr (sampleClock 2))
           (JStr (js "normal")) (JStr (js "default")) (JArr []) JNull (JStr [])].
Proof. reflexivity. Qed.

Lemma removeTask_absent_id_witness :
  existsb (has_id (JStr (js "task-0"))) (collection milkWorld) = false /\
  removeTask (host := sampleHost) (JStr (js "task-0")) milkWorld
    = (Throw NotFoundError, milkWorld).
Proof.
  split; [reflexivity|].
  apply (removeTask_absent_id (host := sampleHost) milkWorld (JStr (js "task-0"))).
  reflexivity.
Defined.

Lemma addTask_contract_witness :
  addTask (host := sampleHost) (JStr (js "   ")) Task.empty milkWorld
    = (Throw ValidationError, milkWorld) /\
  exists task w',
    addTask (host := sampleHost) (JStr (js " Call dentist ")) Task.empty milkWorld
      = (Ret task, w') /\
    Task.text task = JStr (js "Call dentist") /\
    Task.completed task = JBool false /\
    collection w' = task :: collection milkWorld.
Proof.
  split.
  - apply (proj1 (addTask_contract (host := sampleHost) milkWorld
                    (JStr (js "   ")) Task.empty)).
    intros s [= <-]. reflexivity.
  - destruct (proj2 (addTask_contract (host := sampleHost) milkWorld
                       (JStr (js " Call dentist ")) Task.empty)
                (js " Call dentist ") eq_refl)
      as (task & w' & _ & _ & Hrun & Htext & _ & Hcompleted & Hfront & _).
    + vm_compute. discriminate.
    + exists task, w'.
      split; [apply Hrun; reflexivity|].
      split; [exact Htext|].
      split; [apply Hcompleted; reflexivity | exact Hfront].
Defined.

(** C1 (as stated) fails in its second half: with the option
    [completed: true] the returned task has [completed] true, and with
    the option [tags: 5] the call puts the task in the collection and
    throws a [TypeError] instead of returning it. *)
Lemma addTask_contract_counterexample :
  (exists task w',
     addTask (host := sampleHost) (JStr (js "Pay rent"))
       (Task.set_completed (JBool true) Task.empty) freshWorld = (Ret task, w') /\
     Task.text task = JStr (js "Pay rent") /\
     Task.completed task = JBool true) /\
  (exists w',
     addTask (host := sampleHost) (JStr (js "Buy milk"))
       (Task.set_tags (JNum 5) Task.empty) freshWorld = (Throw TypeError, w') /\
     length (collection freshWorld) = 0%nat /\
     List.map Task.text (collection w') = [JStr (js "Buy milk")]).
Proof.
  split.
  - eexists _, _. split; [vm_compute; reflexivity|]. split; reflexivity.
  - eexists. split; [vm_compute; reflexivity|]. split; reflexivity.
Qed.

(** * The entity's mutators *)

Section Entity.
Context {host : Host}.

Lemma isoNow_truthy n : truthy (JStr (isoNow n)) = true.
Proof. pose proof (isoNow_nonempty n). simpl. destruct (isoNow n); congruence. Qed.

(** [toggle] always returns; this is the task it returns. *)
Lemma toggle_run this w :
  toggle this w =
  if truthy (Task.completed this)
  then (Ret (Task.set_updatedAt (JStr (isoNow (reads w)))
               (Task.set_completedAt JNull
                  (Task.set_completed (JBool false) this))),
        tick w)
  else (Ret (Task.set_updatedAt (JStr (isoNow (S (reads w))))
               (Task.set_completedAt (JStr (isoNow (reads w)))
                  (Task.set_completed (JBool true) this))),
        tick (tick w)).
Proof.
  unfold toggle, js_not. destruct (truthy (Task.completed this)) eqn:E; simpl; run; reflexivity.
Qed.

Lemma toggle_consistent this w :
  exists this' w',
    toggle this w = (Ret this', w') /\
    Task.completed this' = js_not (Task.completed this) /\
    completion_consistent this' /\
    Task.id this' = Task.id this /\
    Task.text this' = Task.text this /\
    Task.tags this' = Task.tags this.
Proof.
  rewrite toggle_run. unfold js_not, completion_consistent.
  destruct (truthy (Task.completed this)); eexists _, _;
    (split; [reflexivity|]); simpl; repeat split; try congruence.
Qed.


Lemma keeps_core_refl this : keeps_core this this.
Proof. repeat split; auto. Qed.

Ltac core_done :=
  match goal with
  | H : (_, _) = (_, _) |- _ => injection H as <- <- <-
  | H : (_, _) = (_, _) |- _ => discriminate H
  end;
  first [ apply keeps_core_refl
        | repeat split; simpl; auto ].

Lemma updateText_core newText this w this' b w' :
  updateText newText this w = (Ret (this', b), w') -> keeps_core this this'.
Proof.
  unfold updateText. destruct newText as [| |?|?|s|?|?]; run; try (intros; core_done).
  destruct (trim s) as [|c t] eqn:E; simpl; run; intros; core_done.
Qed.

Lemma setPriority_core priority this w this' b w' :
  setPriority priority this w = (Ret (this', b), w') -> keeps_core this this'.
Proof.
  unfold setPriority. destruct (arr_includes _ priority); run; intros; core_done.
Qed.

Lemma setDueDate_core date this w this' b w' :
  setDueDate date this w = (Ret (this', b), w') -> keeps_core this this'.
Proof.
  unfold setDueDate.
  destruct date as [| |?|?|[|? ?]|[?|]|?]; run; intros; core_done.
Qed.

Lemma addTag_core tag this w this' b w' :
  addTag tag this w = (Ret (this', b), w') -> keeps_core this this'.
Proof.
  unfold addTag, normalizeTag, call_trim.
  destruct tag as [| |?|?|s|?|?]; run; try discriminate.
  destruct (truthy (JStr (toLowerCase (trim s)))); simpl; run; [|intros; core_done].
  destruct (Task.tags this) as [| |?|?|t|?|l]; run; try discriminate.
  - destruct (str_includes t _); run; intros; core_done.
  - destruct (arr_includes l _); run; intros; core_done.
Qed.

Lemma removeTag_core tag this w this' b w' :
  removeTag tag this w = (Ret (this', b), w') -> keeps_core this this'.
Proof.
  unfold removeTag, normalizeTag, call_trim.
  destruct tag as [| |?|?|s|?|?]; run; try discriminate.
  destruct (Task.tags this) as [| |?|?|t|?|l]; run; try discriminate.
  - destruct (str_includes t _); run; intros; core_done.
  - destruct (arr_indexOf l _); run; intros; core_done.
Qed.

End Entity.

(** C2, at the failing input: [updateTask(id, { text: '' })] on a task
    whose text is non-empty returns normally and leaves the task in the
    collection with the empty string as its text. *)
Lemma updateTask_accepts_empty_text :
  has_text (firstTask milkWorld) = true /\
  exists task w',
    updateTask (host := sampleHost) milkId [(js "text", JStr [])] milkWorld
      = (Ret task, w') /\
    collection w' = [task] /\
    Task.text task = JStr [] /\
    has_text task = false.
Proof.
  split; [reflexivity|].
  eexists _, _. split; [vm_compute; reflexivity|].
  repeat split.
Qed.

(** * Frames: what an operation leaves alone *)

Section Frames.
Context {host : Host}.
Context {X : Type} (observe : World -> X).

(** The observations that only depend on the manager's view settings, the
    one the frame lemmas are instantiated with. *)
Hypothesis observe_tasks : forall l w,
  observe (mkWorld (TaskManager.set_tasks l (manager w)) (stored w)
                   (dispatched w) (reads w)) = observe w.
Hypothesis observe_stored : forall d n w,
  observe (mkWorld (manager w) d (dispatched w) n) = observe w.
Hypothesis observe_dispatched : forall e w,
  observe (mkWorld (manager w) (stored w) (dispatched w ++ [e]) (reads w))
  = observe w.
Hypothesis observe_tick : forall w, observe (tick w) = observe w.

Lemma preserves_ret {A} (a : A) : preserves observe (mret a : M A).
Proof. intros w. reflexivity. Qed.

Lemma preserves_throw {A} e : preserves observe (throw e : M A).
Proof. intros w. reflexivity. Qed.

Lemma preserves_lift {A} (o : Outcome A) : preserves observe (lift o).
Proof. intros w. reflexivity. Qed.

Lemma preserves_bind {A B} (m : M A) (k : A -> M B) :
  preserves observe m -> (forall a, preserves observe (k a)) ->
  preserves observe (m ≫= k).
Proof.
  intros Hm Hk w. rewrite bind_run. specialize (Hm w).
  destruct (m w) as [[a|e] w1]; simpl in *; [|exact Hm].
  rewrite (Hk a w1). exact Hm.
Qed.

Lemma preserves_try_catch {A} (m : M A) (h : Exn -> M A) :
  preserves observe m -> (forall e, preserves observe (h e)) ->
  preserves observe (try_catch m h).
Proof.
  intros Hm Hh w. unfold try_catch. specialize (Hm w).
  destruct (m w) as [[a|e] w1]; simpl in *; [exact Hm|].
  rewrite (Hh e w1). exact Hm.
Qed.

Lemma preserves_this_manager : preserves observe this_manager.
Proof. intros w. reflexivity. Qed.

Lemma preserves_this_tasks : preserves observe this_tasks.
Proof. intros w. reflexivity. Qed.

Lemma preserves_set_this_tasks l : preserves observe (set_this_tasks l).
Proof. intros w. apply observe_tasks. Qed.

Lemma preserves_dispatchEvent e : preserves observe (dispatchEvent e).
Proof. intros w. apply observe_dispatched. Qed.

Lemma preserves_storage_saveTasks d : preserves observe (storage_saveTasks d).
Proof. intros w. rewrite storage_saveTasks_run. apply observe_stored. Qed.

Lemma preserves_now : preserves observe now.
Proof. intros w. apply observe_tick. Qed.

Lemma preserves_generateId : preserves observe generateId.
Proof. intros w. apply observe_tick. Qed.

Lemma preserves_forEach {A} (body : A -> M unit) l :
  (forall x, preserves observe (body x)) -> preserves observe (forEach body l).
Proof.
  intros Hbody. induction l as [|x l IH]; simpl.
  - apply preserves_ret.
  - apply preserves_bind; [apply Hbody | intros _; exact IH].
Qed.

Lemma preserves_mapM {A B} (f : A -> M B) l :
  (forall x, preserves observe (f x)) -> preserves observe (mapM f l).
Proof.
  intros Hf. induction l as [|x l IH]; simpl.
  - apply preserves_ret.
  - apply preserves_bind; [apply Hf|]. intros y.
    apply preserves_bind; [exact IH|]. intros ys. apply preserves_ret.
Qed.

Lemma preserves_or_else a m : preserves observe m -> preserves observe (or_else a m).
Proof. intros Hm. unfold or_else. destruct (truthy a); [apply preserves_ret | exact Hm]. Qed.

Lemma preserves_call_trim v : preserves observe (call_trim v).
Proof. destruct v; intros w; reflexivity. Qed.

(** Closes a frame goal over straight-line code by following its shape;
    [known] is tried first at every step. *)
Ltac frame_with known :=
  repeat first
    [ progress intros
    | known
    | apply preserves_ret
    | apply preserves_throw
    | apply preserves_lift
    | apply preserves_this_manager
    | apply preserves_this_tasks
    | apply preserves_set_this_tasks
    | apply preserves_dispatchEvent
    | apply preserves_storage_saveTasks
    | apply preserves_now
    | apply preserves_generateId
    | apply preserves_call_trim
    | apply preserves_or_else
    | apply preserves_forEach
    | apply preserves_mapM
    | apply preserves_try_catch
    | apply preserves_bind
    | match goal with
      | |- preserves _ (match ?x with _ => _ end) => destruct x
      end ].

Ltac frame := frame_with fail.

Lemma preserves_saveTasks : preserves observe saveTasks.
Proof. unfold saveTasks. frame. Qed.

Lemma preserves_new_Task text options : preserves observe (new_Task text options).
Proof. unfold new_Task. frame. Qed.

Lemma preserves_fromJSON data : preserves observe (fromJSON data).
Proof. apply preserves_new_Task. Qed.

Lemma preserves_toggle this : preserves observe (toggle this).
Proof. unfold toggle. frame. Qed.

Lemma preserves_updateText v this : preserves observe (updateText v this).
Proof. unfold updateText. frame. Qed.

Lemma preserves_setPriority v this : preserves observe (setPriority v this).
Proof. unfold setPriority. frame. Qed.

Lemma preserves_setDueDate v this : preserves observe (setDueDate v this).
Proof. unfold setDueDate. frame. Qed.

Lemma preserves_task_at index : preserves observe (task_at index).
Proof. unfold task_at. frame. Qed.

Lemma preserves_mutate_at {R} index (method : Task.t -> M (Task.t * R)) :
  (forall task, preserves observe (method task)) ->
  preserves observe (mutate_at index method).
Proof.
  intros H. unfold mutate_at.
  frame_with ltac:(first [apply preserves_task_at | apply H]).
Qed.

Lemma preserves_applyUpdate index entry : preserves observe (applyUpdate index entry).
Proof.
  unfold applyUpdate. destruct entry as [key value].
  frame_with ltac:(first
    [ apply preserves_task_at | apply preserves_mutate_at
    | apply preserves_updateText | apply preserves_setPriority
    | apply preserves_setDueDate | apply preserves_toggle ]).
Qed.

Lemma preserves_addTask text options : preserves observe (addTask text options).
Proof.
  unfold addTask.
  frame_with ltac:(first [apply preserves_new_Task | apply preserves_saveTasks]).
Qed.

Lemma preserves_removeTask taskId : preserves observe (removeTask taskId).
Proof. unfold removeTask. frame_with ltac:(apply preserves_saveTasks). Qed.

Lemma preserves_updateTask taskId updates : preserves observe (updateTask taskId updates).
Proof.
  unfold updateTask.
  frame_with ltac:(first
    [ apply preserves_task_at | apply preserves_saveTasks
    | apply preserves_applyUpdate ]).
Qed.

Lemma preserves_getTask taskId : preserves observe (getTask taskId).
Proof. unfold getTask. frame. Qed.

Lemma preserves_toggleTask taskId : preserves observe (toggleTask taskId).
Proof.
  unfold toggleTask.
  frame_with ltac:(first [apply preserves_getTask | apply preserves_updateTask]).
Qed.

Lemma preserves_bulkComplete taskIds : preserves observe (bulkComplete taskIds).
Proof.
  induction taskIds as [|taskId rest IH]; simpl;
    frame_with ltac:(first
      [apply preserves_getTask | apply preserves_toggleTask | exact IH]).
Qed.

Lemma preserves_bulkDelete taskIds : preserves observe (bulkDelete taskIds).
Proof.
  induction taskIds as [|taskId rest IH]; simpl;
    frame_with ltac:(first [apply preserves_removeTask | exact IH]).
Qed.

Lemma preserves_clearCompleted : preserves observe clearCompleted.
Proof. unfold clearCompleted. frame_with ltac:(apply preserves_saveTasks). Qed.

Lemma preserves_importTasks tasksData merge :
  preserves observe (importTasks tasksData merge).
Proof.
  unfold importTasks.
  frame_with ltac:(first [apply preserves_fromJSON | apply preserves_saveTasks]).
Qed.

End Frames.

(** C10: each operation that changes the collection, [reset] apart,
    returns or throws with [filter], [searchQuery], [sortBy] and
    [sortOrder] as they were before the call. *)
Theorem mutations_keep_view_settings {host : Host} (w : World) :
  (forall text options,
     viewSettings (snd (addTask text options w)) = viewSettings w) /\
  (forall taskId, viewSettings (snd (removeTask taskId w)) = viewSettings w) /\
  (forall taskId updates,
     viewSettings (snd (updateTask taskId updates w)) = viewSettings w) /\
  (forall taskId, viewSettings (snd (toggleTask taskId w)) = viewSettings w) /\
  (forall taskIds, viewSettings (snd (bulkComplete taskIds w)) = viewSettings w) /\
  (forall taskIds, viewSettings (snd (bulkDelete taskIds w)) = viewSettings w) /\
  viewSettings (snd (clearCompleted w)) = viewSettings w /\
  (forall tasksData merge,
     viewSettings (snd (importTasks tasksData merge w)) = viewSettings w).
Proof.
  assert (Ht : forall l w, viewSettings (mkWorld (TaskManager.set_tasks l (manager w))
                 (stored w) (dispatched w) (reads w)) = viewSettings w) by reflexivity.
  assert (Hs : forall d n w, viewSettings (mkWorld (manager w) d (dispatched w) n)
                 = viewSettings w) by reflexivity.
  assert (Hd : forall e w, viewSettings (mkWorld (manager w) (stored w)
                 (dispatched w ++ [e]) (reads w)) = viewSettings w) by reflexivity.
  assert (Hk : forall w, viewSettings (tick w) = viewSettings w) by reflexivity.
  repeat split; intros.
  - apply (preserves_addTask viewSettings Ht Hs Hd Hk).
  - apply (preserves_removeTask viewSettings Ht Hs Hd).
  - apply (preserves_updateTask viewSettings Ht Hs Hd Hk).
  - apply (preserves_toggleTask viewSettings Ht Hs Hd Hk).
  - apply (preserves_bulkComplete viewSettings Ht Hs Hd Hk).
  - apply (preserves_bulkDelete viewSettings Ht Hs Hd).
  - apply (preserves_clearCompleted viewSettings Ht Hs Hd).
  - apply (preserves_importTasks viewSettings Ht Hs Hd Hk).
Qed.

(** * Toggling through the manager *)

Section Toggle.
Context {host : Host}.

Lemma findIndex_Some {A} (p : A -> bool) (l : list A) i :
  findIndex p l = Some i -> exists x, l !! i = Some x /\ p x = true.
Proof.
  revert i. induction l as [|y l IH]; simpl; [discriminate|]. intros i.
  destruct (p y) eqn:Hy.
  - intros [= <-]. exists y. split; [reflexivity | exact Hy].
  - destruct (findIndex p l) as [j|]; simpl; [|discriminate].
    intros [= <-]. exact (IH j eq_refl).
Qed.

Lemma find_findIndex {A} (p : A -> bool) (l : list A) i x :
  findIndex p l = Some i -> l !! i = Some x -> List.find p l = Some x.
Proof.
  revert i. induction l as [|y l IH]; simpl; [discriminate|]. intros i.
  destruct (p y) eqn:Hy.
  - intros [= <-]. simpl. congruence.
  - destruct (findIndex p l) as [j|] eqn:Hj; simpl; [|discriminate].
    intros [= <-]. simpl. apply (IH j eq_refl).
Qed.

Lemma findIndex_insert {A} (p : A -> bool) (l : list A) i x :
  findIndex p l = Some i -> p x = true -> findIndex p (<[i := x]> l) = Some i.
Proof.
  revert i. induction l as [|y l IH]; simpl; [discriminate|]. intros i.
  destruct (p y) eqn:Hy.
  - intros [= <-] Hx. simpl. rewrite Hx. reflexivity.
  - destruct (findIndex p l) as [j|] eqn:Hj; simpl; [|discriminate].
    intros [= <-] Hx. simpl. rewrite Hy, (IH j eq_refl Hx). reflexivity.
Qed.

Lemma storable_insert l i task task' :
  storable l = true -> l !! i = Some task ->
  Task.tags task' = Task.tags task ->
  storable (<[i := task']> l) = true.
Proof.
  revert i. induction l as [|y l IH]; intros [|i]; simpl; try discriminate.
  - rewrite !andb_true_iff. intros [Hy Hl] [= ->] ->. auto.
  - rewrite !andb_true_iff. intros [Hy Hl] Hi Ht. split; [exact Hy|].
    exact (IH i Hl Hi Ht).
Qed.

Lemma strict_eq_js_not v : strict_eq (js_not v) v = false.
Proof. destruct v as [| |[|]|?|?|?|?]; reflexivity. Qed.

Lemma task_at_run index w :
  task_at index w =
  match collection w !! index with
  | Some task => (Ret task, w)
  | None => (Throw TypeError, w)
  end.
Proof. unfold task_at. run. destruct (collection w !! index); reflexivity. Qed.

Lemma storable_insert_eq l i task task' :
  l !! i = Some task ->
  Task.tags task' = Task.tags task ->
  storable (<[i := task']> l) = storable l.
Proof.
  revert i. induction l as [|y l IH]; intros [|i]; simpl; try discriminate.
  - intros [= ->] ->. reflexivity.
  - intros Hi Ht. rewrite (IH i Hi Ht). reflexivity.
Qed.

(** [toggleTask] on an id the manager finds: the task found is replaced,
    in its place, by what [toggle] makes of it; the collection is then
    serialized, and persisted and announced when that succeeds. *)
Lemma toggleTask_run_any w taskId i task task' w0 :
  findIndex (has_id taskId) (collection w) = Some i ->
  collection w !! i = Some task ->
  toggle task w = (Ret task', w0) ->
  toggleTask taskId w =
  match mapO toJSON (<[i := task']> (collection w)) with
  | Ret taskData =>
      (Ret task',
       mkWorld (TaskManager.set_tasks (<[i := task']> (collection w)) (manager w))
               (persisted (S (S (reads w0))) taskData (stored w))
               (dispatched w ++ [taskUpdated task' task; tasksChanged])
               (S (S (reads w0))))
  | Throw e =>
      (Throw e,
       mkWorld (TaskManager.set_tasks (<[i := task']> (collection w)) (manager w))
               (stored w) (dispatched w) (reads w0))
  end.
Proof.
  intros Hfind Hlookup Htoggle.
  assert (Hw0 : w0 = mkWorld (manager w) (stored w) (dispatched w) (reads w0)).
  { rewrite toggle_run in Htoggle.
    destruct (truthy (Task.completed task)); injection Htoggle as _ <-;
      destruct w; reflexivity. }
  assert (Hlt : (i < length (collection w))%nat) by (eapply lookup_lt_Some; eauto).
  unfold collection in *.
  unfold toggleTask, getTask. run. unfold collection.
  rewrite (find_findIndex _ _ _ _ Hfind Hlookup). run.
  unfold updateTask. run. unfold collection. rewrite Hfind.
  rewrite !bind_run, task_at_run. unfold collection. rewrite Hlookup. cbv beta iota.
  change (forEach (applyUpdate i) [(js "completed", js_not (Task.completed task))])
    with (applyUpdate i (js "completed", js_not (Task.completed task));; mret tt).
  change (applyUpdate i (js "completed", js_not (Task.completed task)))
    with (task0 ← task_at i;
          if negb (strict_eq (js_not (Task.completed task)) (Task.completed task0))
          then mutate_at i (fun t => t' ← toggle t; mret (t', tt))
          else mret tt).
  rewrite !bind_run, task_at_run. unfold collection. rewrite Hlookup. cbv beta iota.
  rewrite strict_eq_js_not. change (negb false) with true. cbv iota.
  unfold mutate_at.
  rewrite !bind_run, task_at_run. unfold collection. rewrite Hlookup. cbv beta iota.
  rewrite !bind_run, Htoggle. run. rewrite Hw0. unfold collection. world.
  rewrite saveTasks_run. unfold collection. world.
  destruct (mapO toJSON _) as [taskData|e]; [|reflexivity].
  rewrite !bind_run, task_at_run. unfold collection. world.
  rewrite list_lookup_insert_eq by exact Hlt. run. world.
  rewrite <- app_assoc. reflexivity.
Qed.




End Toggle.



(** * Serialization round trip *)

Section RoundTrip.
Context {host : Host}.

Lemma js_or_truthy_or default v : truthy_or default v -> js_or v default = v.
Proof.
  unfold truthy_or, js_or. intros [->| ->]; [reflexivity|].
  destruct (truthy default); reflexivity.
Qed.

Lemma js_or_fixed default v : js_or v default = v -> truthy_or default v.
Proof.
  unfold truthy_or, js_or. destruct (truthy v); [left; reflexivity|].
  intros <-. right. reflexivity.
Qed.

Lemma js_or_fixed_truthy default v :
  truthy default = true -> js_or v default = v -> truthy v = true.
Proof.
  unfold js_or. destruct (truthy v) eqn:E; [reflexivity|]. intros Hd <-.
  congruence.
Qed.

Lemma new_Task_not_string text options w :
  is_string text = false -> exists w', new_Task text options w = (Throw TypeError, w').
Proof.
  intros Htext. unfold new_Task, call_trim. run.
  destruct (truthy (Task.id options)); run;
    destruct text; try discriminate; run; eauto.
Qed.

Lemma toJSON_fields this data :
  toJSON this = Ret data ->
  Task.id data = Task.id this /\ Task.text data = Task.text this /\
  Task.completed data = Task.completed this /\
  Task.createdAt data = Task.createdAt this /\
  Task.completedAt data = Task.completedAt this /\
  Task.updatedAt data = Task.updatedAt this /\
  Task.priority data = Task.priority this /\
  Task.category data = Task.category this /\
  (exists l, Task.tags data = JArr l /\
             (Task.tags this = JArr l \/ exists s, Task.tags this = JStr s)) /\
  Task.dueDate data = Task.dueDate this /\
  Task.description data = Task.description this.
Proof.
  unfold toJSON. destruct (Task.tags this) eqn:E; simpl; try discriminate;
    intros [= <-]; simpl; repeat split; eauto.
Qed.

(** C5 (amended): [fromJSON(toJSON(task))] returns a task equal to [task]
    in every field exactly when [id], [createdAt], [updatedAt], [priority]
    and [category] are truthy, [completed], [completedAt], [dueDate] and
    [description] are truthy or equal to the constructor's default for
    them, [text] is a trimmed string and [tags] is an array; the world is
    then untouched.  Every task the constructor builds from options whose
    [tags] is an array or falsy has this shape. *)
Theorem roundtrip_exact (task : Task.t) (w : World) :
  (survives_roundtrip task ->
   exists data, toJSON task = Ret data /\ fromJSON data w = (Ret task, w)) /\
  ((exists data, toJSON task = Ret data /\ fst (fromJSON data w) = Ret task) ->
   survives_roundtrip task) /\
  (forall s options w0 w1,
     new_Task (JStr s) options w0 = (Ret task, w1) ->
     (truthy (Task.tags options) = false \/ exists l, Task.tags options = JArr l) ->
     survives_roundtrip task).
Proof.
  split; [|split].
  - intros (Hid & (s & Htext & Htrim) & Hc & Hcr & Hca & Hu & Hp & Hcat
            & (l & Htags) & Hd & Hdesc).
    destruct task as [id text completed createdAt completedAt updatedAt
                      priority category tags dueDate description].
    simpl in *. subst text tags.
    eexists. split; [reflexivity|].
    unfold fromJSON, new_Task, call_trim. simpl. run.
    rewrite Hid. run. rewrite Hcr. run. rewrite Hu. run. rewrite Htrim.
    rewrite (js_or_truthy_or _ _ Hc), (js_or_truthy_or _ _ Hca),
      (js_or_truthy_or _ _ Hd), (js_or_truthy_or _ _ Hdesc).
    unfold js_or. rewrite Hp, Hcat. reflexivity.
  - intros (data & Hjson & Hback).
    destruct (toJSON_fields _ _ Hjson)
      as (Eid & Etext & Ec & Ecr & Eca & Eu & Ep & Ecat & (l & Etags & _) & Ed & Edesc).
    unfold fromJSON in Hback.
    destruct (Task.text data) as [| |?|?|s|?|?] eqn:Ht;
      try (match type of Hback with
           | fst (new_Task ?v ?o ?w) = _ =>
               destruct (new_Task_not_string v o w eq_refl) as [w' Hthrow];
               rewrite Hthrow in Hback; discriminate Hback
           end).
    match type of Hback with
    | fst (new_Task _ ?o _) = _ =>
        destruct (new_Task_run s o w)
          as (t & n & Hnew & _ & Hid & _ & Htx & Hc & Hcr & Hca & Hu & Hp & Hcat
              & Htags & Hd & Hdesc)
    end.
    rewrite Hnew in Hback. simpl in Hback. injection Hback as ->.
    simpl in *.
    rewrite Ec in Hc. rewrite Eca in Hca. rewrite Ep in Hp. rewrite Ecat in Hcat.
    rewrite Etags in Htags. rewrite Ed in Hd. rewrite Edesc in Hdesc.
    unfold survives_roundtrip.
    split; [exact Hid|].
    split. { exists s. split; congruence. }
    split; [apply js_or_fixed; congruence|].
    split; [exact Hcr|].
    split; [apply js_or_fixed; congruence|].
    split; [exact Hu|].
    split; [eapply js_or_fixed_truthy; [|symmetry; exact Hp]; reflexivity|].
    split; [eapply js_or_fixed_truthy; [|symmetry; exact Hcat]; reflexivity|].
    split; [exists l; exact Htags|].
    split; apply js_or_fixed; congruence.
  - intros s options w0 w1 Hnew Hopt.
    destruct (new_Task_run s options w0)
      as (t & n & Hnew' & _ & Hid & _ & Htx & Hc & Hcr & Hca & Hu & Hp & Hcat
          & Htags & Hd & Hdesc).
    rewrite Hnew in Hnew'. injection Hnew' as <- _.
    unfold survives_roundtrip.
    assert (Hor : forall v d, truthy_or d (js_or v d)).
    { intros v d. unfold truthy_or, js_or. destruct (truthy v) eqn:E; auto. }
    assert (Hort : forall v d, truthy d = true -> truthy (js_or v d) = true).
    { intros v d Hd'. unfold js_or. destruct (truthy v) eqn:E; auto. }
    split; [exact Hid|].
    split. { exists (trim s). split; [exact Htx | apply trim_idem]. }
    split; [rewrite Hc; apply Hor|].
    split; [exact Hcr|].
    split; [rewrite Hca; apply Hor|].
    split; [exact Hu|].
    split; [rewrite Hp; apply Hort; reflexivity|].
    split; [rewrite Hcat; apply Hort; reflexivity|].
    split.
    { rewrite Htags. unfold js_or. destruct Hopt as [-> | [l Hl]]; [eauto|].
      rewrite Hl. simpl. eauto. }
    split; [rewrite Hd; apply Hor | rewrite Hdesc; apply Hor].
Qed.

End RoundTrip.

Lemma roundtrip_exact_witness :
  survives_roundtrip (firstTask milkWorld) /\
  exists data,
    toJSON (firstTask milkWorld) = Ret data /\
    fromJSON (host := sampleHost) data freshWorld = (Ret (firstTask milkWorld), freshWorld).
Proof.
  assert (H : survives_roundtrip (firstTask milkWorld)).
  { unfold survives_roundtrip, truthy_or. simpl.
    repeat split; eauto. }
  split; [exact H|].
  exact (proj1 (roundtrip_exact (host := sampleHost) (firstTask milkWorld) freshWorld) H).
Defined.

(** C5 (as stated) fails: a task whose category [updateTask] has set to
    the empty string comes back from [fromJSON(toJSON(task))] with the
    category ['default']. *)
Lemma roundtrip_counterexample :
  exists data task' w',
    In (firstTask uncategorizedWorld) (collection uncategorizedWorld) /\
    toJSON (firstTask uncategorizedWorld) = Ret data /\
    fromJSON (host := sampleHost) data uncategorizedWorld = (Ret task', w') /\
    Task.category (firstTask uncategorizedWorld) = JStr [] /\
    Task.category task' = JStr (js "default") /\
    task' <> firstTask uncategorizedWorld.
Proof.
  eexists _, _, _.
  split; [left; reflexivity|]. split; [reflexivity|].
  split; [vm_compute; reflexivity|].
  split; [reflexivity|]. split; [reflexivity|]. discriminate.
Qed.

(** * The derived view *)

Section View.
Context {host : Host}.

Lemma filterO_incl {A} (p : A -> Outcome bool) l l' :
  filterO p l = Ret l' -> forall x, In x l' -> In x l.
Proof.
  revert l'. induction l as [|y l IH]; simpl; intros l'.
  - intros [= <-] x [].
  - destruct (p y) as [b|e]; simpl; [|discriminate].
    destruct (filterO p l) as [rest|e]; simpl; [|discriminate].
    intros [= <-] x Hx. destruct b; simpl in Hx.
    + destruct Hx as [->|Hx]; [left; reflexivity | right; eauto].
    + right; eauto.
Qed.

Lemma insertBy_perm {A} (cmp : A -> A -> Z) x l : insertBy cmp x l ≡ₚ x :: l.
Proof.
  induction l as [|y l IH]; simpl; [reflexivity|].
  destruct (cmp x y <=? 0); [reflexivity|].
  rewrite IH. apply Permutation_swap.
Qed.

Lemma stableSort_perm {A} (cmp : A -> A -> Z) l : stableSort cmp l ≡ₚ l.
Proof.
  induction l as [|x l IH]; simpl; [reflexivity|].
  unfold stableSort in *. simpl. rewrite insertBy_perm, IH. reflexivity.
Qed.

Lemma mapO_keyed {A K} (key : A -> Outcome K) l keyed :
  mapO (fun x => k ← key x; mret (k, x)) l = Ret keyed ->
  List.map snd keyed = l.
Proof.
  revert keyed. induction l as [|x l IH]; simpl; intros keyed.
  - intros [= <-]. reflexivity.
  - destruct (key x) as [k|e]; simpl; [|discriminate].
    destruct (mapO _ l) as [ks|e]; simpl; [|discriminate].
    intros [= <-]. simpl. f_equal. apply IH. reflexivity.
Qed.

Lemma sortTasks_perm sortBy sortOrder l l' :
  sortTasks sortBy sortOrder l = Ret l' -> l' ≡ₚ l.
Proof.
  unfold sortTasks. destruct l as [|a [|b l]]; try (intros [= <-]; reflexivity).
  destruct (mapO _ (a :: b :: l)) as [keyed|e] eqn:E; simpl; [|discriminate].
  intros [= <-]. apply mapO_keyed in E. rewrite <- E.
  apply Permutation_map, stableSort_perm.
Qed.

Lemma searchFilter_incl query l l' :
  searchFilter query l = Ret l' -> forall x, In x l' -> In x l.
Proof.
  unfold searchFilter. destruct (truthy (JStr query)).
  - apply filterO_incl.
  - intros [= <-]. auto.
Qed.

Lemma getFilteredTasks_run w :
  getFilteredTasks w =
  (filtered ← searchFilter (TaskManager.searchQuery (manager w))
     (statusFilter (TaskManager.filter (manager w)) (collection w));
   sortTasks (TaskManager.sortBy (manager w)) (TaskManager.sortOrder (manager w))
     filtered,
   w).
Proof.
  unfold getFilteredTasks. run. unfold collection.
  destruct (searchFilter _ _); simpl; run; reflexivity.
Qed.

(** C7: [getFilteredTasks] leaves the world as it was; what it returns
    comes from the collection, holds no task with [completed] true under
    the filter ['active'] and none with [completed] false under the
    filter ['completed']; under ['all'] the status step keeps the whole
    collection, and with no search query every task is returned. *)
Theorem getFilteredTasks_status (w : World) :
  snd (getFilteredTasks w) = w /\
  statusFilter (js "all") (collection w) = collection w /\
  forall shown, fst (getFilteredTasks w) = Ret shown ->
    (forall task, In task shown -> In task (collection w)) /\
    (TaskManager.filter (manager w) = js "active" ->
     forall task, In task shown ->
       truthy (Task.completed task) = false /\ Task.completed task <> JBool true) /\
    (TaskManager.filter (manager w) = js "completed" ->
     forall task, In task shown ->
       truthy (Task.completed task) = true /\ Task.completed task <> JBool false) /\
    (TaskManager.filter (manager w) = js "all" ->
     TaskManager.searchQuery (manager w) = [] ->
     shown ≡ₚ collection w).
Proof.
  rewrite getFilteredTasks_run. split; [reflexivity|]. split; [reflexivity|].
  intros shown. cbn [fst].
  destruct (searchFilter _ _) as [filtered|e] eqn:Hsearch; simpl; [|discriminate].
  intros Hsort. apply sortTasks_perm in Hsort.
  assert (Hsub : forall task, In task shown ->
            In task (statusFilter (TaskManager.filter (manager w)) (collection w))).
  { intros task Hin. eapply searchFilter_incl; [exact Hsearch|].
    rewrite <- list_elem_of_In in *. rewrite <- Hsort. exact Hin. }
  split; [|split; [|split]].
  - intros task Hin. apply Hsub in Hin. unfold statusFilter in Hin.
    destruct (str_eqb _ (js "active")); [apply filter_In in Hin; tauto|].
    destruct (str_eqb _ (js "completed")); [apply filter_In in Hin; tauto|].
    exact Hin.
  - intros Hf task Hin. apply Hsub in Hin. rewrite Hf in Hin.
    change (statusFilter (js "active") (collection w))
      with (List.filter (fun t => negb (truthy (Task.completed t))) (collection w)) in Hin.
    apply filter_In in Hin. destruct Hin as [_ Hc].
    apply negb_true_iff in Hc. split; [exact Hc|].
    intros E. rewrite E in Hc. discriminate.
  - intros Hf task Hin. apply Hsub in Hin. rewrite Hf in Hin.
    change (statusFilter (js "completed") (collection w))
      with (List.filter (fun t => truthy (Task.completed t)) (collection w)) in Hin.
    apply filter_In in Hin. destruct Hin as [_ Hc].
    split; [exact Hc|]. intros E. rewrite E in Hc. discriminate.
  - intros Hf Hq. rewrite Hf, Hq in Hsearch.
    injection Hsearch as <-. exact Hsort.
Qed.

End View.

Lemma getFilteredTasks_status_witness :
  TaskManager.filter (manager (snd (setFilter (JStr (js "active")) twoTaskWorld)))
    = js "active" /\
  exists shown,
    fst (getFilteredTasks (host := sampleHost)
           (snd (setFilter (JStr (js "active")) twoTaskWorld))) = Ret shown /\
    length (collection twoTaskWorld) = 2%nat /\
    length shown = 1%nat /\
    forall task, In task shown -> Task.completed task <> JBool true.
Proof.
  split; [reflexivity|].
  set (w := snd (setFilter (JStr (js "active")) twoTaskWorld)).
  destruct (getFilteredTasks_status (host := sampleHost) w) as (_ & _ & H).
  eexists. split; [vm_compute; reflexivity|].
  split; [reflexivity|]. split; [reflexivity|].
  intros task Hin.
  refine (proj2 (proj1 (proj2 (H _ _)) _ task Hin)); reflexivity.
Defined.

(** * Setting the filter and the sorting *)

Lemma arr_includes_string l v :
  forallb is_string l = true -> arr_includes l v = true -> exists s, v = JStr s.
Proof.
  induction l as [|x l IH]; simpl; [discriminate|].
  rewrite andb_true_iff, orb_true_iff. intros [Hx Hl] [H|H]; [|auto].
  destruct x; try discriminate. destruct v; try discriminate. eauto.
Qed.

(** C8 (amended): [setFilter] with an invalid argument returns [false]
    and changes nothing, dispatching nothing; with a valid one it stores
    it and dispatches [filterChanged] alone.  [setSorting] stores each
    valid component and leaves the field of an invalid one as it was; on
    every call, also one whose components are both invalid, it
    dispatches [sortingChanged] alone, carrying the two fields as they
    are after the call.  Neither touches the collection or the storage,
    and neither dispatches [tasksChanged]. *)
Theorem view_setters_validate (w : World) :
  (forall filter,
     validFilter filter = false -> setFilter filter w = (Ret false, w)) /\
  (forall filter,
     validFilter filter = true ->
     exists f w',
       filter = JStr f /\
       setFilter filter w = (Ret true, w') /\
       TaskManager.filter (manager w') = f /\
       dispatched w' = dispatched w ++ [filterChanged f] /\
       collection w' = collection w /\ stored w' = stored w /\
       TaskManager.searchQuery (manager w') = TaskManager.searchQuery (manager w) /\
       TaskManager.sortBy (manager w') = TaskManager.sortBy (manager w) /\
       TaskManager.sortOrder (manager w') = TaskManager.sortOrder (manager w)) /\
  (forall sortBy sortOrder,
     exists w',
       setSorting sortBy sortOrder w = (Ret tt, w') /\
       TaskManager.sortBy (manager w')
         = accepted validSortBy sortBy (TaskManager.sortBy (manager w)) /\
       TaskManager.sortOrder (manager w')
         = accepted validSortOrder (suppliedOrder sortOrder)
             (TaskManager.sortOrder (manager w)) /\
       (validSortBy sortBy = false ->
        TaskManager.sortBy (manager w') = TaskManager.sortBy (manager w)) /\
       (validSortOrder (suppliedOrder sortOrder) = false ->
        TaskManager.sortOrder (manager w') = TaskManager.sortOrder (manager w)) /\
       dispatched w'
         = dispatched w ++ [sortingChanged (TaskManager.sortBy (manager w'))
                                           (TaskManager.sortOrder (manager w'))] /\
       collection w' = collection w /\ stored w' = stored w /\
       TaskManager.filter (manager w') = TaskManager.filter (manager w) /\
       TaskManager.searchQuery (manager w') = TaskManager.searchQuery (manager w)).
Proof.
  split; [|split].
  - intros filter Hinvalid. unfold setFilter.
    destruct filter; try reflexivity.
    fold (validFilter (JStr s)). rewrite Hinvalid. reflexivity.
  - intros filter Hvalid.
    pose proof Hvalid as Hs. unfold validFilter in Hs.
    apply arr_includes_string in Hs; [|reflexivity]. destruct Hs as [f ->].
    unfold setFilter. fold (validFilter (JStr f)). rewrite Hvalid.
    eexists f, _. split; [reflexivity|]. run.
    split; [reflexivity|]. world. repeat split.
  - intros sortBy sortOrder. unfold setSorting.
    fold (suppliedOrder sortOrder). fold (validSortBy sortBy).
    fold (validSortOrder (suppliedOrder sortOrder)).
    generalize (suppliedOrder sortOrder). intros order.
    unfold accepted.
    destruct sortBy as [| |?|?|by_|?|?]; run;
      try (destruct (validSortBy (JStr by_)) eqn:Hby; run);
      (destruct order as [| |?|?|order_|?|?]; run;
       try (destruct (validSortOrder (JStr order_)) eqn:Horder; run));
      (eexists; split; [reflexivity|]); world;
      repeat split; try reflexivity; try discriminate.
Qed.

Lemma view_setters_validate_witness :
  validFilter (JStr (js "done")) = false /\
  setFilter (JStr (js "done")) milkWorld = (Ret false, milkWorld) /\
  validSortBy (JStr (js "priority")) = true /\
  validSortOrder (JStr (js "upwards")) = false /\
  exists w',
    setSorting (JStr (js "priority")) (JStr (js "upwards")) milkWorld = (Ret tt, w') /\
    TaskManager.sortBy (manager w') = js "priority" /\
    TaskManager.sortOrder (manager w') = js "desc" /\
    dispatched w' = dispatched milkWorld ++ [sortingChanged (js "priority") (js "desc")].
Proof.
  split; [reflexivity|].
  split.
  { apply (proj1 (view_setters_validate milkWorld)). reflexivity. }
  split; [reflexivity|]. split; [reflexivity|].
  destruct (proj2 (proj2 (view_setters_validate milkWorld))
              (JStr (js "priority")) (JStr (js "upwards")))
    as (w' & Hrun & Hby & Horder & _ & Hkept & Hevents & _).
  exists w'. split; [exact Hrun|].
  split; [exact Hby|].
  split; [exact (Hkept eq_refl)|].
  rewrite Hevents, Hby, (Hkept eq_refl). reflexivity.
Defined.

(** C8 (as stated) fails for [setSorting]: called with two invalid
    components it changes no field of the manager and still dispatches
    [sortingChanged]. *)
Lemma view_setters_counterexample :
  validSortBy (JStr (js "bogus")) = false /\
  validSortOrder (JStr (js "bogus")) = false /\
  exists w',
    setSorting (JStr (js "bogus")) (JStr (js "bogus")) milkWorld = (Ret tt, w') /\
    manager w' = manager milkWorld /\
    dispatched w'
    = dispatched milkWorld ++ [sortingChanged (js "createdAt") (js "desc")].
Proof.
  split; [reflexivity|]. split; [reflexivity|].
  eexists. split; [reflexivity|]. split; reflexivity.
Qed.

(** * Importing *)

Section Importing.
Context {host : Host}.

Lemma mapM_fromJSON_world elems w :
  exists n,
    snd (mapM fromJSON elems w)
    = mkWorld (manager w) (stored w) (dispatched w) n.
Proof.
  revert w. induction elems as [|data elems IH]; intros w; simpl.
  - exists (reads w). destruct w; reflexivity.
  - run. unfold fromJSON at 1.
    destruct (is_string (Task.text data)) eqn:Hs.
    + destruct (Task.text data) as [| |?|?|s|?|?]; try discriminate.
      match goal with
      | |- context [new_Task (JStr s) ?o w] =>
          destruct (new_Task_run s o w) as (task & n & -> & _)
      end.
      run. set (w1 := mkWorld _ _ _ n). destruct (IH w1) as [n' Hn'].
      destruct (mapM fromJSON elems w1) as [[ys|e] w2]; simpl in Hn'; subst w2;
        run; exists n'; reflexivity.
    + match goal with
      | |- context [new_Task ?v ?o w] =>
          destruct (new_Task_not_string v o w Hs) as [w' Hthrow];
          pose proof (preserves_new_Task (fun w => (manager w, stored w, dispatched w))
                        ltac:(reflexivity) v o w) as Hframe;
          rewrite Hthrow in *
      end.
      simpl in *. exists (reads w'). destruct w'; simpl in *.
      injection Hframe as -> -> ->. reflexivity.
Qed.

(** C9: [importTasks(data, true)] keeps every task of the collection at
    its index, unchanged, whether the call returns or throws; when the
    elements of [data] all reconstruct, the collection afterwards is the
    old one followed by exactly those reconstructed tasks whose id no
    existing task carries, and otherwise it is the old one. *)
Theorem importTasks_merge_keeps_existing (w : World) (elems : list Task.t) :
  let w' := snd (importTasks (ArrayOf elems) true w) in
  (forall i A, collection w !! i = Some A -> collection w' !! i = Some A) /\
  (forall importedTasks w1,
     mapM fromJSON elems w = (Ret importedTasks, w1) ->
     collection w' = collection w ++ newcomers (collection w) importedTasks) /\
  (forall e w1,
     mapM fromJSON elems w = (Throw e, w1) -> collection w' = collection w).
Proof.
  intros w'.
  assert (Hcases :
    match mapM fromJSON elems w with
    | (Ret importedTasks, _) =>
        collection w' = collection w ++ newcomers (collection w) importedTasks
    | (Throw _, _) => collection w' = collection w
    end).
  { subst w'. unfold importTasks. run.
    destruct (mapM_fromJSON_world elems w) as [n Hw1].
    destruct (mapM fromJSON elems w) as [[importedTasks|e] w1]; simpl in Hw1;
      subst w1; [|reflexivity].
    run. world. fold (newcomers (collection w) importedTasks).
    rewrite saveTasks_run. unfold collection. world.
    destruct (mapO toJSON _); run; reflexivity. }
  split; [|split].
  - intros i A Hi.
    destruct (mapM fromJSON elems w) as [[importedTasks|e] w1]; rewrite Hcases.
    + apply lookup_app_l_Some. exact Hi.
    + exact Hi.
  - intros importedTasks w1 E. rewrite E in Hcases. exact Hcases.
  - intros e w1 E. rewrite E in Hcases. exact Hcases.
Qed.

End Importing.

Lemma importTasks_merge_keeps_existing_witness :
  collection milkWorld !! 0%nat = Some (firstTask milkWorld) /\
  collection (snd (importTasks (host := sampleHost) (ArrayOf sampleImport) true milkWorld))
    !! 0%nat = Some (firstTask milkWorld) /\
  List.map Task.text
    (collection (snd (importTasks (host := sampleHost) (ArrayOf sampleImport) true milkWorld)))
  = [JStr (js "Buy milk"); JStr (js "Water plants")].
Proof.
  split; [reflexivity|].
  split; [|reflexivity].
  apply (proj1 (importTasks_merge_keeps_existing (host := sampleHost)
                  milkWorld sampleImport)).
  reflexivity.
Defined.

(** * The completion invariant through the manager *)

Section Consistency.
Context {host : Host}.

Lemma same_completion_consistent a b :
  same_completion a b -> completion_consistent b -> completion_consistent a.
Proof. unfold same_completion, completion_consistent. intros [-> ->]. auto. Qed.

Lemma kc_ret {A} (a : A) (Q : A -> Prop) : Q a -> keeps_consistent (mret a) Q.
Proof. intros Ha w Hw. split; [exact Hw|]. intros a' [= <-]. exact Ha. Qed.

Lemma kc_throw {A} e (Q : A -> Prop) : keeps_consistent (throw e) Q.
Proof. intros w Hw. split; [exact Hw | discriminate]. Qed.

Lemma kc_bind {A B} (m : M A) (k : A -> M B) (Q : A -> Prop) (R : B -> Prop) :
  keeps_consistent m Q -> (forall a, Q a -> keeps_consistent (k a) R) ->
  keeps_consistent (m ≫= k) R.
Proof.
  intros Hm Hk w Hw. rewrite bind_run. destruct (Hm w Hw) as [Hw1 HQ].
  destruct (m w) as [[a|e] w1]; simpl in *.
  - apply (Hk a (HQ a eq_refl) w1 Hw1).
  - split; [exact Hw1 | discriminate].
Qed.

Lemma kc_weaken {A} (m : M A) (Q R : A -> Prop) :
  keeps_consistent m Q -> (forall a, Q a -> R a) -> keeps_consistent m R.
Proof.
  intros Hm HQR w Hw. destruct (Hm w Hw) as [Hw1 HQ].
  split; [exact Hw1|]. intros a Ha. apply HQR, HQ, Ha.
Qed.

Lemma kc_try_catch {A} (m : M A) (h : Exn -> M A) (Q : A -> Prop) :
  keeps_consistent m Q -> (forall e, keeps_consistent (h e) Q) ->
  keeps_consistent (try_catch m h) Q.
Proof.
  intros Hm Hh w Hw. unfold try_catch. destruct (Hm w Hw) as [Hw1 HQ].
  destruct (m w) as [[a|e] w1]; simpl in *.
  - split; assumption.
  - apply (Hh e w1 Hw1).
Qed.

(** A computation that leaves the collection alone keeps it consistent. *)
Lemma kc_frame_result {A} (m : M A) (Q : A -> Prop) :
  preserves collection m -> (forall w a, fst (m w) = Ret a -> Q a) ->
  keeps_consistent m Q.
Proof.
  intros Hm HQ w Hw. split; [|apply HQ].
  unfold consistent. rewrite (Hm w). exact Hw.
Qed.

Lemma kc_frame {A} (m : M A) :
  preserves collection m -> keeps_consistent m (fun _ => True).
Proof. intros Hm. apply kc_frame_result; [exact Hm | auto]. Qed.

Lemma kc_this_tasks : keeps_consistent this_tasks (Forall completion_consistent).
Proof. intros w Hw. split; [exact Hw|]. intros l [= <-]. exact Hw. Qed.

Lemma kc_set_this_tasks l :
  Forall completion_consistent l ->
  keeps_consistent (set_this_tasks l) (fun _ => True).
Proof. intros Hl w _. split; [exact Hl | auto]. Qed.

Lemma kc_task_at i : keeps_consistent (task_at i) completion_consistent.
Proof.
  intros w Hw. rewrite task_at_run.
  destruct (collection w !! i) as [task|] eqn:E; simpl;
    (split; [exact Hw|]); [|discriminate].
  intros a [= <-]. exact (Forall_lookup_1 _ _ _ _ Hw E).
Qed.

Lemma kc_saveTasks : keeps_consistent saveTasks (fun _ => True).
Proof. apply kc_frame, preserves_saveTasks. intros; reflexivity. Qed.

Lemma kc_dispatchEvent e : keeps_consistent (dispatchEvent e) (fun _ => True).
Proof. apply kc_frame. intros w. reflexivity. Qed.

Lemma kc_mapM {A B} (f : A -> M B) (Q : B -> Prop) l :
  Forall (fun x => keeps_consistent (f x) Q) l ->
  keeps_consistent (mapM f l) (Forall Q).
Proof.
  induction 1 as [|x l Hx Hl IH]; simpl.
  - apply kc_ret. constructor.
  - eapply kc_bind; [exact Hx|]. intros y Hy.
    eapply kc_bind; [exact IH|]. intros ys Hys.
    apply kc_ret. constructor; assumption.
Qed.

Lemma kc_forEach {A} (body : A -> M unit) l :
  Forall (fun x => keeps_consistent (body x) (fun _ => True)) l ->
  keeps_consistent (forEach body l) (fun _ => True).
Proof.
  induction 1 as [|x l Hx Hl IH]; simpl.
  - apply kc_ret. exact I.
  - eapply kc_bind; [exact Hx|]. intros _ _. exact IH.
Qed.

(** The constructor builds a consistent task exactly from consistent
    overrides. *)
Lemma kc_new_Task text options :
  overrides_consistent options ->
  keeps_consistent (new_Task text options) completion_consistent.
Proof.
  intros Ho. apply kc_frame_result.
  { apply preserves_new_Task. intros; reflexivity. }
  intros w task E.
  destruct text as [| |?|?|s|?|?];
    try (match type of E with
         | fst (new_Task ?v _ _) = _ =>
             destruct (new_Task_not_string v options w eq_refl) as [w' Hthrow];
             rewrite Hthrow in E; discriminate E
         end).
  destruct (new_Task_run s options w)
    as (t & n & Hnew & _ & _ & _ & _ & Hc & _ & Hca & _).
  rewrite Hnew in E. injection E as <-.
  unfold completion_consistent. rewrite Hc, Hca. exact Ho.
Qed.

Lemma kc_fromJSON data :
  overrides_consistent data ->
  keeps_consistent (fromJSON data) completion_consistent.
Proof. intros Ho. apply kc_new_Task. exact Ho. Qed.

Lemma kc_toggle this :
  keeps_consistent (toggle this) completion_consistent.
Proof.
  apply kc_frame_result.
  { apply preserves_toggle. intros; reflexivity. }
  intros w this' E.
  destruct (toggle_consistent this w) as (t & w' & Htoggle & _ & Hcons & _).
  rewrite Htoggle in E. injection E as <-. exact Hcons.
Qed.

Lemma kc_setter (method : Task.t -> M (Task.t * bool)) :
  (forall task, preserves collection (method task)) ->
  (forall this w this' b w',
     method this w = (Ret (this', b), w') -> keeps_core this this') ->
  forall task, completion_consistent task ->
    keeps_consistent (method task) (fun r => completion_consistent r.1).
Proof.
  intros Hframe Hcore task Htask. apply kc_frame_result; [apply Hframe|].
  intros w [this' b] E.
  destruct (method task w) as [o w'] eqn:Em. simpl in E. subst o.
  eapply same_completion_consistent; [|exact Htask].
  exact (proj1 (Hcore _ _ _ _ _ Em)).
Qed.

Lemma kc_mutate_at {R} i (method : Task.t -> M (Task.t * R)) :
  (forall task, completion_consistent task ->
     keeps_consistent (method task) (fun r => completion_consistent r.1)) ->
  keeps_consistent (mutate_at i method) (fun _ => True).
Proof.
  intros Hmethod. unfold mutate_at.
  eapply kc_bind; [apply kc_task_at|]. intros task Htask.
  eapply kc_bind; [apply (Hmethod task Htask)|]. intros r Hr.
  eapply kc_bind; [apply kc_this_tasks|]. intros tasks Htasks.
  eapply kc_bind; [apply kc_set_this_tasks, Forall_insert; assumption|].
  intros _ _. apply kc_ret. exact I.
Qed.

(** The generic assignment of [updateTask] touches [completed] and
    [completedAt] only under their own keys. *)
Lemma assign_same_completion key value task task' :
  assign key value task = Some task' ->
  str_eqb key (js "completed") = false ->
  str_eqb key (js "completedAt") = false ->
  same_completion task' task.
Proof.
  unfold assign. intros H Hc Hca. rewrite Hc, Hca in H.
  repeat match type of H with
         | (if ?b then _ else _) = _ => destruct b
         end;
    try discriminate; injection H as <-; split; reflexivity.
Qed.

Lemma kc_applyUpdate i entry :
  str_eqb (fst entry) (js "completedAt") = false ->
  keeps_consistent (applyUpdate i entry) (fun _ => True).
Proof.
  destruct entry as [key value]. simpl. intros Hkey. unfold applyUpdate.
  destruct (str_eqb key (js "text") && truthy value).
  { eapply kc_bind; [|intros _ _; apply kc_ret; exact I].
    apply kc_mutate_at, kc_setter; [|apply updateText_core].
    intros task. apply preserves_updateText. intros; reflexivity. }
  destruct (str_eqb key (js "priority")).
  { eapply kc_bind; [|intros _ _; apply kc_ret; exact I].
    apply kc_mutate_at, kc_setter; [|apply setPriority_core].
    intros task. apply preserves_setPriority. intros; reflexivity. }
  destruct (str_eqb key (js "dueDate")).
  { eapply kc_bind; [|intros _ _; apply kc_ret; exact I].
    apply kc_mutate_at, kc_setter; [|apply setDueDate_core].
    intros task. apply preserves_setDueDate. intros; reflexivity. }
  destruct (str_eqb key (js "completed")) eqn:Hcompleted.
  { eapply kc_bind; [apply kc_task_at|]. intros task Htask.
    destruct (negb (strict_eq value (Task.completed task)));
      [|apply kc_ret; exact I].
    apply kc_mutate_at. intros t _.
    eapply kc_bind; [apply kc_toggle|]. intros t' Ht'.
    apply kc_ret. exact Ht'. }
  eapply kc_bind; [apply kc_task_at|]. intros task Htask.
  destruct (assign key value task) as [task'|] eqn:Hassign;
    [|apply kc_ret; exact I].
  apply kc_mutate_at. intros _ _.
  eapply kc_bind.
  { apply kc_frame. intros w. reflexivity. }
  intros updatedAt _. apply kc_ret. simpl.
  eapply same_completion_consistent; [|exact Htask].
  destruct (assign_same_completion _ _ _ _ Hassign Hcompleted Hkey) as [Hc Hca].
  split; simpl; assumption.
Qed.

Lemma kc_addTask text options :
  overrides_consistent options ->
  keeps_consistent (addTask text options) completion_consistent.
Proof.
  intros Ho. unfold addTask.
  destruct (negb (truthy text) || negb (is_string text) || _); [apply kc_throw|].
  eapply kc_bind; [apply kc_new_Task, Ho|]. intros task Htask.
  eapply kc_bind; [apply kc_this_tasks|]. intros tasks Htasks.
  eapply kc_bind; [apply kc_set_this_tasks; constructor; assumption|]. intros _ _.
  eapply kc_bind; [apply kc_saveTasks|]. intros _ _.
  eapply kc_bind; [apply kc_dispatchEvent|]. intros _ _.
  eapply kc_bind; [apply kc_dispatchEvent|]. intros _ _.
  apply kc_ret. exact Htask.
Qed.

Lemma kc_removeTask taskId :
  keeps_consistent (removeTask taskId) completion_consistent.
Proof.
  unfold removeTask.
  eapply kc_bind; [apply kc_this_tasks|]. intros tasks Htasks.
  destruct (findIndex (has_id taskId) tasks) as [index|]; [|apply kc_throw].
  destruct (tasks !! index) as [task|] eqn:Hlookup; [|apply kc_throw].
  eapply kc_bind.
  { apply kc_set_this_tasks, Forall_delete, Htasks. }
  intros _ _.
  eapply kc_bind; [apply kc_saveTasks|]. intros _ _.
  eapply kc_bind; [apply kc_dispatchEvent|]. intros _ _.
  eapply kc_bind; [apply kc_dispatchEvent|]. intros _ _.
  apply kc_ret. exact (Forall_lookup_1 _ _ _ _ Htasks Hlookup).
Qed.

Lemma kc_updateTask taskId updates :
  writes_completedAt updates = false ->
  keeps_consistent (updateTask taskId updates) completion_consistent.
Proof.
  intros Hupdates. unfold updateTask.
  eapply kc_bind; [apply kc_this_tasks|]. intros tasks Htasks.
  destruct (findIndex (has_id taskId) tasks) as [index|]; [|apply kc_throw].
  eapply kc_bind; [apply kc_task_at|]. intros oldTask _.
  eapply kc_bind.
  { apply kc_forEach. apply List.Forall_forall. intros entry Hentry.
    apply kc_applyUpdate.
    unfold writes_completedAt in Hupdates.
    destruct (str_eqb (fst entry) (js "completedAt")) eqn:E; [|reflexivity].
    rewrite <- Hupdates. symmetry. apply existsb_exists. eauto. }
  intros _ _.
  eapply kc_bind; [apply kc_saveTasks|]. intros _ _.
  eapply kc_bind; [apply kc_task_at|]. intros task Htask.
  eapply kc_bind; [apply kc_dispatchEvent|]. intros _ _.
  eapply kc_bind; [apply kc_dispatchEvent|]. intros _ _.
  apply kc_ret. exact Htask.
Qed.

Lemma kc_getTask taskId :
  keeps_consistent (getTask taskId) completion_consistent.
Proof.
  unfold getTask.
  eapply kc_bind; [apply kc_this_tasks|]. intros tasks Htasks.
  destruct (List.find (has_id taskId) tasks) as [task|] eqn:Hfind; [|apply kc_throw].
  apply kc_ret. apply find_some in Hfind.
  rewrite List.Forall_forall in Htasks. apply Htasks, Hfind.
Qed.

Lemma kc_toggleTask taskId :
  keeps_consistent (toggleTask taskId) completion_consistent.
Proof.
  unfold toggleTask.
  eapply kc_bind; [apply kc_getTask|]. intros task _.
  apply kc_updateTask. reflexivity.
Qed.

Lemma kc_bulkComplete taskIds :
  keeps_consistent (bulkComplete taskIds) (Forall completion_consistent).
Proof.
  induction taskIds as [|taskId rest IH]; simpl.
  - apply kc_ret. constructor.
  - eapply kc_bind.
    { apply kc_try_catch with (Q := Forall completion_consistent).
      - eapply kc_bind; [apply kc_getTask|]. intros task _.
        destruct (negb (truthy (Task.completed task))).
        + eapply kc_bind; [apply kc_toggleTask|]. intros task' Htask'.
          apply kc_ret. constructor; [exact Htask' | constructor].
        + apply kc_ret. constructor.
      - intros e. apply kc_ret. constructor. }
    intros pushed Hpushed.
    eapply kc_bind; [exact IH|]. intros others Hothers.
    apply kc_ret. apply Forall_app. split; assumption.
Qed.

Lemma kc_bulkDelete taskIds :
  keeps_consistent (bulkDelete taskIds) (Forall completion_consistent).
Proof.
  induction taskIds as [|taskId rest IH]; simpl.
  - apply kc_ret. constructor.
  - eapply kc_bind.
    { apply kc_try_catch with (Q := Forall completion_consistent).
      - eapply kc_bind; [apply kc_removeTask|]. intros task Htask.
        apply kc_ret. constructor; [exact Htask | constructor].
      - intros e. apply kc_ret. constructor. }
    intros pushed Hpushed.
    eapply kc_bind; [exact IH|]. intros others Hothers.
    apply kc_ret. apply Forall_app. split; assumption.
Qed.

Lemma Forall_List_filter {A} (P : A -> Prop) (p : A -> bool) l :
  Forall P l -> Forall P (List.filter p l).
Proof.
  induction 1 as [|x l Hx Hl IH]; simpl; [constructor|].
  destruct (p x); [constructor|]; assumption.
Qed.

Lemma kc_clearCompleted :
  keeps_consistent clearCompleted (Forall completion_consistent).
Proof.
  unfold clearCompleted.
  eapply kc_bind; [apply kc_this_tasks|]. intros tasks Htasks.
  eapply kc_bind; [apply kc_set_this_tasks, Forall_List_filter, Htasks|]. intros _ _.
  eapply kc_bind; [apply kc_saveTasks|]. intros _ _.
  eapply kc_bind; [apply kc_dispatchEvent|]. intros _ _.
  eapply kc_bind; [apply kc_dispatchEvent|]. intros _ _.
  apply kc_ret. apply Forall_List_filter, Htasks.
Qed.

Lemma kc_importTasks tasksData merge :
  match tasksData with
  | ArrayOf elems => Forall overrides_consistent elems
  | NotArray => True
  end ->
  keeps_consistent (importTasks tasksData merge) (fun _ => True).
Proof.
  destruct tasksData as [|elems]; simpl; intros Helems; [apply kc_throw|].
  eapply kc_bind.
  { apply kc_mapM with (Q := completion_consistent).
    eapply Forall_impl; [exact Helems|]. intros data. apply kc_fromJSON. }
  intros importedTasks Himported.
  eapply kc_bind; [apply kc_this_tasks|]. intros tasks Htasks.
  eapply kc_bind.
  { destruct merge; apply kc_set_this_tasks; [|exact Himported].
    apply Forall_app. split; [exact Htasks|].
    apply Forall_List_filter, Himported. }
  intros _ _.
  eapply kc_bind; [apply kc_saveTasks|]. intros _ _.
  eapply kc_bind; [apply kc_this_tasks|]. intros tasks' _.
  eapply kc_bind; [apply kc_dispatchEvent|]. intros _ _.
  eapply kc_bind; [apply kc_dispatchEvent|]. intros _ _.
  apply kc_ret. exact I.
Qed.

Lemma kc_reset : keeps_consistent reset (fun _ => True).
Proof.
  unfold reset.
  eapply kc_bind; [apply kc_frame; intros w; reflexivity|]. intros m _.
  eapply kc_bind with (Q := fun _ => True).
  { intros w _. split; [constructor | auto]. }
  intros _ _.
  eapply kc_bind; [apply kc_saveTasks|]. intros _ _.
  eapply kc_bind; [apply kc_dispatchEvent|]. intros _ _.
  apply kc_dispatchEvent.
Qed.

Lemma new_TaskManager_consistent storage :
  Forall overrides_consistent storage -> consistent (new_TaskManager storage).
Proof.
  intros Hstorage. unfold new_TaskManager, loadTasks, try_catch.
  set (w0 := mkWorld _ storage [] 0).
  assert (Hw0 : consistent w0) by constructor.
  rewrite bind_run. change (storage_loadTasks w0) with (Ret storage, w0).
  cbv beta iota.
  assert (Hload : keeps_consistent
            (tasks ← mapM fromJSON storage;
             set_this_tasks tasks;;
             dispatchEvent (tasksLoaded (length tasks));;
             dispatchEvent tasksChanged) (fun _ => True)).
  { eapply kc_bind.
    { apply kc_mapM with (Q := completion_consistent).
      eapply Forall_impl; [exact Hstorage|]. intros data. apply kc_fromJSON. }
    intros tasks Htasks.
    eapply kc_bind; [apply kc_set_this_tasks, Htasks|]. intros _ _.
    eapply kc_bind; [apply kc_dispatchEvent|]. intros _ _.
    apply kc_dispatchEvent. }
  destruct (Hload w0 Hw0) as [Hafter _].
  match type of Hafter with
  | consistent (snd (?m w0)) => destruct (m w0) as [[a|e] w1]
  end; simpl in *; [exact Hafter | constructor].
Qed.

(** C3 (amended): [toggle] returns a task whose [completedAt] is
    non-null exactly when its [completed] is [true], having set
    [completedAt] where [completed] became true and cleared it where
    [completed] became false; the constructor builds such a task exactly
    when the [completed] and [completedAt] it is given agree after their
    defaults, and the entity's setters leave both fields alone.  Through
    the manager, a collection in which every task has [completedAt]
    non-null exactly when [completed] is [true] stays so, whether the
    call returns or throws, under [addTask] with agreeing overrides,
    [removeTask], [updateTask] with no entry under the key
    [completedAt], [toggleTask], [bulkComplete], [bulkDelete],
    [clearCompleted], [importTasks] of elements whose two properties
    agree, and [reset]; the tasks these calls return are of the same
    kind, and so is the collection of a manager constructed over stored
    elements whose two properties agree. *)
Theorem completion_consistency :
  (forall this w, exists this' w',
      toggle this w = (Ret this', w') /\
      completion_consistent this' /\
      Task.completed this' = js_not (Task.completed this) /\
      (Task.completed this' = JBool true ->
         Task.completedAt this' = JStr (isoNow (reads w))) /\
      (Task.completed this' = JBool false -> Task.completedAt this' = JNull)) /\
  (forall s options w, exists task w',
      new_Task (JStr s) options w = (Ret task, w') /\
      Task.completed task = js_or (Task.completed options) (JBool false) /\
      Task.completedAt task = js_or (Task.completedAt options) JNull /\
      (completion_consistent task <-> overrides_consistent options) /\
      (truthy (Task.completed options) = false ->
       truthy (Task.completedAt options) = false ->
       completion_consistent task)) /\
  (forall this w this' b w' v,
      updateText v this w = (Ret (this', b), w') \/
      setPriority v this w = (Ret (this', b), w') \/
      addTag v this w = (Ret (this', b), w') \/
      removeTag v this w = (Ret (this', b), w') \/
      setDueDate v this w = (Ret (this', b), w') ->
      same_completion this' this) /\
  (forall text options,
      overrides_consistent options ->
      keeps_consistent (addTask text options) completion_consistent) /\
  (forall taskId, keeps_consistent (removeTask taskId) completion_consistent) /\
  (forall taskId updates,
      writes_completedAt updates = false ->
      keeps_consistent (updateTask taskId updates) completion_consistent) /\
  (forall taskId, keeps_consistent (toggleTask taskId) completion_consistent) /\
  (forall taskIds,
      keeps_consistent (bulkComplete taskIds) (Forall completion_consistent)) /\
  (forall taskIds,
      keeps_consistent (bulkDelete taskIds) (Forall completion_consistent)) /\
  keeps_consistent clearCompleted (Forall completion_consistent) /\
  (forall tasksData merge,
      match tasksData with
      | ArrayOf elems => Forall overrides_consistent elems
      | NotArray => True
      end ->
      keeps_consistent (importTasks tasksData merge) (fun _ => True)) /\
  keeps_consistent reset (fun _ => True) /\
  (forall storage,
      Forall overrides_consistent storage -> consistent (new_TaskManager storage)).
Proof.
  split; [|split; [|split]].
  - intros this w. rewrite toggle_run. unfold js_not, completion_consistent.
    destruct (truthy (Task.completed this)); eexists _, _;
      (split; [reflexivity|]); simpl; repeat split; congruence.
  - intros s options w.
    destruct (new_Task_run s options w)
      as (task & n & Hnew & _ & _ & _ & _ & Hc & _ & Hca & _).
    eexists _, _. split; [exact Hnew|]. split; [exact Hc|]. split; [exact Hca|].
    unfold completion_consistent, overrides_consistent. rewrite Hc, Hca.
    split; [reflexivity|].
    intros H H0. unfold js_or. rewrite H, H0.
    split; [intros Hn; elim Hn; reflexivity | discriminate].
  - intros this w this' b w' v [H|[H|[H|[H|H]]]].
    + apply (updateText_core _ _ _ _ _ _ H).
    + apply (setPriority_core _ _ _ _ _ _ H).
    + apply (addTag_core _ _ _ _ _ _ H).
    + apply (removeTag_core _ _ _ _ _ _ H).
    + apply (setDueDate_core _ _ _ _ _ _ H).
  - split; [exact kc_addTask|]. split; [exact kc_removeTask|].
    split; [exact kc_updateTask|]. split; [exact kc_toggleTask|].
    split; [exact kc_bulkComplete|]. split; [exact kc_bulkDelete|].
    split; [exact kc_clearCompleted|]. split; [exact kc_importTasks|].
    split; [exact kc_reset | exact new_TaskManager_consistent].
Qed.

End Consistency.

Lemma completion_consistency_witness :
  consistent milkWorld /\
  consistent (snd (toggleTask (host := sampleHost) milkId milkWorld)) /\
  List.map Task.completed
    (collection (snd (toggleTask (host := sampleHost) milkId milkWorld)))
  = [JBool true].
Proof.
  assert (H : consistent milkWorld).
  { repeat constructor; [intros Hn; elim Hn; reflexivity | discriminate]. }
  split; [exact H|].
  split; [|reflexivity].
  destruct (completion_consistency (host := sampleHost))
    as (_ & _ & _ & _ & _ & _ & Htoggle & _).
  exact (proj1 (Htoggle milkId milkWorld H)).
Defined.

(** C3 (as stated) fails: [addTask] with the override [completed: true]
    puts a task in the collection whose [completed] is [true] and whose
    [completedAt] is [null]; and [updateTask] with an entry under the
    key [completedAt] leaves a task whose [completed] is [false] and
    whose [completedAt] is not null. *)
Lemma completion_override_counterexample :
  (exists task w',
     addTask (host := sampleHost) (JStr (js "Pay rent"))
       (Task.set_completed (JBool true) Task.empty) freshWorld = (Ret task, w') /\
     In task (collection w') /\
     Task.completed task = JBool true /\
     Task.completedAt task = JNull /\
     ~ completion_consistent task) /\
  (exists task w',
     consistent milkWorld /\
     updateTask (host := sampleHost) milkId
       [(js "completedAt", JStr (js "2024-05-02T08:00:00.000Z"))] milkWorld
     = (Ret task, w') /\
     In task (collection w') /\
     Task.completed task = JBool false /\
     Task.completedAt task = JStr (js "2024-05-02T08:00:00.000Z") /\
     ~ completion_consistent task).
Proof.
  split.
  - eexists _, _. split; [vm_compute; reflexivity|].
    split; [left; reflexivity|].
    split; [reflexivity|]. split; [reflexivity|].
    unfold completion_consistent. simpl. intros [_ H].
    apply (H eq_refl). reflexivity.
  - eexists _, _.
    split.
    { repeat constructor; [intros Hn; elim Hn; reflexivity | discriminate]. }
    split; [vm_compute; reflexivity|].
    split; [left; reflexivity|].
    split; [reflexivity|]. split; [reflexivity|].
    unfold completion_consistent. simpl. intros [H _].
    discriminate (H ltac:(discriminate)).
Qed.

(** * The specification's example scenario

    Start empty, add "Buy milk", add "Call dentist" with high priority:
    the view sorted by priority, descending, lists "Call dentist" first. *)
Example scenario_priority_descending :
  let w1 := snd (addTask (host := sampleHost) (JStr (js "Buy milk")) Task.empty freshWorld) in
  let w2 := snd (addTask (host := sampleHost) (JStr (js "Call dentist"))
                   (Task.set_priority (JStr (js "high")) Task.empty) w1) in
  let w3 := snd (setSorting (JStr (js "priority")) (JStr (js "desc")) w2) in
  option_map (List.map Task.text)
    (match fst (getFilteredTasks (host := sampleHost) w3) with
     | Ret shown => Some shown
     | Throw _ => None
     end)
  = Some [JStr (js "Call dentist"); JStr (js "Buy milk")].
Proof. reflexivity. Qed.

(** * Further properties of the entity *)

Section Setters.
Context {host : Host}.

Ltac setter_done :=
  intros;
  match goal with
  | H : (_, _) = (_, _) |- _ => first [discriminate H | injection H as <- <- <-]
  end;
  unfold setter_result; simpl; repeat split; reflexivity.

(** X1: each of [updateText], [setPriority], [setDueDate], [addTag] and
    [removeTag] either reports [true], having read the clock once and
    stamped [updatedAt] with the reading ([id] and [createdAt] kept), or
    reports [false] and leaves the task and the world exactly as they
    were. *)
Theorem setters_stamp_or_keep (this : Task.t) (w : World) (v : JsVal)
    (this' : Task.t) (ok : bool) (w' : World) :
  updateText v this w = (Ret (this', ok), w') \/
  setPriority v this w = (Ret (this', ok), w') \/
  setDueDate v this w = (Ret (this', ok), w') \/
  addTag v this w = (Ret (this', ok), w') \/
  removeTag v this w = (Ret (this', ok), w') ->
  setter_result this w this' ok w'.
Proof.
  intros [H|[H|[H|[H|H]]]]; revert H.
  - unfold updateText. destruct v as [| |?|?|s|?|?]; run; try setter_done.
    destruct (trim s) as [|c t] eqn:E; simpl; run; setter_done.
  - unfold setPriority. destruct (arr_includes _ v); run; setter_done.
  - unfold setDueDate.
    destruct v as [| |?|?|[|? ?]|[?|]|?]; run; setter_done.
  - unfold addTag, normalizeTag, call_trim.
    destruct v as [| |?|?|s|?|?]; run; try discriminate.
    destruct (truthy (JStr (toLowerCase (trim s)))); simpl; run; [|setter_done].
    destruct (Task.tags this) as [| |?|?|t|?|l]; run; try discriminate.
    + destruct (str_includes t _); run; setter_done.
    + destruct (arr_includes l _); run; setter_done.
  - unfold removeTag, normalizeTag, call_trim.
    destruct v as [| |?|?|s|?|?]; run; try discriminate.
    destruct (Task.tags this) as [| |?|?|t|?|l]; run; try discriminate.
    + destruct (str_includes t _); run; setter_done.
    + destruct (arr_indexOf l _); run; setter_done.
Qed.

End Setters.

Lemma setters_stamp_or_keep_witness :
  setPriority (host := sampleHost) (JStr (js "urgent")) (firstTask milkWorld) milkWorld
    = (Ret (firstTask milkWorld, false), milkWorld) /\
  setter_result (host := sampleHost) (firstTask milkWorld) milkWorld
    (firstTask milkWorld) false milkWorld.
Proof.
  split; [reflexivity|].
  apply (setters_stamp_or_keep (host := sampleHost) (firstTask milkWorld) milkWorld
           (JStr (js "urgent"))).
  right. left. reflexivity.
Defined.

Section Tags.
Context {host : Host}.

Lemma arr_includes_app l k v :
  arr_includes (l ++ k) v = arr_includes l v || arr_includes k v.
Proof. unfold arr_includes. apply existsb_app. Qed.

Lemma arr_includes_absent l s :
  arr_includes l (JStr s) = false -> JStr s ∉ l.
Proof.
  induction l as [|x l IH]; simpl; [intros _; apply not_elem_of_nil|].
  rewrite orb_false_iff. intros [Hx Hl].
  apply not_elem_of_cons. split; [|auto].
  intros <-. simpl in Hx. rewrite str_eqb_refl in Hx. discriminate.
Qed.

Lemma arr_indexOf_new l s :
  arr_includes l (JStr s) = false ->
  arr_indexOf (l ++ [JStr s]) (JStr s) = Some (length l).
Proof.
  induction l as [|x l IH]; simpl.
  - intros _. rewrite str_eqb_refl. reflexivity.
  - rewrite orb_false_iff. intros [-> Hl]. rewrite (IH Hl). reflexivity.
Qed.

Lemma addTag_accepted (tag : JsVal) (this : Task.t) (w : World) l this' w' :
  Task.tags this = JArr l ->
  addTag tag this w = (Ret (this', true), w') ->
  exists s,
    tag = JStr s /\ toLowerCase (trim s) <> [] /\
    arr_includes l (JStr (toLowerCase (trim s))) = false /\
    this' = Task.set_updatedAt (JStr (isoNow (reads w)))
              (Task.set_tags (JArr (l ++ [JStr (toLowerCase (trim s))])) this) /\
    w' = tick w.
Proof.
  intros Htags. unfold addTag, normalizeTag, call_trim.
  destruct tag as [| |?|?|s|?|?]; run; try discriminate.
  destruct (toLowerCase (trim s)) as [|c t] eqn:E; simpl; run; [discriminate|].
  rewrite Htags.
  destruct (arr_includes l _) eqn:Hin; run; [discriminate|].
  intros [= <- <-]. exists s. rewrite E. repeat split; try assumption. discriminate.
Qed.

Lemma addTag_refused (tag : JsVal) (this : Task.t) (w : World) this' w' :
  addTag tag this w = (Ret (this', false), w') -> this' = this.
Proof.
  unfold addTag, normalizeTag, call_trim.
  destruct tag as [| |?|?|s|?|?]; run; try discriminate.
  destruct (truthy (JStr (toLowerCase (trim s)))); simpl; run;
    [|intros [= <- _]; reflexivity].
  destruct (Task.tags this) as [| |?|?|t|?|l]; run; try discriminate.
  - destruct (str_includes t _); run; [intros [= <- _]; reflexivity | discriminate].
  - destruct (arr_includes l _); run; [intros [= <- _]; reflexivity | discriminate].
Qed.

(** X2: on a task whose [tags] is an array without repeated elements,
    whatever [addTag] or [removeTag] returns still has an array without
    repeated elements as its [tags]. *)
Theorem tags_stay_distinct (this : Task.t) (w : World) (l : list JsVal)
    (tag : JsVal) (this' : Task.t) (ok : bool) (w' : World) :
  Task.tags this = JArr l -> NoDup l ->
  addTag tag this w = (Ret (this', ok), w') \/
  removeTag tag this w = (Ret (this', ok), w') ->
  exists l', Task.tags this' = JArr l' /\ NoDup l'.
Proof.
  intros Htags Hdup [H|H].
  - destruct ok.
    + destruct (addTag_accepted _ _ _ _ _ _ Htags H) as (s & _ & _ & Hnew & -> & _).
      eexists. split; [reflexivity|].
      apply NoDup_app. split; [exact Hdup|]. split; [|apply NoDup_singleton].
      intros x Hx Hs. apply list_elem_of_singleton in Hs. subst x.
      exact (arr_includes_absent _ _ Hnew Hx).
    + rewrite (addTag_refused _ _ _ _ _ H). eauto.
  - revert H. unfold removeTag, normalizeTag, call_trim.
    destruct tag as [| |?|?|s|?|?]; run; try discriminate.
    rewrite Htags. destruct (arr_indexOf l _) as [index|]; run.
    + intros [= <- _ _]. eexists. split; [reflexivity|].
      eapply sublist_NoDup; [exact Hdup | apply sublist_delete].
    + intros [= <- _ _]. eauto.
Qed.

(** X3: when [addTag] reports [true] on a task whose [tags] is an array,
    the normalized tag (trimmed, lower-cased, non-empty) was not among
    the tags and is now their last element; adding the same tag again
    reports [false] and changes nothing; removing it reports [true] and
    gives the original tags back. *)
Theorem tag_added_once_then_removable (this : Task.t) (w : World)
    (l : list JsVal) (tag : JsVal) (this' : Task.t) (w' : World) :
  Task.tags this = JArr l ->
  addTag tag this w = (Ret (this', true), w') ->
  exists s,
    tag = JStr s /\ toLowerCase (trim s) <> [] /\
    (JStr (toLowerCase (trim s)) ∉ l) /\
    Task.tags this' = JArr (l ++ [JStr (toLowerCase (trim s))]) /\
    addTag tag this' w' = (Ret (this', false), w') /\
    exists this'' w'',
      removeTag tag this' w' = (Ret (this'', true), w'') /\
      Task.tags this'' = JArr l /\
      Task.text this'' = Task.text this /\
      Task.id this'' = Task.id this.
Proof.
  intros Htags Hadd.
  destruct (addTag_accepted _ _ _ _ _ _ Htags Hadd) as (s & -> & Hne & Hnew & -> & ->).
  exists s. split; [reflexivity|]. split; [exact Hne|].
  split; [apply arr_includes_absent; exact Hnew|].
  split; [reflexivity|].
  set (t := toLowerCase (trim s)) in *.
  assert (Htruthy : truthy (JStr t) = true) by (destruct t; [elim Hne|]; reflexivity).
  split.
  - unfold addTag, normalizeTag, call_trim. run. fold t. rewrite Htruthy. simpl.
    rewrite arr_includes_app. simpl. rewrite str_eqb_refl, orb_true_r. reflexivity.
  - unfold removeTag, normalizeTag, call_trim. run. fold t. simpl.
    rewrite (arr_indexOf_new _ _ Hnew). run.
    eexists _, _. split; [reflexivity|]. simpl.
    rewrite (delete_middle l [] (JStr t)), app_nil_r. repeat split.
Qed.

End Tags.

Lemma tags_stay_distinct_witness :
  exists this' w',
    addTag (host := sampleHost) (JStr (js " Home ")) (firstTask milkWorld) milkWorld
      = (Ret (this', true), w') /\
    exists l', Task.tags this' = JArr l' /\ NoDup l'.
Proof.
  eexists _, _. split; [vm_compute; reflexivity|].
  eapply (tags_stay_distinct (host := sampleHost) (firstTask milkWorld) milkWorld []
            (JStr (js " Home "))).
  - reflexivity.
  - constructor.
  - left. vm_compute. reflexivity.
Defined.

Lemma tag_added_once_then_removable_witness :
  exists this' w',
    addTag (host := sampleHost) (JStr (js " Home ")) (firstTask milkWorld) milkWorld
      = (Ret (this', true), w') /\
    Task.tags this' = JArr [JStr (js "home")] /\
    addTag (host := sampleHost) (JStr (js " Home ")) this' w' = (Ret (this', false), w').
Proof.
  eexists _, _. split; [vm_compute; reflexivity|].
  split; [reflexivity|].
  match goal with
  | |- addTag _ ?t ?w = _ =>
      destruct (tag_added_once_then_removable (host := sampleHost)
                  (firstTask milkWorld) milkWorld [] (JStr (js " Home ")) t w)
        as (s & _ & _ & _ & _ & Hagain & _)
  end.
  - reflexivity.
  - vm_compute. reflexivity.
  - exact Hagain.
Defined.

(** * Further properties of the collection manager *)

Section Lookup.
Context {host : Host}.

Lemma find_existsb {A} (p : A -> bool) (l : list A) :
  existsb p l = false -> List.find p l = None.
Proof.
  induction l as [|x l IH]; simpl; [reflexivity|].
  destruct (p x); simpl; [discriminate | exact IH].
Qed.

(** X4: [getTask], [updateTask] and [toggleTask] on an id that no task
    of the collection carries throw the not-found error and leave the
    world exactly as it was: nothing is mutated, persisted or
    dispatched. *)
Theorem lookups_reject_absent_id (w : World) (taskId : JsVal) :
  existsb (has_id taskId) (collection w) = false ->
  getTask taskId w = (Throw NotFoundError, w) /\
  (forall updates, updateTask taskId updates w = (Throw NotFoundError, w)) /\
  toggleTask taskId w = (Throw NotFoundError, w).
Proof.
  intros Habsent.
  assert (Hget : getTask taskId w = (Throw NotFoundError, w)).
  { unfold getTask. run. rewrite (find_existsb _ _ Habsent). reflexivity. }
  split; [exact Hget|]. split.
  - intros updates. unfold updateTask. run.
    rewrite (proj2 (findIndex_existsb _ _) Habsent). reflexivity.
  - unfold toggleTask. run. rewrite Hget. reflexivity.
Qed.

(** What a returning [addTask] did. *)
Lemma addTask_returned text options w task w' :
  addTask text options w = (Ret task, w') ->
  exists s n taskData,
    text = JStr s /\ trim s <> [] /\
    new_Task (JStr s) options w
      = (Ret task, mkWorld (manager w) (stored w) (dispatched w) n) /\
    mapO toJSON (task :: collection w) = Ret taskData /\
    w' = mkWorld (TaskManager.set_tasks (task :: collection w) (manager w))
                 (persisted (S (S n)) taskData (stored w))
                 (dispatched w ++ [taskAdded task; tasksChanged]) (S (S n)).
Proof.
  unfold addTask.
  destruct (negb (truthy text) || negb (is_string text) || _) eqn:Hguard;
    [discriminate|].
  destruct text as [| |?|?|s|?|?];
    try (simpl in Hguard; rewrite ?orb_true_r in Hguard; discriminate Hguard).
  assert (Hs : trim s <> []).
  { intros E. rewrite E in Hguard. simpl in Hguard.
    rewrite orb_true_r in Hguard. discriminate. }
  destruct (new_Task_run s options w) as (t & n & Hnew & _).
  run. rewrite Hnew. run. rewrite saveTasks_run. unfold collection. world.
  destruct (mapO toJSON (t :: TaskManager.tasks (manager w))) as [taskData|e] eqn:E;
    run; [|discriminate].
  world. intros [= <- <-]. exists s, n, taskData.
  rewrite <- app_assoc. repeat split; assumption.
Qed.

Lemma removeTask_run w taskId i task :
  findIndex (has_id taskId) (collection w) = Some i ->
  collection w !! i = Some task ->
  removeTask taskId w =
  match mapO toJSON (delete i (collection w)) with
  | Ret taskData =>
      (Ret task,
       mkWorld (TaskManager.set_tasks (delete i (collection w)) (manager w))
               (persisted (S (S (reads w))) taskData (stored w))
               (dispatched w ++ [taskRemoved task; tasksChanged]) (S (S (reads w))))
  | Throw e =>
      (Throw e,
       mkWorld (TaskManager.set_tasks (delete i (collection w)) (manager w))
               (stored w) (dispatched w) (reads w))
  end.
Proof.
  intros Hfind Hlookup. unfold removeTask. run. rewrite Hfind, Hlookup. run.
  rewrite saveTasks_run. unfold collection. world.
  destruct (mapO toJSON _); run; world; [|reflexivity].
  rewrite <- app_assoc. reflexivity.
Qed.

(** X5: once [addTask] has returned a task whose id is a primitive (so
    that it compares equal to itself), [getTask] on that id returns this
    very task, also when an older task carries the same id, and
    [removeTask] on that id returns it and gives back the collection
    that [addTask] had found. *)
Theorem added_task_found_and_removable (w : World) (text : JsVal)
    (options : Task.t) (task : Task.t) (w' : World) :
  addTask text options w = (Ret task, w') ->
  strict_eq (Task.id task) (Task.id task) = true ->
  getTask (Task.id task) w' = (Ret task, w') /\
  exists w'',
    removeTask (Task.id task) w' = (Ret task, w'') /\
    collection w'' = collection w /\
    viewSettings w'' = viewSettings w.
Proof.
  intros Hadd Hid.
  destruct (addTask_returned _ _ _ _ _ Hadd)
    as (s & n & taskData & _ & _ & _ & Hjson & ->).
  split.
  - unfold getTask. run. unfold collection, has_id. world. simpl.
    rewrite Hid. reflexivity.
  - erewrite removeTask_run with (i := 0%nat) (task := task);
      [| unfold collection, has_id; world; simpl; rewrite Hid; reflexivity
       | reflexivity ].
    unfold collection in *. world. simpl in *.
    destruct (toJSON task); simpl in Hjson; [|discriminate].
    destruct (mapO toJSON (TaskManager.tasks (manager w))); simpl in Hjson;
      [|discriminate].
    eexists. split; [reflexivity|]. split; reflexivity.
Qed.

(** X6: [removeTask] on an id the manager finds removes the first task
    carrying it and nothing else: the tasks before it and after it stay
    in their order and the collection is one shorter.  When what remains
    serializes, the task is returned, the storage manager is handed the
    remaining list (it reads the clock twice and keeps the list unless
    [localStorage] refuses it), and [taskRemoved] then [tasksChanged]
    are dispatched; when it does not, the call throws a [TypeError] with
    the removal done, nothing stored and nothing dispatched. *)
Theorem removeTask_removes_first_match (w : World) (taskId : JsVal)
    (i : nat) (task : Task.t) :
  findIndex (has_id taskId) (collection w) = Some i ->
  collection w !! i = Some task ->
  exists w',
    snd (removeTask taskId w) = w' /\
    collection w' = take i (collection w) ++ drop (S i) (collection w) /\
    S (length (collection w')) = length (collection w) /\
    (forall j, (j < i)%nat -> has_id taskId <$> (collection w !! j) = Some false) /\
    viewSettings w' = viewSettings w /\
    (storable (collection w') = true ->
     exists taskData,
       removeTask taskId w = (Ret task, w') /\
       mapO toJSON (collection w') = Ret taskData /\
       reads w' = S (S (reads w)) /\
       stored w' = persisted (reads w') taskData (stored w) /\
       dispatched w' = dispatched w ++ [taskRemoved task; tasksChanged]) /\
    (storable (collection w') = false ->
     removeTask taskId w = (Throw TypeError, w') /\
     stored w' = stored w /\ dispatched w' = dispatched w).
Proof.
  intros Hfind Hlookup.
  pose proof (removeTask_run _ _ _ _ Hfind Hlookup) as Hrun.
  exists (snd (removeTask taskId w)). split; [reflexivity|].
  assert (Hcollection :
    collection (snd (removeTask taskId w)) = delete i (collection w)).
  { rewrite Hrun. destruct (mapO toJSON _); reflexivity. }
  rewrite Hcollection.
  split; [apply delete_take_drop|].
  split.
  { rewrite length_delete by eauto.
    pose proof (lookup_lt_Some _ _ _ Hlookup). lia. }
  split.
  { clear -Hfind. revert i Hfind.
    induction (collection w) as [|x l IH]; simpl; [discriminate|].
    intros i. destruct (has_id taskId x) eqn:Hx.
    - intros [= <-] j Hj. lia.
    - destruct (findIndex (has_id taskId) l) as [k|]; simpl; [|discriminate].
      intros [= <-] [|j] Hj; simpl; [rewrite Hx; reflexivity|].
      apply (IH k eq_refl). lia. }
  split.
  { rewrite Hrun. destruct (mapO toJSON _); reflexivity. }
  split.
  - intros Hstore. destruct (mapO_toJSON_storable _ Hstore) as [taskData HtaskData].
    exists taskData. rewrite Hrun, HtaskData. repeat split.
  - intros Hstore. rewrite Hrun, (mapO_toJSON_unstorable _ Hstore). repeat split.
Qed.

End Lookup.

Lemma lookups_reject_absent_id_witness :
  existsb (has_id (JStr (js "task-0"))) (collection milkWorld) = false /\
  toggleTask (host := sampleHost) (JStr (js "task-0")) milkWorld
    = (Throw NotFoundError, milkWorld).
Proof.
  split; [reflexivity|].
  apply (lookups_reject_absent_id (host := sampleHost) milkWorld (JStr (js "task-0"))).
  reflexivity.
Defined.

Lemma added_task_found_and_removable_witness :
  exists task w' w'',
    addTask (host := sampleHost) (JStr (js " Buy milk ")) Task.empty freshWorld
      = (Ret task, w') /\
    getTask (Task.id task) w' = (Ret task, w') /\
    removeTask (host := sampleHost) (Task.id task) w' = (Ret task, w'') /\
    collection w'' = [].
Proof.
  destruct (addTask (host := sampleHost) (JStr (js " Buy milk ")) Task.empty freshWorld)
    as [[task|e] w'] eqn:Hadd; [|vm_compute in Hadd; discriminate Hadd].
  assert (Hid : strict_eq (Task.id task) (Task.id task) = true).
  { vm_compute in Hadd. injection Hadd as <- _. reflexivity. }
  destruct (added_task_found_and_removable (host := sampleHost) _ _ _ _ _ Hadd Hid)
    as (Hget & w'' & Hremove & Hcollection & _).
  exists task, w', w''. repeat split; assumption.
Defined.

Lemma removeTask_removes_first_match_witness :
  exists w',
    removeTask (host := sampleHost) milkId milkWorld = (Ret (firstTask milkWorld), w') /\
    collection w' = [] /\
    dispatched w' = dispatched milkWorld ++ [taskRemoved (firstTask milkWorld); tasksChanged].
Proof.
  destruct (removeTask_removes_first_match (host := sampleHost) milkWorld milkId 0
              (firstTask milkWorld))
    as (w' & Hw' & Hcollection & _ & _ & _ & Hreturns & _);
    [reflexivity | reflexivity |].
  destruct Hreturns as (taskData & Hrun & _ & _ & _ & Hevents).
  { rewrite Hcollection. reflexivity. }
  exists w'. split; [exact Hrun|]. split; [exact Hcollection | exact Hevents].
Defined.

Section Clearing.
Context {host : Host}.

Lemma List_filter_sublist {A} (p : A -> bool) (l : list A) :
  List.filter p l `sublist_of` l.
Proof.
  induction l as [|x l IH]; simpl; [constructor|].
  destruct (p x); [apply sublist_skip | apply sublist_cons]; exact IH.
Qed.

Lemma List_filter_partition {A} (p : A -> bool) (l : list A) :
  length l = (length (List.filter p l)
              + length (List.filter (fun x => negb (p x)) l))%nat.
Proof.
  induction l as [|x l IH]; simpl; [reflexivity|].
  destruct (p x); simpl; lia.
Qed.

Lemma List_filter_twice {A} (p : A -> bool) (l : list A) :
  List.filter p (List.filter p l) = List.filter p l.
Proof.
  induction l as [|x l IH]; simpl; [reflexivity|].
  destruct (p x) eqn:E; simpl; [rewrite E, IH|]; auto.
Qed.

Lemma List_filter_none {A} (p : A -> bool) (l : list A) :
  List.filter p (List.filter (fun x => negb (p x)) l) = [].
Proof.
  induction l as [|x l IH]; simpl; [reflexivity|].
  destruct (p x) eqn:E; simpl; [|rewrite E]; auto.
Qed.

Lemma storable_sublist l k :
  k `sublist_of` l -> storable l = true -> storable k = true.
Proof.
  unfold storable. rewrite !forallb_forall. intros Hsub Hl x Hx.
  apply Hl. rewrite <- list_elem_of_In in *. eapply elem_of_sublist; eauto.
Qed.

Lemma clearCompleted_run w :
  let kept :=
    List.filter (fun task => negb (truthy (Task.completed task))) (collection w) in
  let removed :=
    List.filter (fun task => truthy (Task.completed task)) (collection w) in
  clearCompleted w =
  match mapO toJSON kept with
  | Ret taskData =>
      (Ret removed,
       mkWorld (TaskManager.set_tasks kept (manager w))
               (persisted (S (S (reads w))) taskData (stored w))
               (dispatched w ++ [completedCleared (length removed); tasksChanged])
               (S (S (reads w))))
  | Throw e =>
      (Throw e,
       mkWorld (TaskManager.set_tasks kept (manager w)) (stored w)
               (dispatched w) (reads w))
  end.
Proof.
  intros kept removed. unfold clearCompleted. run. fold kept. fold removed.
  rewrite saveTasks_run. unfold collection. world.
  destruct (mapO toJSON kept); run; world; [|reflexivity].
  rewrite <- app_assoc. reflexivity.
Qed.

(** X7: on a collection that serializes, [clearCompleted] returns the
    tasks whose [completed] is truthy and keeps the others, both in
    their original order and together as many as before; it dispatches
    [completedCleared] with the number removed, then [tasksChanged]; a
    second [clearCompleted] right after removes nothing. *)
Theorem clearCompleted_partitions (w : World) :
  storable (collection w) = true ->
  exists removed w',
    clearCompleted w = (Ret removed, w') /\
    (forall task, In task removed <->
       In task (collection w) /\ truthy (Task.completed task) = true) /\
    (forall task, In task (collection w') <->
       In task (collection w) /\ truthy (Task.completed task) = false) /\
    removed `sublist_of` collection w /\
    collection w' `sublist_of` collection w /\
    length (collection w) = (length removed + length (collection w'))%nat /\
    dispatched w'
      = dispatched w ++ [completedCleared (length removed); tasksChanged] /\
    exists w'',
      clearCompleted w' = (Ret [], w'') /\ collection w'' = collection w'.
Proof.
  intros Hstore. rewrite clearCompleted_run.
  set (kept := List.filter (fun task => negb (truthy (Task.completed task))) (collection w)).
  set (removed := List.filter (fun task => truthy (Task.completed task)) (collection w)).
  pose proof (List_filter_sublist (fun task => negb (truthy (Task.completed task)))
                (collection w)) as Hkept.
  fold kept in Hkept.
  pose proof (storable_sublist _ _ Hkept Hstore) as Hstore'.
  destruct (mapO_toJSON_storable _ Hstore') as [taskData HtaskData].
  cbv zeta. rewrite HtaskData.
  set (w' := mkWorld _ _ _ _).
  assert (Hc : collection w' = kept) by reflexivity.
  exists removed, w'. split; [reflexivity|]. rewrite !Hc.
  split.
  { intros task. subst removed. rewrite filter_In. tauto. }
  split.
  { intros task. subst kept. rewrite filter_In, negb_true_iff. tauto. }
  split; [apply List_filter_sublist|]. split; [exact Hkept|].
  split; [apply List_filter_partition|]. split; [reflexivity|].
  rewrite clearCompleted_run. cbv zeta. rewrite !Hc.
  assert (H1 : List.filter (fun task => negb (truthy (Task.completed task))) kept = kept)
    by apply List_filter_twice.
  assert (H2 : List.filter (fun task => truthy (Task.completed task)) kept = [])
    by apply (List_filter_none (fun task => truthy (Task.completed task))).
  rewrite H1, H2, HtaskData. eexists. split; reflexivity.
Qed.

End Clearing.

Lemma clearCompleted_partitions_witness :
  exists removed w',
    clearCompleted (host := sampleHost) twoTaskWorld = (Ret removed, w') /\
    List.map Task.text removed = [JStr (js "Buy milk")] /\
    List.map Task.text (collection w') = [JStr (js "Call dentist")].
Proof.
  destruct (clearCompleted_partitions (host := sampleHost) twoTaskWorld eq_refl)
    as (removed & w' & Hrun & _).
  exists removed, w'. split; [exact Hrun|].
  vm_compute in Hrun. injection Hrun as <- <-. split; reflexivity.
Defined.

Section BulkDelete.
Context {host : Host}.

Lemma existsb_sublist {A} (p : A -> bool) (k l : list A) :
  k `sublist_of` l -> existsb p l = false -> existsb p k = false.
Proof.
  induction 1 as [|x k l _ IH|x k l _ IH]; simpl; [auto| |].
  - rewrite !orb_false_iff. intros [Hx Hl]. auto.
  - rewrite orb_false_iff. intros [_ Hl]. auto.
Qed.

Lemma filter_length_sublist {A} (p : A -> bool) (k l : list A) :
  k `sublist_of` l ->
  (length (List.filter p k) <= length (List.filter p l))%nat.
Proof.
  induction 1 as [|x k l _ IH|x k l _ IH]; simpl; [lia| |];
    destruct (p x); simpl; lia.
Qed.

Lemma existsb_filter_nil {A} (p : A -> bool) (l : list A) :
  List.filter p l = [] -> existsb p l = false.
Proof.
  induction l as [|x l IH]; simpl; [reflexivity|].
  destruct (p x); simpl; [discriminate | exact IH].
Qed.

Lemma delete_only_match {A} (p : A -> bool) (l : list A) i :
  findIndex p l = Some i ->
  (length (List.filter p l) <= 1)%nat ->
  existsb p (delete i l) = false.
Proof.
  revert i. induction l as [|x l IH]; simpl; [discriminate|]. intros i.
  destruct (p x) eqn:Hx.
  - intros [= <-]. simpl. intros Hlen. apply existsb_filter_nil.
    destruct (List.filter p l); [reflexivity | simpl in Hlen; lia].
  - destruct (findIndex p l) as [j|]; simpl; [|discriminate].
    intros [= <-] Hlen. simpl. rewrite Hx. simpl. exact (IH j eq_refl Hlen).
Qed.

Lemma removeTask_absent w taskId :
  findIndex (has_id taskId) (collection w) = None ->
  removeTask taskId w = (Throw NotFoundError, w).
Proof. intros H. unfold removeTask. run. rewrite H. reflexivity. Qed.

Lemma bulkDelete_cons_skipped taskId rest w e w1 :
  removeTask taskId w = (Throw e, w1) ->
  bulkDelete (taskId :: rest) w = bulkDelete rest w1.
Proof.
  intros H. simpl. run. unfold try_catch. run. rewrite H. run.
  destruct (bulkDelete rest w1) as [[others|e'] w2]; reflexivity.
Qed.

Lemma bulkDelete_cons_removed taskId rest w task w1 :
  removeTask taskId w = (Ret task, w1) ->
  bulkDelete (taskId :: rest) w =
  match bulkDelete rest w1 with
  | (Ret others, w2) => (Ret (task :: others), w2)
  | (Throw e, w2) => (Throw e, w2)
  end.
Proof.
  intros H. simpl. run. unfold try_catch. run. rewrite H. run.
  destruct (bulkDelete rest w1) as [[others|e'] w2]; reflexivity.
Qed.

(** X8: [bulkDelete] never throws, and what it leaves is the old
    collection with some tasks taken out, the rest in their order.  On a
    collection that serializes, the returned tasks and the remaining
    ones make up the old collection, every returned task carries one of
    the given ids, ids that no task carries are passed over, and an id
    of the list that at most one task carried is carried by none
    afterwards. *)
Theorem bulkDelete_best_effort (taskIds : list JsVal) (w : World) :
  exists deleted w',
    bulkDelete taskIds w = (Ret deleted, w') /\
    collection w' `sublist_of` collection w /\
    (storable (collection w) = true ->
     deleted ++ collection w' ≡ₚ collection w /\
     Forall (fun task => existsb (fun taskId => has_id taskId task) taskIds = true)
            deleted /\
     forall taskId, In taskId taskIds ->
       (length (List.filter (has_id taskId) (collection w)) <= 1)%nat ->
       existsb (has_id taskId) (collection w') = false).
Proof.
  revert w. induction taskIds as [|taskId rest IH]; intros w.
  - exists [], w. split; [reflexivity|]. split; [reflexivity|].
    intros _. split; [reflexivity|]. split; [constructor|]. intros ? [].
  - destruct (findIndex (has_id taskId) (collection w)) as [i|] eqn:Hfind.
    + destruct (findIndex_Some _ _ _ Hfind) as (task & Hlookup & Hhas).
      pose proof (removeTask_run w taskId i task Hfind Hlookup) as Hrun.
      assert (Hsub : delete i (collection w) `sublist_of` collection w)
        by apply sublist_delete.
      destruct (mapO toJSON (delete i (collection w))) as [taskData|e] eqn:Hjson.
      * set (w1 := mkWorld _ _ _ _) in Hrun.
        destruct (IH w1) as (others & w2 & Hrest & Hsub2 & Hgood).
        rewrite (bulkDelete_cons_removed _ _ _ _ _ Hrun), Hrest.
        exists (task :: others), w2. split; [reflexivity|].
        change (collection w1) with (delete i (collection w)) in *.
        split; [etransitivity; eassumption|].
        intros Hstore.
        destruct (Hgood (storable_sublist _ _ Hsub Hstore)) as (Hperm & Hids & Hgone).
        split.
        { simpl. rewrite Hperm. symmetry. apply delete_Permutation. exact Hlookup. }
        split.
        { constructor.
          - simpl. rewrite Hhas. reflexivity.
          - eapply Forall_impl; [exact Hids|]. intros t Ht. simpl in *.
            rewrite Ht. apply orb_true_r. }
        intros taskId' [<-|Hin] Hone.
        { eapply existsb_sublist; [exact Hsub2|].
          apply delete_only_match; assumption. }
        apply Hgone; [exact Hin|].
        etransitivity; [apply filter_length_sublist; exact Hsub | exact Hone].
      * set (w1 := mkWorld _ _ _ _) in Hrun.
        destruct (IH w1) as (others & w2 & Hrest & Hsub2 & _).
        rewrite (bulkDelete_cons_skipped _ _ _ _ _ Hrun), Hrest.
        exists others, w2. split; [reflexivity|].
        change (collection w1) with (delete i (collection w)) in *.
        split; [etransitivity; eassumption|].
        intros Hstore. exfalso.
        destruct (mapO_toJSON_storable _ (storable_sublist _ _ Hsub Hstore)) as [d Hd].
        congruence.
    + pose proof (removeTask_absent w taskId Hfind) as Hrun.
      destruct (IH w) as (others & w2 & Hrest & Hsub2 & Hgood).
      rewrite (bulkDelete_cons_skipped _ _ _ _ _ Hrun), Hrest.
      exists others, w2. split; [reflexivity|]. split; [exact Hsub2|].
      intros Hstore. destruct (Hgood Hstore) as (Hperm & Hids & Hgone).
      split; [exact Hperm|]. split.
      { eapply Forall_impl; [exact Hids|]. intros t Ht. simpl in *.
        rewrite Ht. apply orb_true_r. }
      intros taskId' [<-|Hin] Hone; [|auto].
      eapply existsb_sublist; [exact Hsub2|].
      apply findIndex_existsb. exact Hfind.
Qed.

End BulkDelete.

Lemma bulkDelete_best_effort_witness :
  exists deleted w',
    bulkDelete (host := sampleHost) [milkId; JStr (js "task-0")] milkWorld
      = (Ret deleted, w') /\
    deleted = [firstTask milkWorld] /\
    collection w' = [].
Proof.
  destruct (bulkDelete_best_effort (host := sampleHost)
              [milkId; JStr (js "task-0")] milkWorld)
    as (deleted & w' & Hrun & _ & Hgood).
  destruct (Hgood eq_refl) as (_ & _ & _).
  exists deleted, w'. split; [exact Hrun|].
  vm_compute in Hrun. injection Hrun as <- <-. split; reflexivity.
Defined.

Section BulkComplete.
Context {host : Host}.

Lemma kept_or_completed_id task task' :
  kept_or_completed task task' -> Task.id task' = Task.id task.
Proof. intros [->|(_ & a & u & ->)]; reflexivity. Qed.

Lemma kept_or_completed_done task task' :
  kept_or_completed task task' -> truthy (Task.completed task) = true ->
  task' = task.
Proof. intros [->|(H & _)] Hc; [reflexivity | congruence]. Qed.

Lemma kept_or_completed_trans a b c :
  kept_or_completed a b -> kept_or_completed b c -> kept_or_completed a c.
Proof.
  intros Hab Hbc. destruct Hab as [->|Hab]; [exact Hbc|].
  destruct Hbc as [->|(Hb & _)]; [right; exact Hab|].
  destruct Hab as (_ & x & y & ->). discriminate Hb.
Qed.

Lemma Forall2_kept_refl l : Forall2 kept_or_completed l l.
Proof. induction l; constructor; [left; reflexivity | assumption]. Qed.

Lemma Forall2_kept_trans l1 l2 l3 :
  Forall2 kept_or_completed l1 l2 -> Forall2 kept_or_completed l2 l3 ->
  Forall2 kept_or_completed l1 l3.
Proof.
  intros H12. revert l3. induction H12 as [|a b l1 l2 Hab _ IH]; intros l3 H23.
  - inversion H23. constructor.
  - inversion H23 as [|b' c l2' l3' Hbc Hrest]; subst.
    constructor; [eapply kept_or_completed_trans; eauto | auto].
Qed.

Lemma Forall2_kept_insert l i task task' :
  l !! i = Some task -> kept_or_completed task task' ->
  Forall2 kept_or_completed l (<[i := task']> l).
Proof.
  revert i. induction l as [|x l IH]; intros [|i]; simpl; try discriminate.
  - intros [= ->] H. constructor; [exact H | apply Forall2_kept_refl].
  - intros Hi H. constructor; [left; reflexivity | eauto].
Qed.

Lemma find_kept taskId l l' task' :
  Forall2 kept_or_completed l l' ->
  List.find (has_id taskId) l' = Some task' ->
  exists task, List.find (has_id taskId) l = Some task /\ kept_or_completed task task'.
Proof.
  induction 1 as [|a b l l' Hab _ IH]; simpl; [discriminate|].
  unfold has_id at 1 3. rewrite (kept_or_completed_id _ _ Hab).
  destruct (strict_eq (Task.id a) taskId).
  - intros [= <-]. eauto.
  - exact IH.
Qed.

Lemma In_kept l l' task :
  Forall2 kept_or_completed l l' -> In task l ->
  truthy (Task.completed task) = true -> In task l'.
Proof.
  induction 1 as [|a b l l' Hab _ IH]; simpl; [auto|].
  intros [->|Hin] Hc.
  - left. apply (kept_or_completed_done _ _ Hab Hc).
  - right. auto.
Qed.

Lemma getTask_run taskId w :
  getTask taskId w =
  match List.find (has_id taskId) (collection w) with
  | Some task => (Ret task, w)
  | None => (Throw NotFoundError, w)
  end.
Proof.
  unfold getTask. run. destruct (List.find _ _); reflexivity.
Qed.

Lemma find_Some_findIndex {A} (p : A -> bool) (l : list A) x :
  List.find p l = Some x -> exists i, findIndex p l = Some i /\ l !! i = Some x.
Proof.
  induction l as [|y l IH]; simpl; [discriminate|].
  destruct (p y).
  - intros [= <-]. exists 0%nat. split; reflexivity.
  - intros H. destruct (IH H) as (i & -> & Hi). exists (S i). split; [reflexivity | exact Hi].
Qed.

(** One round of the loop of [bulkComplete]. *)
Lemma bulkComplete_round taskId w :
  exists pushed w1,
    try_catch
      (task ← getTask taskId;
       if negb (truthy (Task.completed task))
       then task' ← toggleTask taskId; mret [task']
       else mret [])
      (fun _ => mret []) w = (Ret pushed, w1) /\
    Forall2 kept_or_completed (collection w) (collection w1) /\
    (forall task, List.find (has_id taskId) (collection w1) = Some task ->
       truthy (Task.completed task) = true) /\
    (storable (collection w) = true ->
     storable (collection w1) = true /\
     Forall (fun task => Task.completed task = JBool true /\ In task (collection w1))
            pushed).
Proof.
  unfold try_catch. rewrite bind_run, getTask_run.
  destruct (List.find (has_id taskId) (collection w)) as [task|] eqn:Hfound.
  - cbv beta iota.
    destruct (truthy (Task.completed task)) eqn:Hc;
      [change (negb true) with false | change (negb false) with true]; cbv iota.
    + exists [], w. split; [reflexivity|]. split; [apply Forall2_kept_refl|].
      split; [intros t; rewrite Hfound; congruence|].
      intros Hs. split; [exact Hs | constructor].
    + destruct (find_Some_findIndex _ _ _ Hfound) as (i & Hfind & Hlookup).
      pose proof (toggle_run task w) as Htoggle. rewrite Hc in Htoggle.
      set (task' := Task.set_updatedAt _ _) in Htoggle.
      pose proof (toggleTask_run_any w taskId i task task' _ Hfind Hlookup Htoggle)
        as Hrun.
      assert (Hmark : kept_or_completed task task').
      { right. split; [exact Hc|]. eexists _, _. reflexivity. }
      assert (Hlt : (i < length (collection w))%nat) by (eapply lookup_lt_Some; eauto).
      assert (Hat : <[i := task']> (collection w) !! i = Some task')
        by (apply list_lookup_insert_eq; exact Hlt).
      assert (Hfind' : forall t,
                List.find (has_id taskId) (<[i := task']> (collection w)) = Some t ->
                truthy (Task.completed t) = true).
      { intros t Ht.
        assert (Hhas : has_id taskId task' = true).
        { destruct (findIndex_Some _ _ _ Hfind) as (x & Hx & Hp).
          rewrite Hlookup in Hx. injection Hx as <-. exact Hp. }
        rewrite (find_findIndex _ _ i task' (findIndex_insert _ _ _ _ Hfind Hhas) Hat)
          in Ht.
        injection Ht as <-. reflexivity. }
      rewrite bind_run, Hrun.
      destruct (mapO toJSON (<[i := task']> (collection w))) as [taskData|e] eqn:Hjson.
      * run. eexists [task'], _. split; [reflexivity|].
        unfold collection at 2 3 4 5. world. fold (collection w).
        split; [eapply Forall2_kept_insert; eauto|].
        split; [exact Hfind'|].
        intros Hs. split; [eapply storable_insert; eauto|].
        constructor; [|constructor]. split; [reflexivity|].
        rewrite <- list_elem_of_In. eapply list_elem_of_lookup_2. exact Hat.
      * eexists [], _. split; [reflexivity|].
        unfold collection at 2 3 4 5. world. fold (collection w).
        split; [eapply Forall2_kept_insert; eauto|].
        split; [exact Hfind'|].
        intros Hs. exfalso.
        assert (Hs' : storable (<[i := task']> (collection w)) = true)
          by (eapply storable_insert; eauto).
        destruct (mapO_toJSON_storable _ Hs') as [d Hd]. congruence.
  - exists [], w. split; [reflexivity|]. split; [apply Forall2_kept_refl|].
    split; [intros t; rewrite Hfound; discriminate|].
    intros Hs. split; [exact Hs | constructor].
Qed.

(** X9: [bulkComplete] never throws.  Every task of the collection is
    afterwards either exactly as it was or marked completed from a falsy
    [completed] (with [completedAt] and [updatedAt] stamped and nothing
    else changed), at the same position; for each id of the list, the
    task the manager finds under it afterwards is completed; and on a
    collection that serializes every returned task has [completed] true
    and is in the collection as returned. *)
Theorem bulkComplete_marks_completed (taskIds : list JsVal) (w : World) :
  exists updated w',
    bulkComplete taskIds w = (Ret updated, w') /\
    Forall2 kept_or_completed (collection w) (collection w') /\
    (forall taskId task,
       In taskId taskIds ->
       List.find (has_id taskId) (collection w') = Some task ->
       truthy (Task.completed task) = true) /\
    (storable (collection w) = true ->
     Forall (fun task => Task.completed task = JBool true /\ In task (collection w'))
            updated).
Proof.
  revert w. induction taskIds as [|taskId rest IH]; intros w.
  - exists [], w. split; [reflexivity|]. split; [apply Forall2_kept_refl|].
    split; [intros ? ? []|]. intros _. constructor.
  - destruct (bulkComplete_round taskId w)
      as (pushed & w1 & Hround & Hkept1 & Hdone1 & Hgood1).
    destruct (IH w1) as (others & w' & Hrest & Hkept2 & Hdone2 & Hgood2).
    exists (pushed ++ others), w'. split.
    { simpl. rewrite bind_run, Hround. cbv beta iota.
      rewrite bind_run, Hrest. reflexivity. }
    split; [eapply Forall2_kept_trans; eassumption|].
    split.
    { intros taskId' task [<-|Hin] Hfound; [|eauto].
      destruct (find_kept _ _ _ _ Hkept2 Hfound) as (t & Ht & Hk).
      pose proof (Hdone1 t Ht) as Hc.
      rewrite (kept_or_completed_done _ _ Hk Hc). exact Hc. }
    intros Hs. destruct (Hgood1 Hs) as [Hs1 Hpushed].
    apply Forall_app. split; [|exact (Hgood2 Hs1)].
    eapply Forall_impl; [exact Hpushed|]. intros t [Hc Hin].
    split; [exact Hc|]. eapply In_kept; [exact Hkept2 | exact Hin|].
    rewrite Hc. reflexivity.
Qed.

End BulkComplete.

Lemma bulkComplete_marks_completed_witness :
  exists updated w',
    bulkComplete (host := sampleHost) [milkId; JStr (js "task-0"); milkId] milkWorld
      = (Ret updated, w') /\
    List.map Task.completed updated = [JBool true] /\
    List.map Task.completed (collection w') = [JBool true].
Proof.
  destruct (bulkComplete_marks_completed (host := sampleHost)
              [milkId; JStr (js "task-0"); milkId] milkWorld)
    as (updated & w' & Hrun & _ & _ & Hgood).
  pose proof (Hgood eq_refl) as _.
  exists updated, w'. split; [exact Hrun|].
  vm_compute in Hrun. injection Hrun as <- <-. split; reflexivity.
Defined.

Section Reconstruction.
Context {host : Host}.

Lemma fromJSON_string data s w :
  Task.text data = JStr s ->
  exists task n,
    fromJSON data w = (Ret task, mkWorld (manager w) (stored w) (dispatched w) n) /\
    rebuilt_from data task.
Proof.
  intros Htext. unfold fromJSON. rewrite Htext.
  match goal with
  | |- context [new_Task (JStr s) ?o w] =>
      destruct (new_Task_run s o w)
        as (task & n & Hnew & _ & Hid & Hsame & Htx & Hc & _ & Hca & _ & Hp & Hcat
            & Htags & Hd & Hdesc)
  end.
  exists task, n. split; [exact Hnew|]. simpl in *.
  unfold rebuilt_from. repeat split; eauto.
Qed.

Lemma fromJSON_not_string data w :
  is_string (Task.text data) = false ->
  exists n,
    fromJSON data w
    = (Throw TypeError, mkWorld (manager w) (stored w) (dispatched w) n).
Proof.
  intros Htext. unfold fromJSON.
  match goal with
  | |- context [new_Task ?v ?o w] =>
      destruct (new_Task_not_string v o w Htext) as [w' Hthrow];
      pose proof (preserves_new_Task (fun w => (manager w, stored w, dispatched w))
                    ltac:(reflexivity) v o w) as Hframe;
      rewrite Hthrow in *
  end.
  simpl in Hframe. exists (reads w'). destruct w'; simpl in *.
  injection Hframe as -> -> ->. reflexivity.
Qed.

(** Reconstructing a list either rebuilds every element or throws at the
    first element whose text is not a string; it touches the clock only. *)
Lemma mapM_fromJSON_outcome elems w :
  if texts_are_strings elems
  then exists tasks n,
         mapM fromJSON elems w
           = (Ret tasks, mkWorld (manager w) (stored w) (dispatched w) n) /\
         Forall2 rebuilt_from elems tasks
  else exists n,
         mapM fromJSON elems w
           = (Throw TypeError, mkWorld (manager w) (stored w) (dispatched w) n).
Proof.
  revert w. induction elems as [|data elems IH]; intros w; simpl.
  - exists [], (reads w). split; [destruct w; reflexivity | constructor].
  - destruct (is_string (Task.text data)) eqn:Hs; simpl.
    + destruct (Task.text data) as [| |?|?|s|?|?] eqn:Htext; try discriminate.
      destruct (fromJSON_string data s w Htext) as (task & n & Hrun & Hrebuilt).
      run. rewrite Hrun. run.
      set (w1 := mkWorld _ _ _ n). specialize (IH w1).
      destruct (texts_are_strings elems).
      * destruct IH as (tasks & n' & -> & Hall). run.
        exists (task :: tasks), n'. split; [reflexivity | constructor; assumption].
      * destruct IH as (n' & ->). run. exists n'. reflexivity.
    + destruct (fromJSON_not_string data w Hs) as (n & Hrun).
      run. rewrite Hrun. run. exists n. reflexivity.
Qed.

(** X10: [importTasks] changes the collection all at once or not at all.
    Data that is not an array is refused with the format error and an
    untouched world.  When some element's text is not a string, the call
    throws a TypeError and the collection, the storage and the events
    are as before.  Otherwise, in replace mode, the collection becomes
    the tasks rebuilt from the elements, one per element and in their
    order, and when these serialize the call returns [true], hands them
    to the storage manager (which keeps them unless [localStorage]
    refuses them) and dispatches [tasksImported] then [tasksChanged]. *)
Theorem importTasks_all_or_nothing (w : World) (elems : list Task.t) :
  (forall merge,
     importTasks NotArray merge w = (Throw (Error ImportFormatInvalid), w)) /\
  (texts_are_strings elems = false ->
   forall merge, exists w',
     importTasks (ArrayOf elems) merge w = (Throw TypeError, w') /\
     collection w' = collection w /\ stored w' = stored w /\
     dispatched w' = dispatched w /\ viewSettings w' = viewSettings w) /\
  (texts_are_strings elems = true ->
   exists tasks,
     Forall2 rebuilt_from elems tasks /\
     collection (snd (importTasks (ArrayOf elems) false w)) = tasks /\
     (storable tasks = true ->
      exists w',
        importTasks (ArrayOf elems) false w = (Ret true, w') /\
        (exists taskData,
           mapO toJSON tasks = Ret taskData /\
           stored w' = persisted (reads w') taskData (stored w)) /\
        dispatched w'
          = dispatched w ++ [tasksImported (length elems) false (length elems);
                             tasksChanged])).
Proof.
  split; [reflexivity|].
  pose proof (mapM_fromJSON_outcome elems w) as Hout.
  split.
  - intros Hbad merge. rewrite Hbad in Hout. destruct Hout as (n & Hrun).
    unfold importTasks. run. rewrite Hrun. eexists. split; [reflexivity|].
    repeat split.
  - intros Hgood. rewrite Hgood in Hout. destruct Hout as (tasks & n & Hrun & Hall).
    exists tasks. split; [exact Hall|].
    unfold importTasks. run. rewrite Hrun. run. world.
    rewrite saveTasks_run. unfold collection. world.
    split; [destruct (mapO toJSON tasks); reflexivity|].
    intros Hs. destruct (mapO_toJSON_storable _ Hs) as [taskData ->].
    run. world. eexists. split; [reflexivity|]. unfold collection. world.
    split; [exists taskData; split; reflexivity|].
    rewrite <- (Forall2_length _ _ _ Hall), <- app_assoc. reflexivity.
Qed.

End Reconstruction.

Lemma importTasks_all_or_nothing_witness :
  texts_are_strings [Task.set_id milkId Task.empty] = false /\
  (exists w',
     importTasks (host := sampleHost) (ArrayOf [Task.set_id milkId Task.empty]) false
       milkWorld = (Throw TypeError, w') /\
     collection w' = collection milkWorld) /\
  texts_are_strings sampleImport = true /\
  List.map Task.text
    (collection (snd (importTasks (host := sampleHost) (ArrayOf sampleImport) false
                        milkWorld)))
  = [JStr (js "Buy oat milk"); JStr (js "Water plants")].
Proof.
  split; [reflexivity|].
  split.
  { destruct (proj1 (proj2 (importTasks_all_or_nothing (host := sampleHost) milkWorld
                              [Task.set_id milkId Task.empty])) eq_refl false)
      as (w' & Hrun & Hcollection & _).
    exists w'. split; assumption. }
  split; [reflexivity|].
  destruct (proj2 (proj2 (importTasks_all_or_nothing (host := sampleHost) milkWorld
                            sampleImport)) eq_refl)
    as (tasks & _ & Hcollection & _).
  rewrite Hcollection. rewrite <- Hcollection. reflexivity.
Defined.

Section Persistence.
Context {host : Host}.

Lemma loadTasks_run w :
  loadTasks w =
  match mapM fromJSON (stored w) w with
  | (Ret tasks, w1) =>
      (Ret tt,
       mkWorld (TaskManager.set_tasks tasks (manager w1)) (stored w1)
               (dispatched w1 ++ [tasksLoaded (length tasks); tasksChanged])
               (reads w1))
  | (Throw _, w1) =>
      (Ret tt,
       mkWorld (TaskManager.set_tasks [] (manager w1)) (stored w1)
               (dispatched w1) (reads w1))
  end.
Proof.
  unfold loadTasks, try_catch, storage_loadTasks. run.
  destruct (mapM fromJSON (stored w) w) as [[tasks|e] w1]; run; world;
    [|reflexivity].
  rewrite <- app_assoc. reflexivity.
Qed.

(** X12: a manager constructed over a storage whose elements all have a
    string text holds the tasks rebuilt from them, in order, and has
    dispatched [tasksLoaded] with their number, then [tasksChanged]; if
    some element's text is not a string the manager starts with an empty
    collection and dispatches nothing.  In both cases the storage is
    left as found and the view settings are the defaults. *)
Theorem new_TaskManager_outcomes (storage : list Task.t) :
  stored (new_TaskManager storage) = storage /\
  viewSettings (new_TaskManager storage) = (js "all", [], js "createdAt", js "desc") /\
  (texts_are_strings storage = true ->
   Forall2 rebuilt_from storage (collection (new_TaskManager storage)) /\
   dispatched (new_TaskManager storage)
     = [tasksLoaded (length storage); tasksChanged]) /\
  (texts_are_strings storage = false ->
   collection (new_TaskManager storage) = [] /\
   dispatched (new_TaskManager storage) = []).
Proof.
  unfold new_TaskManager. rewrite loadTasks_run. world.
  set (w0 := mkWorld _ storage [] 0).
  pose proof (mapM_fromJSON_outcome storage w0) as Hout.
  destruct (texts_are_strings storage).
  - destruct Hout as (tasks & n & -> & Hall). world.
    split; [reflexivity|]. split; [reflexivity|].
    split; [|discriminate]. intros _. split; [exact Hall|].
    rewrite (Forall2_length _ _ _ Hall). reflexivity.
  - destruct Hout as (n & ->). world.
    split; [reflexivity|]. split; [reflexivity|].
    split; [discriminate|]. intros _. split; reflexivity.
Qed.

Lemma survivor_roundtrip task :
  survives_roundtrip task ->
  exists data, toJSON task = Ret data /\ forall w, fromJSON data w = (Ret task, w).
Proof.
  intros (Hid & (s & Htext & Htrim) & Hc & Hcr & Hca & Hu & Hp & Hcat
          & (l & Htags) & Hd & Hdesc).
  destruct task as [id text completed createdAt completedAt updatedAt
                    priority category tags dueDate description].
  simpl in *. subst text tags.
  eexists. split; [reflexivity|]. intros w.
  unfold fromJSON, new_Task, call_trim. simpl. run.
  rewrite Hid. run. rewrite Hcr. run. rewrite Hu. run. rewrite Htrim.
  rewrite (js_or_truthy_or _ _ Hc), (js_or_truthy_or _ _ Hca),
    (js_or_truthy_or _ _ Hd), (js_or_truthy_or _ _ Hdesc).
  unfold js_or. rewrite Hp, Hcat. reflexivity.
Qed.

Lemma survivors_roundtrip tasks :
  Forall survives_roundtrip tasks ->
  exists taskData,
    mapO toJSON tasks = Ret taskData /\
    forall w, mapM fromJSON taskData w = (Ret tasks, w).
Proof.
  induction 1 as [|task tasks Htask _ (taskData & Hjson & Hback)]; simpl.
  - exists []. split; [reflexivity|]. intros w. reflexivity.
  - destruct (survivor_roundtrip task Htask) as (data & Hdata & Hfrom).
    rewrite Hdata, Hjson. simpl. exists (data :: taskData).
    split; [reflexivity|]. intros w. simpl. run. rewrite Hfrom. run.
    rewrite Hback. run. reflexivity.
Qed.

(** Induction on a value, with the property known of an array's
    elements. *)
Lemma JsVal_elems_ind (P : JsVal -> Prop) :
  P JUndefined -> P JNull -> (forall b, P (JBool b)) -> (forall n, P (JNum n)) ->
  (forall s, P (JStr s)) -> (forall d, P (JDate d)) ->
  (forall elems, Forall P elems -> P (JArr elems)) ->
  forall v, P v.
Proof.
  intros Hu Hn Hb Hz Hs Hd Ha. fix IH 1.
  intros [| |b|n|s|d|elems];
    [exact Hu | exact Hn | apply Hb | apply Hz | apply Hs | apply Hd |].
  apply Ha. induction elems as [|x l IHl]; constructor; [apply IH | exact IHl].
Qed.

Lemma jsonValue_exact v : json_exact v = true -> jsonValue v = v.
Proof.
  induction v as [| |b|n|s|d|elems IH] using JsVal_elems_ind;
    simpl; try reflexivity; try discriminate.
  intros H. f_equal. induction IH as [|x l Hx _ IHl]; simpl in *; [reflexivity|].
  apply andb_true_iff in H. destruct H as [Hex Hl].
  f_equal; [|exact (IHl Hl)].
  destruct x; try reflexivity; try discriminate; apply Hx; exact Hex.
Qed.

Lemma jsonTask_exact task data :
  toJSON task = Ret data -> (exists l, Task.tags task = JArr l) ->
  json_exact_task task = true -> jsonTask data = data.
Proof.
  intros Hjson [l Htags]. unfold toJSON in Hjson. rewrite Htags in Hjson.
  simpl in Hjson. injection Hjson as <-.
  unfold json_exact_task. rewrite !andb_true_iff, Htags.
  intros [[[[[[[[[[H1 H2] H3] H4] H5] H6] H7] H8] H9] H10] H11].
  unfold jsonTask. cbn [Task.id Task.text Task.completed Task.createdAt
    Task.completedAt Task.updatedAt Task.priority Task.category Task.tags
    Task.dueDate Task.description].
  rewrite !jsonValue_exact by assumption. reflexivity.
Qed.

Lemma survivors_json tasks taskData :
  Forall survives_roundtrip tasks ->
  forallb json_exact_task tasks = true ->
  mapO toJSON tasks = Ret taskData ->
  List.map jsonTask taskData = taskData.
Proof.
  intros Hall. revert taskData.
  induction Hall as [|task tasks Htask _ IH]; simpl; intros taskData.
  - intros _ [= <-]. reflexivity.
  - rewrite andb_true_iff. intros [Hexact Hrest].
    destruct (toJSON task) as [data|] eqn:Hdata; simpl; [|discriminate].
    destruct (mapO toJSON tasks) as [rest|]; simpl; [|discriminate].
    intros [= <-]. simpl. f_equal; [|apply IH; [exact Hrest | reflexivity]].
    eapply jsonTask_exact; [exact Hdata | | exact Hexact].
    destruct Htask as (_ & _ & _ & _ & _ & _ & _ & _ & Htags & _). exact Htags.
Qed.

(** X11: when every task of the collection has the shape that survives
    [toJSON] and [fromJSON], [saveTasks] returns, with two reads of the
    clock.  If the storage manager keeps the data (it has no
    [localStorage], or [setItem] succeeds) and, when it writes JSON,
    every property is a value that JSON gives back as it is, a manager
    constructed over the storage holds the same collection, task for
    task and in the same order; if [setItem] throws, the storage holds
    what it held before. *)
Theorem saved_collection_reloads (w : World) :
  Forall survives_roundtrip (collection w) ->
  exists taskData w1,
    mapO toJSON (collection w) = Ret taskData /\
    saveTasks w = (Ret tt, w1) /\
    collection w1 = collection w /\
    reads w1 = S (S (reads w)) /\
    (storage_keeps (reads w1) taskData = true ->
     localStorage = None \/ forallb json_exact_task (collection w) = true ->
     collection (new_TaskManager (stored w1)) = collection w /\
     dispatched (new_TaskManager (stored w1))
       = [tasksLoaded (length (collection w)); tasksChanged]) /\
    (storage_keeps (reads w1) taskData = false -> stored w1 = stored w).
Proof.
  intros Hall. destruct (survivors_roundtrip _ Hall) as (taskData & Hjson & Hback).
  rewrite saveTasks_run, Hjson. eexists taskData, _.
  split; [reflexivity|]. split; [reflexivity|]. world.
  split; [reflexivity|]. split; [reflexivity|].
  unfold storage_keeps, persisted.
  split.
  - intros Hkeeps Hexact.
    assert (Hheld :
      match localStorage with
      | Some setItem =>
          if setItem (S (S (reads w))) taskData
          then List.map jsonTask taskData else stored w
      | None => taskData
      end = taskData).
    { destruct localStorage as [setItem|]; [|reflexivity].
      rewrite Hkeeps. destruct Hexact as [Hnone|Hexact]; [discriminate|].
      exact (survivors_json _ _ Hall Hexact Hjson). }
    rewrite Hheld.
    unfold new_TaskManager. rewrite loadTasks_run. world. rewrite Hback. world.
    split; reflexivity.
  - intros Hrefused. destruct localStorage as [setItem|]; [|discriminate].
    rewrite Hrefused. reflexivity.
Qed.

End Persistence.

Lemma new_TaskManager_outcomes_witness :
  texts_are_strings sampleImport = true /\
  List.map Task.text (collection (new_TaskManager (host := sampleHost) sampleImport))
    = [JStr (js "Buy oat milk"); JStr (js "Water plants")] /\
  dispatched (new_TaskManager (host := sampleHost) sampleImport)
    = [tasksLoaded 2; tasksChanged] /\
  texts_are_strings [Task.empty] = false /\
  dispatched (new_TaskManager (host := sampleHost) [Task.empty]) = [].
Proof.
  split; [reflexivity|]. split; [reflexivity|].
  split.
  { exact (proj2 (proj1 (proj2 (proj2
             (new_TaskManager_outcomes (host := sampleHost) sampleImport))) eq_refl)). }
  split; [reflexivity|].
  exact (proj2 (proj2 (proj2 (proj2
           (new_TaskManager_outcomes (host := sampleHost) [Task.empty]))) eq_refl)).
Defined.

Lemma saved_collection_reloads_witness :
  Forall survives_roundtrip (collection milkWorld) /\
  exists w1,
    saveTasks (host := sampleHost) milkWorld = (Ret tt, w1) /\
    collection (new_TaskManager (host := sampleHost) (stored w1)) = collection milkWorld.
Proof.
  assert (H : Forall survives_roundtrip (collection milkWorld)).
  { change (collection milkWorld) with [firstTask milkWorld].
    constructor; [|constructor].
    unfold survives_roundtrip, truthy_or. simpl. repeat split; eauto. }
  split; [exact H|].
  destruct (saved_collection_reloads (host := sampleHost) milkWorld H)
    as (taskData & w1 & _ & Hsave & _ & _ & Hload & _).
  exists w1. split; [exact Hsave|].
  apply Hload; [reflexivity | right; reflexivity].
Defined.

Section Updating.
Context {host : Host}.

Lemma world_same_tasks w l :
  l = collection w ->
  mkWorld (TaskManager.set_tasks l (manager w)) (stored w) (dispatched w) (reads w) = w.
Proof. intros ->. destruct w as [[] ? ? ?]. reflexivity. Qed.

Lemma mutate_at_refused {R} i (method : Task.t -> M (Task.t * R)) task r w :
  collection w !! i = Some task ->
  method task w = (Ret (task, r), w) ->
  mutate_at i method w = (Ret r, w).
Proof.
  intros Hlookup Hmethod. unfold mutate_at.
  rewrite bind_run, task_at_run, Hlookup. cbv beta iota.
  rewrite bind_run, Hmethod. run. world.
  rewrite world_same_tasks; [reflexivity|].
  apply list_insert_id. exact Hlookup.
Qed.

Lemma applyUpdate_passed_over i task entry w :
  collection w !! i = Some task ->
  passed_over task entry = true ->
  applyUpdate i entry w = (Ret tt, w).
Proof.
  intros Hlookup. destruct entry as [key value]. unfold passed_over, applyUpdate.
  destruct (str_eqb key (js "text") && truthy value).
  { intros H. rewrite bind_run.
    rewrite (mutate_at_refused i (updateText value) task false w Hlookup);
      [reflexivity|].
    unfold updateText. destruct value; try reflexivity.
    apply negb_true_iff in H. rewrite H. reflexivity. }
  destruct (str_eqb key (js "priority")).
  { intros H. rewrite bind_run.
    rewrite (mutate_at_refused i (setPriority value) task false w Hlookup);
      [reflexivity|].
    unfold setPriority. apply negb_true_iff in H. rewrite H. reflexivity. }
  destruct (str_eqb key (js "dueDate")).
  { intros H. rewrite bind_run.
    rewrite (mutate_at_refused i (setDueDate value) task false w Hlookup);
      [reflexivity|].
    unfold setDueDate. destruct value as [| |?|?|[|? ?]|?|?]; try discriminate;
      reflexivity. }
  destruct (str_eqb key (js "completed")).
  { intros H. rewrite bind_run, task_at_run, Hlookup. cbv beta iota.
    rewrite H. reflexivity. }
  intros H. rewrite bind_run, task_at_run, Hlookup. cbv beta iota.
  destruct (assign key value task); [discriminate | reflexivity].
Qed.

Lemma forEach_passed_over i task updates w :
  collection w !! i = Some task ->
  forallb (passed_over task) updates = true ->
  forEach (applyUpdate i) updates w = (Ret tt, w).
Proof.
  intros Hlookup. induction updates as [|entry updates IH]; simpl; [reflexivity|].
  rewrite andb_true_iff. intros [Hentry Hrest].
  rewrite bind_run, (applyUpdate_passed_over _ _ _ _ Hlookup Hentry).
  cbv beta iota. exact (IH Hrest).
Qed.

Lemma updateTask_run_gen w taskId updates i task w1 task' :
  findIndex (has_id taskId) (collection w) = Some i ->
  collection w !! i = Some task ->
  forEach (applyUpdate i) updates w = (Ret tt, w1) ->
  collection w1 !! i = Some task' ->
  updateTask taskId updates w =
  match mapO toJSON (collection w1) with
  | Ret taskData =>
      (Ret task',
       mkWorld (manager w1) (persisted (S (S (reads w1))) taskData (stored w1))
               (dispatched w1 ++ [taskUpdated task' task; tasksChanged])
               (S (S (reads w1))))
  | Throw e => (Throw e, w1)
  end.
Proof.
  intros Hfind Hlookup Hupdates Hlookup1.
  unfold updateTask. run. rewrite Hfind.
  rewrite bind_run, task_at_run, Hlookup. cbv beta iota.
  rewrite bind_run, Hupdates. cbv beta iota.
  rewrite bind_run, saveTasks_run.
  destruct (mapO toJSON (collection w1)) as [taskData|e]; [|reflexivity].
  cbv beta iota. rewrite bind_run, task_at_run. unfold collection in *. world.
  rewrite Hlookup1. run. world. rewrite <- app_assoc. reflexivity.
Qed.

Lemma updateTask_passed_over_run w taskId updates i task :
  findIndex (has_id taskId) (collection w) = Some i ->
  collection w !! i = Some task ->
  forallb (passed_over task) updates = true ->
  updateTask taskId updates w =
  match mapO toJSON (collection w) with
  | Ret taskData =>
      (Ret task,
       mkWorld (manager w) (persisted (S (S (reads w))) taskData (stored w))
               (dispatched w ++ [taskUpdated task task; tasksChanged])
               (S (S (reads w))))
  | Throw e => (Throw e, w)
  end.
Proof.
  intros Hfind Hlookup Hall.
  exact (updateTask_run_gen w taskId updates i task w task Hfind Hlookup
           (forEach_passed_over _ _ _ _ Hlookup Hall) Hlookup).
Qed.

(** X13: when [updateTask] finds the task and every entry of [updates]
    is one the setters refuse, repeats the current [completed], or names
    no property of a task, the collection is untouched and no task is
    stamped.  On a collection that serializes the call returns the task
    exactly as it was, and yet hands the collection to the storage
    manager again, whose two reads of the clock are the only ones, and
    dispatches [taskUpdated] (old and new snapshot alike) then
    [tasksChanged]; on a collection that does not serialize it throws a
    [TypeError] and changes nothing at all. *)
Theorem updateTask_passes_over (w : World) (taskId : JsVal)
    (updates : list (jsstring * JsVal)) (i : nat) (task : Task.t) :
  findIndex (has_id taskId) (collection w) = Some i ->
  collection w !! i = Some task ->
  forallb (passed_over task) updates = true ->
  collection (snd (updateTask taskId updates w)) = collection w /\
  (storable (collection w) = true ->
   exists taskData,
     mapO toJSON (collection w) = Ret taskData /\
     updateTask taskId updates w =
       (Ret task,
        mkWorld (manager w) (persisted (S (S (reads w))) taskData (stored w))
                (dispatched w ++ [taskUpdated task task; tasksChanged])
                (S (S (reads w))))) /\
  (storable (collection w) = false ->
   updateTask taskId updates w = (Throw TypeError, w)).
Proof.
  intros Hfind Hlookup Hall.
  rewrite (updateTask_passed_over_run w taskId updates i task Hfind Hlookup Hall).
  split; [destruct (mapO toJSON _); reflexivity|].
  split.
  - intros Hstore. destruct (mapO_toJSON_storable _ Hstore) as [taskData Hjson].
    exists taskData. rewrite Hjson. split; reflexivity.
  - intros Hstore. rewrite (mapO_toJSON_unstorable _ Hstore). reflexivity.
Qed.

(** X14: [updateTask(id, { text })] with a text that is non-empty after
    trimming stores the trimmed text and stamps [updatedAt] with the
    clock's reading, leaving every other property and every other task
    as they were; with a non-empty text of whitespace only it leaves the
    task as it was.  On a collection that serializes the call then
    returns the task and dispatches [taskUpdated] and [tasksChanged]; on
    one that does not it throws a [TypeError], the text stored all the
    same, with nothing persisted and nothing dispatched. *)
Theorem updateTask_text_trimmed (w : World) (taskId : JsVal) (s : jsstring)
    (i : nat) (task : Task.t) :
  findIndex (has_id taskId) (collection w) = Some i ->
  collection w !! i = Some task ->
  s <> [] ->
  exists task' w',
    snd (updateTask taskId [(js "text", JStr s)] w) = w' /\
    collection w' = <[i := task']> (collection w) /\
    (trim s <> [] ->
     task' = Task.set_updatedAt (JStr (isoNow (reads w)))
               (Task.set_text (JStr (trim s)) task) /\
     has_text task' = true) /\
    (trim s = [] -> task' = task) /\
    (storable (collection w) = true ->
     updateTask taskId [(js "text", JStr s)] w = (Ret task', w') /\
     dispatched w' = dispatched w ++ [taskUpdated task' task; tasksChanged]) /\
    (storable (collection w) = false ->
     updateTask taskId [(js "text", JStr s)] w = (Throw TypeError, w') /\
     stored w' = stored w /\ dispatched w' = dispatched w).
Proof.
  intros Hfind Hlookup Hs.
  assert (Htruthy : truthy (JStr s) = true) by (destruct s; [elim Hs|]; reflexivity).
  destruct (trim s) as [|c t] eqn:Htrim.
  - rewrite (updateTask_passed_over_run w taskId [(js "text", JStr s)] i task
               Hfind Hlookup).
    2:{ unfold forallb, passed_over.
        change (str_eqb (js "text") (js "text")) with true.
        rewrite Htruthy. cbn [andb]. rewrite Htrim. reflexivity. }
    eexists task, _. split; [reflexivity|].
    split.
    { rewrite list_insert_id by exact Hlookup.
      destruct (mapO toJSON _); reflexivity. }
    split; [intros H; elim H; reflexivity|]. split; [reflexivity|].
    split.
    + intros Hstore. destruct (mapO_toJSON_storable _ Hstore) as [taskData ->].
      split; reflexivity.
    + intros Hstore. rewrite (mapO_toJSON_unstorable _ Hstore). repeat split.
  - set (task' := Task.set_updatedAt (JStr (isoNow (reads w)))
                    (Task.set_text (JStr (c :: t)) task)).
    assert (Hlt : (i < length (collection w))%nat) by (eapply lookup_lt_Some; eauto).
    set (w1 := mkWorld (TaskManager.set_tasks (<[i := task']> (collection w)) (manager w))
                       (stored w) (dispatched w) (S (reads w))).
    assert (Hupdates : forEach (applyUpdate i) [(js "text", JStr s)] w = (Ret tt, w1)).
    { unfold forEach. rewrite bind_run. unfold applyUpdate.
      change (str_eqb (js "text") (js "text")) with true. rewrite Htruthy.
      cbn [andb]. cbv beta iota.
      unfold mutate_at. rewrite !bind_run, task_at_run, Hlookup. cbv beta iota.
      unfold updateText. rewrite Htrim. simpl truthy. cbv iota. run. reflexivity. }
    assert (Hlookup1 : collection w1 !! i = Some task').
    { unfold w1, collection. world. apply list_lookup_insert_eq. exact Hlt. }
    rewrite (updateTask_run_gen w taskId _ i task w1 task' Hfind Hlookup Hupdates Hlookup1).
    assert (Hstore1 : storable (collection w1) = storable (collection w)).
    { unfold w1, collection. world. eapply storable_insert_eq; eauto. }
    eexists task', _. split; [reflexivity|].
    split; [destruct (mapO toJSON _); reflexivity|].
    split; [intros _; split; reflexivity|]. split; [discriminate|].
    split.
    + intros Hstore. rewrite <- Hstore1 in Hstore.
      destruct (mapO_toJSON_storable _ Hstore) as [taskData ->].
      split; reflexivity.
    + intros Hstore. rewrite <- Hstore1 in Hstore.
      rewrite (mapO_toJSON_unstorable _ Hstore). repeat split.
Qed.

End Updating.

Lemma updateTask_passes_over_witness :
  exists taskData w',
    updateTask (host := sampleHost) milkId
      [(js "text", JStr (js "   ")); (js "priority", JStr (js "urgent"));
       (js "completed", JBool false); (js "owner", JStr (js "me"))] milkWorld
    = (Ret (firstTask milkWorld), w') /\
    collection w' = collection milkWorld /\
    stored w' = taskData /\
    dispatched w'
    = dispatched milkWorld
      ++ [taskUpdated (firstTask milkWorld) (firstTask milkWorld); tasksChanged] /\
    reads w' = S (S (reads milkWorld)).
Proof.
  destruct (updateTask_passes_over (host := sampleHost) milkWorld milkId
              [(js "text", JStr (js "   ")); (js "priority", JStr (js "urgent"));
               (js "completed", JBool false); (js "owner", JStr (js "me"))]
              0 (firstTask milkWorld))
    as (_ & Hreturns & _); [reflexivity | reflexivity | reflexivity |].
  destruct (Hreturns eq_refl) as (taskData & _ & Hrun).
  eexists _, _. split; [exact Hrun|]. repeat split.
Defined.

Lemma updateTask_text_trimmed_witness :
  exists task' w',
    updateTask (host := sampleHost) milkId [(js "text", JStr (js " Buy oat milk "))]
      milkWorld = (Ret task', w') /\
    Task.text task' = JStr (js "Buy oat milk").
Proof.
  destruct (updateTask_text_trimmed (host := sampleHost) milkWorld milkId
              (js " Buy oat milk ") 0 (firstTask milkWorld))
    as (task' & w' & _ & _ & Htrimmed & _ & Hreturns & _);
    [reflexivity | reflexivity | discriminate |].
  exists task', w'. split; [exact (proj1 (Hreturns eq_refl))|].
  destruct Htrimmed as [-> _]; [vm_compute; discriminate | reflexivity].
Defined.

Section Statistics.
Context {host : Host} {numbers : HostNumbers}.

Lemma isOverdue_run this w :
  exists b n,
    isOverdue this w = (Ret b, mkWorld (manager w) (stored w) (dispatched w) n) /\
    (b = true ->
     truthy (Task.completed this) = false /\ truthy (Task.dueDate this) = true).
Proof.
  unfold isOverdue.
  destruct (truthy (Task.dueDate this)) eqn:Hd; simpl.
  - destruct (truthy (Task.completed this)) eqn:Hc.
    + exists false, (reads w). split; [destruct w; reflexivity | discriminate].
    + eexists _, (S (reads w)). split; [reflexivity|]. auto.
  - exists false, (reads w). split; [destruct w; reflexivity | discriminate].
Qed.

Lemma filterM_isOverdue l w :
  exists overdueTasks n,
    filterM isOverdue l w
      = (Ret overdueTasks, mkWorld (manager w) (stored w) (dispatched w) n) /\
    overdueTasks `sublist_of`
      List.filter (fun task => negb (truthy (Task.completed task))) l.
Proof.
  revert w. induction l as [|task l IH]; intros w; simpl.
  - exists [], (reads w). split; [destruct w; reflexivity | constructor].
  - destruct (isOverdue_run task w) as (b & n & Hrun & Hb).
    run. rewrite Hrun. run.
    set (w1 := mkWorld _ _ _ n). destruct (IH w1) as (rest & n' & -> & Hsub).
    run. eexists _, n'. split; [reflexivity|].
    destruct b.
    + destruct (Hb eq_refl) as [-> _]. simpl. apply sublist_skip. exact Hsub.
    + destruct (truthy (Task.completed task)); simpl;
        [exact Hsub | apply sublist_cons; exact Hsub].
Qed.

(** X15: [getStats] never throws and changes nothing but the clock's
    read count.  Its numbers fit together: [total] is the size of the
    collection, [total = completed + active], the overdue tasks are
    among the active ones ([0 <= overdue <= active]), and on an empty
    collection every number, the completion rate included, is 0. *)
Theorem getStats_consistent (w : World) :
  exists stats n,
    getStats w = (Ret stats, mkWorld (manager w) (stored w) (dispatched w) n) /\
    Stats.total stats = Z.of_nat (length (collection w)) /\
    Stats.total stats = Stats.completed stats + Stats.active stats /\
    0 <= Stats.completed stats <= Stats.total stats /\
    0 <= Stats.overdue stats <= Stats.active stats /\
    (collection w = [] ->
     stats = Stats.mk 0 0 0 0 0).
Proof.
  unfold getStats. run.
  destruct (filterM_isOverdue (collection w) w) as (overdueTasks & n & -> & Hsub).
  run. eexists _, n. split; [reflexivity|]. simpl.
  pose proof (List_filter_partition (fun task => truthy (Task.completed task))
                (collection w)) as Hpart.
  apply sublist_length in Hsub.
  split; [reflexivity|]. split; [lia|]. split; [lia|]. split; [lia|].
  intros Hempty. rewrite Hempty in *. simpl in *.
  destruct overdueTasks; [reflexivity | simpl in Hsub; lia].
Qed.

End Statistics.

(** * Further properties of the derived view *)

Section Sorting.
Context {A : Type} (cmp : A -> A -> Z).

Lemma insertBy_map {B} (f : A -> B) (cmp' : B -> B -> Z) x l :
  (forall a b, cmp' (f a) (f b) = cmp a b) ->
  insertBy cmp' (f x) (List.map f l) = List.map f (insertBy cmp x l).
Proof.
  intros Hcmp. induction l as [|y l IH]; simpl; [reflexivity|].
  rewrite Hcmp. destruct (cmp x y <=? 0); simpl; [reflexivity|].
  rewrite IH. reflexivity.
Qed.

Lemma stableSort_map {B} (f : A -> B) (cmp' : B -> B -> Z) l :
  (forall a b, cmp' (f a) (f b) = cmp a b) ->
  stableSort cmp' (List.map f l) = List.map f (stableSort cmp l).
Proof.
  intros Hcmp. unfold stableSort.
  induction l as [|x l IH]; simpl; [reflexivity|].
  rewrite IH. apply insertBy_map. exact Hcmp.
Qed.

Hypothesis cmp_total : forall x y, cmp x y <= 0 \/ cmp y x <= 0.
Hypothesis cmp_trans : forall x y z, cmp x y <= 0 -> cmp y z <= 0 -> cmp x z <= 0.

Lemma insertBy_sorted x l :
  StronglySorted (fun a b => cmp a b <= 0) l ->
  StronglySorted (fun a b => cmp a b <= 0) (insertBy cmp x l).
Proof.
  induction 1 as [|y l Hsorted IH Hall]; simpl.
  - constructor; constructor.
  - destruct (cmp x y <=? 0) eqn:E.
    + apply Z.leb_le in E. constructor; [constructor; assumption|].
      constructor; [exact E|].
      eapply Forall_impl; [exact Hall|]. intros z Hz. simpl in *.
      eapply cmp_trans; eassumption.
    + apply Z.leb_gt in E. constructor; [exact IH|].
      rewrite insertBy_perm. constructor; [|exact Hall].
      destruct (cmp_total x y); [lia | assumption].
Qed.

Lemma stableSort_sorted l :
  StronglySorted (fun a b => cmp a b <= 0) (stableSort cmp l).
Proof.
  unfold stableSort. induction l as [|x l IH]; simpl; [constructor|].
  apply insertBy_sorted. exact IH.
Qed.

Lemma filter_insertBy (p : A -> bool) x l :
  (forall y, p x = true -> p y = true -> cmp x y <= 0) ->
  List.filter p (insertBy cmp x l) = List.filter p (x :: l).
Proof.
  intros Hsame. induction l as [|y l IH]; simpl; [reflexivity|].
  destruct (cmp x y <=? 0) eqn:E; simpl; [reflexivity|].
  rewrite IH. simpl. apply Z.leb_gt in E.
  destruct (p x) eqn:Hx; [|reflexivity].
  destruct (p y) eqn:Hy; [|reflexivity].
  specialize (Hsame y eq_refl Hy). lia.
Qed.

Lemma filter_stableSort (p : A -> bool) l :
  (forall x y, p x = true -> p y = true -> cmp x y <= 0) ->
  List.filter p (stableSort cmp l) = List.filter p l.
Proof.
  intros Hsame. unfold stableSort.
  induction l as [|x l IH]; simpl; [reflexivity|].
  rewrite filter_insertBy by (intros; apply Hsame; assumption).
  simpl. rewrite IH. reflexivity.
Qed.

End Sorting.

Section PriorityView.
Context {host : Host}.

Lemma forallb_sublist {A} (p : A -> bool) (k l : list A) :
  k `sublist_of` l -> forallb p l = true -> forallb p k = true.
Proof.
  rewrite !forallb_forall. intros Hsub Hl x Hx. apply Hl.
  rewrite <- list_elem_of_In in *. eapply elem_of_sublist; eauto.
Qed.

Lemma statusFilter_sublist filter l : statusFilter filter l `sublist_of` l.
Proof.
  unfold statusFilter.
  destruct (str_eqb filter (js "active")); [apply List_filter_sublist|].
  destruct (str_eqb filter (js "completed")); [apply List_filter_sublist|].
  reflexivity.
Qed.

Lemma ranked_key task :
  ranked task = true -> priorityRank (Task.priority task) = KNum (rank_of task).
Proof.
  unfold ranked, rank_of.
  destruct (priorityRank (Task.priority task)); [reflexivity | discriminate..].
Qed.

Lemma mapO_priority_keys l :
  forallb ranked l = true ->
  mapO (fun task => k ← sortKey (js "priority") task; mret (k, task)) l
  = Ret (List.map (fun task => (KNum (rank_of task), task)) l).
Proof.
  induction l as [|task l IH]; [reflexivity|].
  cbn [forallb]. rewrite andb_true_iff. intros [Htask Hl].
  cbn [mapO]. rewrite (IH Hl).
  change (sortKey (js "priority") task) with (Ret (priorityRank (Task.priority task))).
  rewrite (ranked_key task Htask). reflexivity.
Qed.

Lemma sortTasks_priority sortOrder l :
  forallb ranked l = true ->
  sortTasks (js "priority") sortOrder l
  = Ret (stableSort (compareRanks sortOrder) l).
Proof.
  intros Hranked.
  destruct l as [|a [|b l]]; try reflexivity.
  unfold sortTasks. rewrite (mapO_priority_keys _ Hranked).
  change (Ret ?x ≫= ?k) with (k x). cbv beta.
  rewrite (stableSort_map (compareRanks sortOrder)
             (fun task => (KNum (rank_of task), task))) by reflexivity.
  unfold mret, Outcome_ret. f_equal.
  rewrite map_map. simpl. apply map_id.
Qed.

Lemma compareRanks_le sortOrder a b :
  compareRanks sortOrder a b <= 0 <-> rank_ordered sortOrder a b.
Proof.
  unfold compareRanks, compareKeys, rank_ordered.
  destruct (str_eqb sortOrder (js "asc")); lia.
Qed.

(** X16: with no search query and [sortBy] set to ['priority'], on a
    collection where the comparator reads a number off every task's
    priority (no priority is, as a property key, the name of a member
    that the literal inherits from [Object.prototype], such as
    ['constructor']), [getFilteredTasks] returns.  What it returns is a
    rearrangement of the tasks that pass the status filter, ordered by
    priority rank (high 3, normal 2, low 1, 2 for a key the literal does
    not have) as [sortOrder] asks, and tasks of equal rank stay in the
    order they have in the collection. *)
Theorem view_sorted_by_priority (w : World) :
  TaskManager.sortBy (manager w) = js "priority" ->
  TaskManager.searchQuery (manager w) = [] ->
  forallb ranked (collection w) = true ->
  exists shown,
    getFilteredTasks w = (Ret shown, w) /\
    shown ≡ₚ statusFilter (TaskManager.filter (manager w)) (collection w) /\
    StronglySorted (rank_ordered (TaskManager.sortOrder (manager w))) shown /\
    forall r,
      List.filter (fun task => rank_of task =? r) shown
      = List.filter (fun task => rank_of task =? r)
          (statusFilter (TaskManager.filter (manager w)) (collection w)).
Proof.
  intros Hby Hquery Hranked. rewrite getFilteredTasks_run, Hby, Hquery.
  change (searchFilter [] ?l) with (Ret l).
  change (Ret ?x ≫= ?k) with (k x). cbv beta.
  rewrite sortTasks_priority
    by (eapply forallb_sublist; [apply statusFilter_sublist | exact Hranked]).
  set (order := TaskManager.sortOrder (manager w)).
  set (candidates := statusFilter _ _).
  eexists. split; [reflexivity|].
  split; [apply stableSort_perm|].
  assert (Htotal : forall a b,
            compareRanks order a b <= 0 \/ compareRanks order b a <= 0).
  { intros a b. unfold compareRanks, compareKeys.
    destruct (str_eqb order (js "asc")); lia. }
  assert (Htrans : forall a b c,
            compareRanks order a b <= 0 -> compareRanks order b c <= 0 ->
            compareRanks order a c <= 0).
  { intros a b c. unfold compareRanks, compareKeys.
    destruct (str_eqb order (js "asc")); lia. }
  split.
  - pose proof (stableSort_sorted (compareRanks order) Htotal Htrans candidates)
      as Hsorted.
    induction Hsorted as [|a l _ IH Hall]; constructor; [exact IH|].
    eapply Forall_impl; [exact Hall|]. intros b. apply compareRanks_le.
  - intros r. apply filter_stableSort. intros a b Ha Hb.
    apply Z.eqb_eq in Ha, Hb. unfold compareRanks, compareKeys.
    destruct (str_eqb order (js "asc")); lia.
Qed.

End PriorityView.

Lemma view_sorted_by_priority_witness :
  let w := snd (setSorting (JStr (js "priority")) (JStr (js "desc")) twoTaskWorld) in
  exists shown,
    getFilteredTasks (host := sampleHost) w = (Ret shown, w) /\
    List.map Task.text shown = [JStr (js "Call dentist"); JStr (js "Buy milk")] /\
    StronglySorted (rank_ordered (host := sampleHost) (js "desc")) shown.
Proof.
  intros w.
  destruct (view_sorted_by_priority (host := sampleHost) w eq_refl eq_refl eq_refl)
    as (shown & Hrun & _ & Hsorted & _).
  exists shown. split; [exact Hrun|]. split; [|exact Hsorted].
  vm_compute in Hrun. injection Hrun as <-. reflexivity.
Defined.

Section SearchView.
Context {host : Host}.

Lemma filterO_pure {A} (p : A -> Outcome bool) (f : A -> bool) l :
  (forall x, In x l -> p x = Ret (f x)) ->
  filterO p l = Ret (List.filter f l).
Proof.
  induction l as [|x l IH]; intros Hp; [reflexivity|].
  cbn [filterO List.filter]. rewrite (Hp x (or_introl eq_refl)), IH.
  - destruct (f x); reflexivity.
  - intros y Hy. apply Hp. right. exact Hy.
Qed.

Lemma someO_tags query l :
  forallb is_string l = true ->
  someO (tag_includes query) l
  = Ret (existsb (fun tag => str_includes (string_of tag) query) l).
Proof.
  induction l as [|tag l IH]; [reflexivity|].
  cbn [forallb]. rewrite andb_true_iff. intros [Htag Hl].
  destruct tag; try discriminate. cbn [someO existsb tag_includes string_of].
  change (Ret ?x ≫= ?k) with (k x). cbv beta.
  destruct (str_includes s query); [reflexivity | exact (IH Hl)].
Qed.

Lemma matchesQuery_viewable query task :
  viewable task = true -> matchesQuery query task = Ret (matches query task).
Proof.
  unfold viewable, matchesQuery, matches, lower_includes.
  rewrite !andb_true_iff. intros [[Htext Hdesc] Htags].
  destruct (Task.text task) as [| |?|?|a|?|?]; try discriminate.
  destruct (Task.description task) as [| |?|?|b|?|?]; try discriminate.
  destruct (Task.tags task) as [| |?|?|?|?|l]; try discriminate.
  cbn [string_of].
  change (Ret ?x ≫= ?k) with (k x). cbv beta.
  destruct (str_includes (toLowerCase a) query); [reflexivity|].
  change (Ret ?x ≫= ?k) with (k x). cbv beta.
  destruct (str_includes (toLowerCase b) query); [reflexivity|].
  apply someO_tags. exact Htags.
Qed.

Lemma searchFilter_viewable searchQuery l :
  forallb viewable l = true ->
  searchFilter searchQuery l = Ret (searched searchQuery l).
Proof.
  intros Hl. unfold searchFilter, searched.
  destruct searchQuery as [|c q]; [reflexivity|]. cbn [truthy].
  apply filterO_pure. intros task Hin.
  apply matchesQuery_viewable. rewrite forallb_forall in Hl. auto.
Qed.

Lemma sortTasks_viewable sortBy sortOrder l :
  forallb viewable l = true ->
  exists shown, sortTasks sortBy sortOrder l = Ret shown.
Proof.
  intros Hl. unfold sortTasks. destruct l as [|a [|b l]]; eauto.
  assert (Hkeys : exists keyed,
            mapO (fun task => k ← sortKey sortBy task; mret (k, task)) (a :: b :: l)
            = Ret keyed).
  { revert Hl. generalize (a :: b :: l). intros tasks.
    induction tasks as [|task tasks IH]; [eauto|].
    cbn [forallb mapO]. rewrite andb_true_iff. intros [Htask Hrest].
    destruct (IH Hrest) as [keyed ->].
    assert (Hkey : exists k, sortKey sortBy task = Ret k).
    { unfold sortKey. destruct (str_eqb sortBy (js "priority")); [eauto|].
      destruct (str_eqb sortBy (js "text")).
      - unfold viewable in Htask. rewrite !andb_true_iff in Htask.
        destruct Htask as [[Htext _] _].
        destruct (Task.text task); try discriminate. eauto.
      - destruct (str_eqb sortBy (js "updatedAt")); eauto. }
    destruct Hkey as [k ->]. eauto. }
  destruct Hkeys as [keyed ->]. eauto.
Qed.

(** X17: on a collection whose tasks all have a string text, a string
    description and an array of strings as tags, [getFilteredTasks]
    returns whatever the filter, the search query and the sorting are.
    What it returns is a rearrangement of the tasks that pass the status
    filter and, when the query is not empty, whose lower-cased text or
    description contains the lower-cased query or one of whose tags, as
    written, contains it. *)
Theorem view_of_viewable_collection (w : World) :
  forallb viewable (collection w) = true ->
  exists shown,
    getFilteredTasks w = (Ret shown, w) /\
    shown ≡ₚ searched (TaskManager.searchQuery (manager w))
               (statusFilter (TaskManager.filter (manager w)) (collection w)).
Proof.
  intros Hall. rewrite getFilteredTasks_run.
  pose proof (forallb_sublist _ _ _ (statusFilter_sublist
                (TaskManager.filter (manager w)) (collection w)) Hall) as Hstatus.
  rewrite (searchFilter_viewable _ _ Hstatus).
  change (Ret ?x ≫= ?k) with (k x). cbv beta.
  set (candidates := searched _ _).
  assert (Hcandidates : forallb viewable candidates = true).
  { subst candidates. unfold searched.
    destruct (TaskManager.searchQuery (manager w)); [exact Hstatus|].
    eapply forallb_sublist; [apply List_filter_sublist | exact Hstatus]. }
  destruct (sortTasks_viewable (TaskManager.sortBy (manager w))
              (TaskManager.sortOrder (manager w)) candidates Hcandidates)
    as [shown Hsort].
  rewrite Hsort. exists shown. split; [reflexivity|].
  eapply sortTasks_perm. exact Hsort.
Qed.

(** X18: [setSearchQuery] stores the trimmed query and dispatches
    [searchChanged] alone, leaving the collection, the storage and the
    other view settings as they were; on a value that is not a string it
    throws a TypeError and changes nothing.  After a query of whitespace
    only the search is off: [getFilteredTasks] answers as it does after
    the empty query. *)
Theorem setSearchQuery_trims (w : World) (query : JsVal) :
  (is_string query = false -> setSearchQuery query w = (Throw TypeError, w)) /\
  (forall s, query = JStr s ->
   exists w',
     setSearchQuery query w = (Ret tt, w') /\
     TaskManager.searchQuery (manager w') = trim s /\
     dispatched w' = dispatched w ++ [searchChanged (trim s)] /\
     collection w' = collection w /\ stored w' = stored w /\
     TaskManager.filter (manager w') = TaskManager.filter (manager w) /\
     TaskManager.sortBy (manager w') = TaskManager.sortBy (manager w) /\
     TaskManager.sortOrder (manager w') = TaskManager.sortOrder (manager w) /\
     (trim s = [] ->
      fst (getFilteredTasks w')
      = fst (getFilteredTasks (snd (setSearchQuery (JStr []) w))))).
Proof.
  split.
  - intros Hq. unfold setSearchQuery, call_trim. destruct query; try discriminate;
      reflexivity.
  - intros s ->. unfold setSearchQuery, call_trim. run.
    eexists. split; [reflexivity|]. world. unfold collection. world.
    repeat split. intros Htrim. rewrite !getFilteredTasks_run. world.
    unfold collection. world. rewrite Htrim. reflexivity.
Qed.

End SearchView.

Lemma view_of_viewable_collection_witness :
  let w := snd (setSearchQuery (JStr (js " DENT ")) twoTaskWorld) in
  forallb viewable (collection w) = true /\
  exists shown,
    getFilteredTasks (host := sampleHost) w = (Ret shown, w) /\
    List.map Task.text shown = [JStr (js "Call dentist")].
Proof.
  intros w. split; [reflexivity|].
  destruct (view_of_viewable_collection (host := sampleHost) w eq_refl)
    as (shown & Hrun & _).
  exists shown. split; [exact Hrun|].
  vm_compute in Hrun. injection Hrun as <-. reflexivity.
Defined.

Lemma setSearchQuery_trims_witness :
  is_string JNull = false /\
  setSearchQuery JNull milkWorld = (Throw TypeError, milkWorld) /\
  exists w',
    setSearchQuery (JStr (js " milk ")) milkWorld = (Ret tt, w') /\
    TaskManager.searchQuery (manager w') = js "milk".
Proof.
  split; [reflexivity|].
  split; [exact (proj1 (setSearchQuery_trims (host := sampleHost) milkWorld JNull) eq_refl)|].
  destruct (proj2 (setSearchQuery_trims (host := sampleHost) milkWorld
                     (JStr (js " milk "))) (js " milk ") eq_refl)
    as (w' & Hrun & Hquery & _).
  exists w'. split; [exact Hrun | exact Hquery].
Defined.

(** * Persisting failures and notifications *)

Section Failures.
Context {host : Host}.

(** X19: a mutation is not undone when persisting it throws.  If some
    task of the collection has tags that cannot be spread, [addTask]
    with a valid text still puts the new task in front, then throws a
    TypeError out of [saveTasks]: nothing reaches the storage and no
    event is dispatched.  [removeTask] on an id it finds likewise
    removes the task and throws when an unserializable task remains. *)
Theorem mutation_kept_when_saving_throws (w : World) :
  storable (collection w) = false ->
  (forall s options,
     trim s <> [] ->
     exists task w',
       addTask (JStr s) options w = (Throw TypeError, w') /\
       collection w' = task :: collection w /\
       Task.text task = JStr (trim s) /\
       stored w' = stored w /\ dispatched w' = dispatched w) /\
  (forall taskId i task,
     findIndex (has_id taskId) (collection w) = Some i ->
     collection w !! i = Some task ->
     storable (delete i (collection w)) = false ->
     exists w',
       removeTask taskId w = (Throw TypeError, w') /\
       collection w' = delete i (collection w) /\
       stored w' = stored w /\ dispatched w' = dispatched w).
Proof.
  intros Hbad. split.
  - intros s options Hs.
    assert (Hguard : negb (truthy (JStr s)) || negb (is_string (JStr s))
                     || negb (truthy (JStr (trim s))) = false).
    { destruct s as [|c s]; [elim Hs; reflexivity|].
      simpl. destruct (trim (c :: s)); [elim Hs; reflexivity | reflexivity]. }
    unfold addTask. rewrite Hguard.
    destruct (new_Task_run s options w) as (task & n & Hnew & _ & _ & _ & Htext & _).
    run. rewrite Hnew. run. rewrite saveTasks_run. unfold collection. world.
    rewrite mapO_toJSON_unstorable.
    + eexists task, _. split; [reflexivity|]. world. repeat split. exact Htext.
    + simpl. unfold collection in Hbad. rewrite Hbad. apply andb_false_r.
  - intros taskId i task Hfind Hlookup Hrest.
    rewrite (removeTask_run _ _ _ _ Hfind Hlookup),
      (mapO_toJSON_unstorable _ Hrest).
    eexists. split; [reflexivity|]. repeat split.
Qed.

(** X20: [reset] never throws, whatever the collection held, also one
    that could not be serialized.  Afterwards the collection is empty
    and the filter, search query and sorting are those of a manager
    constructed over an empty storage; the storage manager was handed
    the empty list, which it holds unless [localStorage] refused it, and
    its two reads of the clock are the only ones; [tasksReset] then
    [tasksChanged] were dispatched. *)
Theorem reset_restores_defaults (w : World) :
  exists w',
    reset w = (Ret tt, w') /\
    collection w' = collection (new_TaskManager []) /\
    viewSettings w' = viewSettings (new_TaskManager []) /\
    TaskManager.nextId (manager w') = TaskManager.nextId (manager w) /\
    reads w' = S (S (reads w)) /\
    stored w' = persisted (reads w') [] (stored w) /\
    dispatched w' = dispatched w ++ [tasksReset; tasksChanged].
Proof.
  unfold reset. run. world. rewrite saveTasks_run. unfold collection. world.
  simpl mapO. cbv iota. run. world.
  eexists. split; [reflexivity|]. world.
  rewrite <- app_assoc. repeat split.
Qed.

Lemma updateTask_announces w taskId updates :
  announces (updateTask taskId updates w) w
    (fun task _ => taskUpdated task (found_task taskId w)).
Proof.
  unfold announces, found_task, updateTask. run.
  destruct (findIndex (has_id taskId) (collection w)) as [i|] eqn:Hfind;
    [|reflexivity].
  rewrite bind_run, task_at_run.
  destruct (collection w !! i) as [task|] eqn:Hlookup; [|reflexivity].
  cbv beta iota. rewrite (find_findIndex _ _ _ _ Hfind Hlookup). simpl default.
  rewrite bind_run.
  pose proof (preserves_forEach dispatched (applyUpdate i) updates
                (fun entry => preserves_applyUpdate dispatched
                   ltac:(reflexivity) ltac:(reflexivity) i entry) w) as Hkeep.
  destruct (forEach (applyUpdate i) updates w) as [[u|e] w1]; simpl in Hkeep;
    [|exact Hkeep].
  cbv beta iota. rewrite bind_run, saveTasks_run.
  destruct (mapO toJSON (collection w1)) as [taskData|e]; [|exact Hkeep].
  cbv beta iota. rewrite bind_run, task_at_run. unfold collection. world.
  destruct (TaskManager.tasks (manager w1) !! i) as [task'|]; [|exact Hkeep].
  run. world. rewrite Hkeep, <- app_assoc. reflexivity.
Qed.

(** X21: the notifications of the collection-changing operations.  When
    [addTask], [removeTask], [updateTask], [toggleTask], [clearCompleted]
    or [importTasks] returns, it has dispatched exactly its own event
    (carrying the task returned, the old snapshot, the number removed,
    or the counts of the import) and then [tasksChanged]; when it
    throws, at whatever point, it has dispatched nothing. *)
Theorem mutations_announce_or_stay_silent (w : World) :
  (forall text options,
     announces (addTask text options w) w (fun task _ => taskAdded task)) /\
  (forall taskId,
     announces (removeTask taskId w) w (fun task _ => taskRemoved task)) /\
  (forall taskId updates,
     announces (updateTask taskId updates w) w
       (fun task _ => taskUpdated task (found_task taskId w))) /\
  (forall taskId,
     announces (toggleTask taskId w) w
       (fun task _ => taskUpdated task (found_task taskId w))) /\
  announces (clearCompleted w) w
    (fun removed _ => completedCleared (length removed)) /\
  (forall tasksData merge,
     announces (importTasks tasksData merge w) w
       (fun _ w' =>
          tasksImported
            (match tasksData with ArrayOf elems => length elems | NotArray => 0 end)
            merge (length (collection w')))).
Proof.
  split; [|split; [|split; [|split; [|split]]]].
  - intros text options. unfold announces, addTask.
    destruct (negb (truthy text) || negb (is_string text) || _) eqn:Hguard;
      [reflexivity|].
    destruct text as [| |?|?|s|?|?];
      try (simpl in Hguard; rewrite ?orb_true_r in Hguard; discriminate Hguard).
    destruct (new_Task_run s options w) as (task & n & Hnew & _).
    run. rewrite Hnew. run. rewrite saveTasks_run. unfold collection. world.
    destruct (mapO toJSON _); run; world; [|reflexivity].
    rewrite <- app_assoc. reflexivity.
  - intros taskId. unfold announces.
    destruct (findIndex (has_id taskId) (collection w)) as [i|] eqn:Hfind.
    + destruct (findIndex_Some _ _ _ Hfind) as (task & Hlookup & _).
      rewrite (removeTask_run _ _ _ _ Hfind Hlookup).
      destruct (mapO toJSON _); reflexivity.
    + rewrite (removeTask_absent _ _ Hfind). reflexivity.
  - intros taskId updates. apply updateTask_announces.
  - intros taskId. unfold toggleTask. unfold announces.
    rewrite bind_run, getTask_run.
    destruct (List.find (has_id taskId) (collection w)); [|reflexivity].
    cbv beta iota. apply updateTask_announces.
  - unfold announces. rewrite clearCompleted_run. cbv zeta.
    destruct (mapO toJSON _); reflexivity.
  - intros [|elems] merge; [reflexivity|].
    unfold announces, importTasks. run.
    pose proof (mapM_fromJSON_outcome elems w) as Hout.
    destruct (texts_are_strings elems).
    + destruct Hout as (tasks & n & -> & Hall). run. world.
      destruct merge; run; world; rewrite saveTasks_run; unfold collection; world;
        (destruct (mapO toJSON _); run; world; [|reflexivity]);
        unfold collection; world;
        rewrite <- app_assoc, (Forall2_length _ _ _ Hall); reflexivity.
    + destruct Hout as (n & ->). reflexivity.
Qed.

End Failures.

Lemma mutation_kept_when_saving_throws_witness :
  storable (collection brokenWorld) = false /\
  exists task w',
    addTask (host := sampleHost) (JStr (js "Call dentist")) Task.empty brokenWorld
      = (Throw TypeError, w') /\
    collection w' = task :: collection brokenWorld /\
    dispatched w' = dispatched brokenWorld.
Proof.
  split; [reflexivity|].
  destruct (proj1 (mutation_kept_when_saving_throws (host := sampleHost) brokenWorld
                     eq_refl) (js "Call dentist") Task.empty)
    as (task & w' & Hrun & Hcollection & _ & _ & Hevents).
  - vm_compute. discriminate.
  - exists task, w'. repeat split; assumption.
Defined.
